(** * BloomsBot: classifier, concept extractor, paper assembler and paper editing

    A shallow embedding of the Python sources

      - [blooms_classifier.py]  (keyword scoring, difficulty tiers),
      - [question_generator.py] (concept extraction, question generation and
        balancing),
      - [paper_generator.py]    (greedy assembler, relaxed fallback and
        validator),
      - [app.py], [database.py] (upload check, replace / remove on the current
        paper, queries on the question table),

    followed by the properties established about them.

    Conventions of the embedding.

      - Python [int] is [Z].  Python [str] is [string]; the texts handled are
        ASCII (the keyword tables, the templates and the regular expressions
        of the sources only mention ASCII letters), so [str.lower], [\w],
        [\s] and [\b] are their ASCII readings.
      - A question row (a [dict] built from an SQLite row) is the record
        [question]; the pool is the list of rows in table order.
      - [dict]s that are only looked up and updated ([unit_distribution],
        [bloom_distribution], [bloom_targets]) are [gmap]s; [dict]s whose
        iteration order is observed ([BLOOM_KEYWORDS], [level_scores],
        [questions_by_criteria], [word_freq]) are association lists in
        insertion order.
      - In [determine_difficulty] every float operand comes from a finite
        table, so the arithmetic is carried out in binary64 ([PrimFloat]).
        The tests of the relaxed fallback and of the validator compare an
        unbounded [int] with the product of an [int] and a float literal;
        that product is computed in binary64 as well ([spec_float], the
        Standard Library's specification of IEEE 754), and the conversion
        of an [int] too large for a float raises [OverflowError].  The
        scores of the selection loop, its [bloom_targets] and its
        acceptance test are read as exact rationals ([Q]): [0.7] is
        [7/10], [/] is exact division; what is proved of the selection loop
        holds whichever candidate the scores prefer.
      - A raised exception is a value of [result]: [ZeroDivisionError] from
        a division of the scoring, [OverflowError] from the fallback and
        the validator. *)

From Stdlib Require Import ZArith QArith List String Ascii Bool Lia Permutation.
From Stdlib Require Import Floats.PrimFloat Floats.SpecFloat Floats.FloatOps Uint63.
From stdpp Require Import gmap strings pretty.

Import ListNotations.
Local Open Scope string_scope.
Local Open Scope list_scope.
Local Open Scope Z_scope.

(** ** Data model *)

(** A row of the [questions] table, as the [dict] the code passes around:
    [q['id']], [q['unit']], [q['question']], [q['marks']],
    [q['bloom_level']], [q['difficulty']]. *)
Record question := mkQuestion {
  q_id : Z;
  q_unit : string;
  q_text : string;
  q_marks : Z;
  q_bloom_level : string;
  q_difficulty : string
}.

(** The six levels, in the insertion order of [BLOOM_KEYWORDS]. *)
Inductive bloom := Remember | Understand | Apply | Analyze | Evaluate | Create.

Definition bloom_name (b : bloom) : string :=
  match b with
  | Remember => "Remember"
  | Understand => "Understand"
  | Apply => "Apply"
  | Analyze => "Analyze"
  | Evaluate => "Evaluate"
  | Create => "Create"
  end.

Definition all_blooms : list bloom :=
  [Remember; Understand; Apply; Analyze; Evaluate; Create].

Inductive difficulty := Easy | Medium | Hard.

(** [d.get(k, default)] on a dict kept as an association list. *)
Fixpoint dict_get {V : Type} (d : list (string * V)) (k : string) (default : V) : V :=
  match d with
  | [] => default
  | (k', v) :: d' => if String.eqb k' k then v else dict_get d' k default
  end.

(** ** blooms_classifier.py: determine_difficulty *)

Definition bloom_difficulty : list (string * Z) :=
  [("Remember", 1); ("Understand", 2); ("Apply", 3);
   ("Analyze", 4); ("Evaluate", 5); ("Create", 6)].

(** [if marks <= 2: 1 elif marks <= 5: 2 else: 3] *)
Definition marks_score (marks : Z) : Z :=
  if marks <=? 2 then 1 else if marks <=? 5 then 2 else 3.

(** Conversion of a small non-negative [int] to [float] (exact below 2^53;
    the scores converted here lie between 1 and 6). *)
Definition float_of_int (z : Z) : float := PrimFloat.of_uint63 (Uint63.of_Z z).

(** [(bloom_score * 0.6) + (marks_score * 0.4)]; the two literals are the
    binary64 values nearest to 6/10 and 4/10, written in hexadecimal. *)
Definition combined_score (bloom_level : string) (marks : Z) : float :=
  let bloom_score := dict_get bloom_difficulty bloom_level 2 in
  (float_of_int bloom_score * 0x1.3333333333333p-1
   + float_of_int (marks_score marks) * 0x1.999999999999ap-2)%float.

Definition determine_difficulty (bloom_level : string) (marks : Z) : difficulty :=
  let combined := combined_score bloom_level marks in
  if PrimFloat.leb combined 2.5%float then Easy
  else if PrimFloat.leb combined 4.5%float then Medium
  else Hard.

(** The rule in the words of the specification, over exact rationals. *)
Definition bloom_weight (b : bloom) : Z :=
  match b with
  | Remember => 1 | Understand => 2 | Apply => 3
  | Analyze => 4 | Evaluate => 5 | Create => 6
  end.

Definition marks_tier (marks : Z) : Z :=
  if marks <=? 2 then 1 else if marks <=? 5 then 2 else 3.

Definition combined_spec (b : bloom) (marks : Z) : Q :=
  ((6 # 10) * inject_Z (bloom_weight b) + (4 # 10) * inject_Z (marks_tier marks))%Q.

Definition difficulty_spec (b : bloom) (marks : Z) : difficulty :=
  if Qle_bool (combined_spec b marks) (25 # 10) then Easy
  else if Qle_bool (combined_spec b marks) (45 # 10) then Medium
  else Hard.

(** ** Strings and the regular-expression primitives the sources use *)

Definition code (c : ascii) : Z := Z.of_N (N_of_ascii c).

Definition is_upper (c : ascii) : bool := (65 <=? code c) && (code c <=? 90).
Definition is_lower (c : ascii) : bool := (97 <=? code c) && (code c <=? 122).
Definition is_digit (c : ascii) : bool := (48 <=? code c) && (code c <=? 57).

(** [\w] *)
Definition is_word (c : ascii) : bool :=
  is_upper c || is_lower c || is_digit c || (code c =? 95).

(** [\s]: tab, newline, vertical tab, form feed, carriage return, the four
    separators 28..31 and the space. *)
Definition is_space (c : ascii) : bool :=
  ((9 <=? code c) && (code c <=? 13))
  || ((28 <=? code c) && (code c <=? 32)).

Definition lower_char (c : ascii) : ascii :=
  if is_upper c then ascii_of_N (N_of_ascii c + 32) else c.

(** [str.lower] *)
(** [s.isascii()] *)
Fixpoint isascii (s : string) : bool :=
  match s with
  | EmptyString => true
  | String c rest => (code c <? 128) && isascii rest
  end.

Fixpoint lower (s : string) : string :=
  match s with
  | EmptyString => EmptyString
  | String c s' => String (lower_char c) (lower s')
  end.

Definition head (s : string) : option ascii :=
  match s with
  | EmptyString => None
  | String c _ => Some c
  end.

Definition is_word_opt (o : option ascii) : bool :=
  match o with
  | Some c => is_word c
  | None => false
  end.

(** [\b] between the character [before] and the character [after] (absent at
    the ends of the string): exactly one of the two is a word character. *)
Definition boundary (before after : option ascii) : bool :=
  xorb (is_word_opt before) (is_word_opt after).

(** Match the literal [k] at the start of [s]: the last character consumed
    (or [before] if [k] is empty) and the rest of [s]. *)
Fixpoint literal (k s : string) (before : option ascii)
    : option (option ascii * string) :=
  match k with
  | EmptyString => Some (before, s)
  | String c k' =>
      match s with
      | EmptyString => None
      | String d s' =>
          if Ascii.eqb c d then literal k' s' (Some d) else None
      end
  end.

(** [\b] + keyword + [\b] matched at the start of [s], preceded by
    [before]. *)
Definition word_here (keyword s : string) (before : option ascii) : bool :=
  boundary before (head s)
  && match literal keyword s before with
     | Some (last, rest) => boundary last (head rest)
     | None => false
     end.

(** [re.search(r'\b' + re.escape(keyword) + r'\b', s)], scanning [s] from
    the position that follows [before]. *)
Fixpoint search_word_from (keyword s : string) (before : option ascii) : bool :=
  word_here keyword s before
  || match s with
     | EmptyString => false
     | String c s' => search_word_from keyword s' (Some c)
     end.

Definition search_word (keyword s : string) : bool :=
  search_word_from keyword s None.

Fixpoint starts_with (p s : string) : option string :=
  match p with
  | EmptyString => Some s
  | String c p' =>
      match s with
      | EmptyString => None
      | String d s' => if Ascii.eqb c d then starts_with p' s' else None
      end
  end.

(** [needle in s] *)
Fixpoint contains (needle s : string) : bool :=
  match starts_with needle s with
  | Some _ => true
  | None =>
      match s with
      | EmptyString => false
      | String _ s' => contains needle s'
      end
  end.

(** ** blooms_classifier.py: determine_bloom_level *)

Definition BLOOM_KEYWORDS : list (string * list string) :=
  [("Remember",
    ["define"; "list"; "state"; "identify"; "name"; "label"; "recall";
     "recognize"; "select"; "what is"; "who"; "when"; "where"; "match";
     "choose"; "find"; "show"; "spell"; "tell"; "write"]);
   ("Understand",
    ["explain"; "describe"; "summarize"; "discuss"; "interpret"; "paraphrase";
     "illustrate"; "classify"; "compare"; "translate"; "outline"; "review";
     "restate"; "express"; "locate"; "report"; "recognize"; "give example"]);
   ("Apply",
    ["apply"; "demonstrate"; "use"; "implement"; "solve"; "show"; "execute";
     "construct"; "compute"; "modify"; "operate"; "prepare"; "produce";
     "relate"; "develop"; "organize"; "utilize"; "sketch"; "calculate"]);
   ("Analyze",
    ["analyze"; "examine"; "compare"; "contrast"; "distinguish";
     "differentiate"; "investigate"; "categorize"; "breakdown"; "separate";
     "infer"; "arrange"; "classify"; "order"; "connect"; "divide"; "select";
     "survey"; "inspect"]);
   ("Evaluate",
    ["evaluate"; "assess"; "judge"; "critique"; "justify"; "argue"; "defend";
     "support"; "rate"; "prioritize"; "recommend"; "conclude"; "predict";
     "criticize"; "weigh"; "measure"; "validate"; "prove"; "disprove"]);
   ("Create",
    ["create"; "design"; "develop"; "construct"; "plan"; "produce"; "invent";
     "formulate"; "propose"; "compose"; "generate"; "derive"; "modify";
     "assemble"; "set up"; "devise"; "imagine"; "integrate"; "synthesize"])].

(** The inner [for keyword in keywords] loop: one point per keyword of the
    list found as a whole word. *)
Fixpoint keyword_score (keywords : list string) (question_lower : string) : Z :=
  match keywords with
  | [] => 0
  | keyword :: rest =>
      (if search_word keyword question_lower then 1 else 0)
      + keyword_score rest question_lower
  end.

(** [level_scores] after the two loops, in the insertion order of the
    levels. *)
Definition level_scores (question_lower : string) : list (string * Z) :=
  map (fun entry => (fst entry, keyword_score (snd entry) question_lower))
      BLOOM_KEYWORDS.

(** [max(values)] and [max(d, key=d.get)]: the first largest item in
    iteration order. *)
Fixpoint max_from (best : string * Z) (items : list (string * Z)) : string * Z :=
  match items with
  | [] => best
  | item :: rest =>
      if snd best <? snd item then max_from item rest else max_from best rest
  end.

Definition max_item (items : list (string * Z)) : option (string * Z) :=
  match items with
  | [] => None
  | item :: rest => Some (max_from item rest)
  end.

(** [re.match(r'^(what|who|when|where)\s', s)] and the like: one of the
    words, followed by a whitespace character, at the start of [s]. *)
Definition starts_with_word (words : list string) (s : string) : bool :=
  existsb (fun w =>
             match starts_with w s with
             | Some (String c _) => is_space c
             | _ => false
             end) words.

Definition classify_by_heuristics (question_text : string) : string :=
  let question_lower := lower question_text in
  if starts_with_word ["what"; "who"; "when"; "where"] question_lower then
    "Remember"
  else if starts_with_word ["how"] question_lower then
    if contains "work" question_lower || contains "implement" question_lower
    then "Apply" else "Understand"
  else if starts_with_word ["why"] question_lower then
    if 100 <? Z.of_nat (String.length question_text)
    then "Analyze" else "Understand"
  else if contains "explain" question_lower
          || contains "describe" question_lower then "Understand"
  else if contains "compare" question_lower
          || contains "contrast" question_lower
          || contains "difference" question_lower then "Analyze"
  else if contains "design" question_lower
          || contains "create" question_lower
          || contains "develop" question_lower then "Create"
  else "Understand".

(** [level_scores] has the six entries of [BLOOM_KEYWORDS], so [max_item]
    always finds an item; its value is [max(level_scores.values())] and its
    key is [max(level_scores, key=level_scores.get)]. *)
Definition determine_bloom_level (question_text : string) : string :=
  let question_lower := lower question_text in
  let scores := level_scores question_lower in
  match max_item scores with
  | None => classify_by_heuristics question_text
  | Some (level, highest) =>
      if highest =? 0 then classify_by_heuristics question_text
      else level
  end.

(** The keyword list of a level and its position in the table. *)
Definition keywords_of (b : bloom) : list string :=
  dict_get BLOOM_KEYWORDS (bloom_name b) [].

Definition bloom_index (b : bloom) : Z :=
  match b with
  | Remember => 0 | Understand => 1 | Apply => 2
  | Analyze => 3 | Evaluate => 4 | Create => 5
  end.

(** The number of keywords of level [b] occurring as whole words in the
    lower-cased text. *)
Definition count_of (b : bloom) (question_text : string) : Z :=
  keyword_score (keywords_of b) (lower question_text).

(** [classify_question]: the dict [{'bloom_level': ..., 'difficulty': ...}]
    as a pair. *)
Definition classify_question (question_text : string) (marks : Z)
    : string * difficulty :=
  let bloom_level := determine_bloom_level question_text in
  let difficulty := determine_difficulty bloom_level marks in
  (bloom_level, difficulty).

(** ** question_generator.py: extract_key_concepts *)

(** The longest prefix of [s] whose characters satisfy [p], and the rest. *)
Fixpoint span (p : ascii -> bool) (s : string) : string * string :=
  match s with
  | EmptyString => (EmptyString, EmptyString)
  | String c s' =>
      if p c then let '(run, rest) := span p s' in (String c run, rest)
      else (EmptyString, s)
  end.

Definition is_empty (s : string) : bool :=
  match s with
  | EmptyString => true
  | String _ _ => false
  end.

(** [\b] after a word character: the next character is absent or not a word
    character. *)
Definition word_end (rest : string) : bool := negb (is_word_opt (head rest)).

Fixpoint last_char (s : string) (default : option ascii) : option ascii :=
  match s with
  | EmptyString => default
  | String c s' => last_char s' (Some c)
  end.

(** [[A-Z][a-z]{n,}] at the start of [s].  The repetition is greedy, and in
    the patterns below a shorter repetition can never lead to a match (the
    next character would be a lower-case letter, where neither [\s] nor
    [\b] matches), so only the longest run is tried. *)
Definition capital_word (n : nat) (s : string) : option (string * string) :=
  match s with
  | EmptyString => None
  | String c s' =>
      if is_upper c then
        let '(run, rest) := span is_lower s' in
        if (n <=? String.length run)%nat then Some (String c run, rest)
        else None
      else None
  end.

(** [(?:\s+[A-Z][a-z]+){0,n}\b] after the words matched so far ([acc]):
    greedy, giving back the last group when what follows it fails. *)
Fixpoint more_capital_words (n : nat) (acc rest : string)
    : option (string * string) :=
  let stop := if word_end rest then Some (acc, rest) else None in
  match n with
  | O => stop
  | S n' =>
      let '(spaces, after_spaces) := span is_space rest in
      if is_empty spaces then stop
      else
        match capital_word 1 after_spaces with
        | Some (word, rest') =>
            match more_capital_words n' (acc ++ spaces ++ word) rest' with
            | Some r => Some r
            | None => stop
            end
        | None => stop
        end
  end.

(** One attempt of a pattern at a position: the text matched, the text
    captured (what [findall] lists), and the rest of the string. *)
Definition attempt : Type := option ascii -> string -> option (string * string * string).

(** [\b[A-Z][a-z]+(?:\s+[A-Z][a-z]+){0,3}\b] *)
Definition technical_term : attempt := fun before s =>
  if boundary before (head s) then
    match capital_word 1 s with
    | Some (word, rest) =>
        match more_capital_words 3 word rest with
        | Some (m, rest') => Some (m, m, rest')
        | None => None
        end
    | None => None
    end
  else None.

(** [\b[A-Z][a-z]{3,}\b] *)
Definition long_capital_word : attempt := fun before s =>
  if boundary before (head s) then
    match capital_word 3 s with
    | Some (word, rest) =>
        if word_end rest then Some (word, word, rest) else None
    | None => None
    end
  else None.

(** A literal prefix matched without regard to case ([re.IGNORECASE]). *)
Fixpoint starts_with_ci (p s : string) : option string :=
  match p with
  | EmptyString => Some s
  | String c p' =>
      match s with
      | EmptyString => None
      | String d s' =>
          if Ascii.eqb (lower_char c) (lower_char d) then starts_with_ci p' s'
          else None
      end
  end.

(** [(?:\s+\w+){0,n}] after the words captured so far: greedy; nothing
    follows it in the pattern, so the greedy choice stands. *)
Fixpoint more_words (n : nat) (acc rest : string) : string * string :=
  match n with
  | O => (acc, rest)
  | S n' =>
      let '(spaces, after_spaces) := span is_space rest in
      if is_empty spaces then (acc, rest)
      else
        let '(word, rest') := span is_word after_spaces in
        if is_empty word then (acc, rest)
        else more_words n' (acc ++ spaces ++ word) rest'
  end.

(** [prefix + r'\s+(\w+(?:\s+\w+){0,2})'] with [re.IGNORECASE]; when
    [optional_sd] is set the prefix is followed by [[sd]?]. *)
Definition marker (prefix : string) (optional_sd : bool) : attempt :=
  fun before s =>
    match starts_with_ci prefix s with
    | None => None
    | Some rest =>
        let rest :=
          match rest with
          | String c rest' =>
              if optional_sd
                 && (Ascii.eqb (lower_char c) "s" || Ascii.eqb (lower_char c) "d")
              then rest' else rest
          | EmptyString => rest
          end in
        let '(spaces, after_spaces) := span is_space rest in
        if is_empty spaces then None
        else
          let '(word, rest') := span is_word after_spaces in
          if is_empty word then None
          else
            let '(captured, rest'') := more_words 2 word rest' in
            Some (captured, captured, rest'')
    end.

Definition markers : list attempt :=
  [marker "define" true; marker "concept of" false; marker "called" false;
   marker "known as" false; marker "refers to" false;
   marker "meaning of" false].

(** [re.findall]: scan from left to right, resume after each match.  Each
    match consumes at least one character, so [fuel] equal to the length of
    the string plus one is never used up. *)
Fixpoint findall_from (fuel : nat) (pattern : attempt) (before : option ascii)
    (s : string) : list string :=
  match fuel with
  | O => []
  | S fuel' =>
      match pattern before s with
      | Some (matched, captured, rest) =>
          captured :: findall_from fuel' pattern (last_char matched before) rest
      | None =>
          match s with
          | EmptyString => []
          | String c s' => findall_from fuel' pattern (Some c) s'
          end
      end
  end.

Definition findall (pattern : attempt) (s : string) : list string :=
  findall_from (S (String.length s)) pattern None s.

(** [word_freq[word] = word_freq.get(word, 0) + 1] on a dict in insertion
    order. *)
Fixpoint count_word (word_freq : list (string * Z)) (word : string)
    : list (string * Z) :=
  match word_freq with
  | [] => [(word, 1)]
  | (w, n) :: rest =>
      if String.eqb w word then (w, n + 1) :: rest
      else (w, n) :: count_word rest word
  end.

(** [sorted(items, key=lambda x: x[1], reverse=True)]: stable, by
    descending count. *)
Fixpoint insert_by_count (x : string * Z) (l : list (string * Z))
    : list (string * Z) :=
  match l with
  | [] => [x]
  | y :: l' =>
      if snd x <? snd y then y :: insert_by_count x l' else x :: y :: l'
  end.

Definition sorted_by_count (l : list (string * Z)) : list (string * Z) :=
  fold_right insert_by_count [] l.

Definition drop_spaces (s : string) : string := snd (span is_space s).

Fixpoint drop_trailing_spaces (s : string) : string :=
  match s with
  | EmptyString => EmptyString
  | String c s' =>
      let t := drop_trailing_spaces s' in
      if is_space c && is_empty t then EmptyString else String c t
  end.

(** [str.strip] *)
Definition strip (s : string) : string := drop_trailing_spaces (drop_spaces s).

(** The list [concepts] before cleaning: the three methods in order. *)
Definition raw_concepts (text : string) : list string :=
  let technical_terms := findall technical_term text in
  let marker_matches := flat_map (fun m => findall m text) markers in
  let words := findall long_capital_word text in
  let word_freq := fold_left count_word words [] in
  let frequent_terms := firstn 10 (sorted_by_count word_freq) in
  technical_terms ++ marker_matches ++ map fst frequent_terms.

(** [[c.strip() for c in concepts if len(c.strip()) > 3]] *)
Definition cleaned_concepts (text : string) : list string :=
  map strip
      (List.filter (fun c => (3 <? String.length (strip c))%nat)
                   (raw_concepts text)).

(** [list(set(...))[:15]].  [set_order] lists the elements of the set built
    from a list in the order the set iterates them; for strings this order
    follows the hash values of the running interpreter. *)
Definition extract_key_concepts (set_order : list string -> list string)
    (text : string) : list string :=
  firstn 15 (set_order (cleaned_concepts text)).

(** What makes [set_order] the listing of a set: each element of the list
    once, and nothing else. *)
Definition set_listing (set_order : list string -> list string) : Prop :=
  forall l, NoDup (set_order l) /\ forall x, (x ∈ set_order l) <-> (x ∈ l).

(** The listing in order of first occurrence. *)
Fixpoint first_seen (l : list string) : list string :=
  match l with
  | [] => []
  | x :: l' =>
      x :: List.filter (fun y => negb (String.eqb x y)) (first_seen l')
  end.

Definition last_seen_first (l : list string) : list string := rev (first_seen l).

(** ** question_generator.py: generation and balancing *)

Definition QUESTION_TEMPLATES : list (string * list string) :=
 [("Remember",
    ["Define {topic}.";
     "What is {topic}?";
     "List the main features of {topic}.";
     "State the key components of {topic}.";
     "Identify the characteristics of {topic}.";
     "Recall the fundamental principles of {topic}.";
     "Name the types of {topic}."]);
  ("Understand",
    ["Explain {topic} in your own words.";
     "Describe the concept of {topic}.";
     "Summarize the main points of {topic}.";
     "Discuss the significance of {topic}.";
     "Illustrate {topic} with an example.";
     "Interpret the meaning of {topic}.";
     "Compare {topic} with related concepts."]);
  ("Apply",
    ["Demonstrate how {topic} can be implemented.";
     "Apply the principles of {topic} to solve a practical problem.";
     "Show how {topic} works in a real-world scenario.";
     "Use {topic} to develop a solution.";
     "Implement {topic} in a given context.";
     "Execute the steps involved in {topic}."]);
  ("Analyze",
    ["Analyze the structure of {topic}.";
     "Break down {topic} into its constituent parts.";
     "Examine the relationship between {topic} and related concepts.";
     "Compare and contrast different aspects of {topic}.";
     "Investigate the factors that influence {topic}.";
     "Distinguish between the components of {topic}."]);
  ("Evaluate",
    ["Evaluate the effectiveness of {topic}.";
     "Assess the advantages and disadvantages of {topic}.";
     "Critique the approach used in {topic}.";
     "Judge the validity of {topic}.";
     "Justify the importance of {topic}.";
     "Recommend improvements for {topic}."]);
  ("Create",
    ["Design a system that implements {topic}.";
     "Develop a new approach for {topic}.";
     "Construct a model demonstrating {topic}.";
     "Propose a solution using {topic}.";
     "Formulate a hypothesis about {topic}.";
     "Generate alternative methods for {topic}."])].

(** A generated question before classification: [q['unit']],
    [q['question']], [q['marks']], [q['bloom_level']]. *)
Record draft := mkDraft {
  d_unit : string;
  d_question : string;
  d_marks : Z;
  d_bloom_level : string
}.

(** [s.replace(old, new)] for a non-empty [old]: the occurrences of [old]
    are replaced from left to right, without overlap; [skip] counts the
    characters of an occurrence still to be dropped. *)
Fixpoint replace_from (skip : nat) (old new s : string) : string :=
  match s with
  | EmptyString => EmptyString
  | String c s' =>
      match skip with
      | S k => replace_from k old new s'
      | O =>
          match starts_with old s with
          | Some _ => new ++ replace_from (String.length old - 1) old new s'
          | None => String c (replace_from 0 old new s')
          end
      end
  end.

Definition str_replace (old new s : string) : string := replace_from 0 old new s.

(** The draws of the [random] module during one call of
    [generate_questions_for_unit]: the permutations the two
    [random.shuffle] calls apply, and the number behind the k-th
    [random.choice] call. *)
Record random_source := mkRandom {
  shuffled_marks : list Z -> list Z;
  shuffled_topics : list string -> list string;
  drawn : nat -> nat
}.

(** [random.choice(l)] with the number [n] drawn: an element of [l];
    [None] stands for the [IndexError] on an empty list. *)
Definition random_choice {A : Type} (n : nat) (l : list A) : option A :=
  nth_error l (n mod length l).

(** [d[k]]; [None] stands for the [KeyError]. *)
Fixpoint dict_find {V : Type} (d : list (string * V)) (k : string) : option V :=
  match d with
  | [] => None
  | (k', v) :: d' => if String.eqb k' k then Some v else dict_find d' k
  end.

Definition marks_template : list Z := [2; 2; 5; 5; 5; 10; 10; 10].

Definition generic_topics : list string :=
  ["the concepts covered"; "the key principles"; "the main topics"].

(** [while len(topics) < n: topics.extend(topics[:n - len(topics)])]; the
    list is not empty when the loop is reached, so it at least doubles or
    reaches [n] in each round and [fuel = n] rounds are never used up. *)
Fixpoint extend_topics (fuel : nat) (topics : list string) (n : nat)
    : list string :=
  if (length topics <? n)%nat then
    match fuel with
    | O => topics
    | S fuel' =>
        extend_topics fuel' (topics ++ firstn (n - length topics) topics) n
    end
  else topics.

Definition bloom_options (marks : Z) : list string :=
  if marks =? 2 then ["Remember"; "Understand"]
  else if marks =? 5 then ["Understand"; "Apply"]
  else ["Apply"; "Analyze"; "Evaluate"; "Create"].

(** The [for i, marks in enumerate(...)] loop, from index [i] on; [None]
    stands for an [IndexError] or [KeyError]. *)
Fixpoint make_questions (source : random_source) (unit_name : string)
    (topics : list string) (i : nat) (marks_list : list Z)
    : option (list draft) :=
  match marks_list with
  | [] => Some []
  | marks :: rest =>
      match nth_error topics i with
      | None => None
      | Some topic =>
          match random_choice (drawn source (2 * i)) (bloom_options marks) with
          | None => None
          | Some bloom_level =>
              match dict_find QUESTION_TEMPLATES bloom_level with
              | None => None
              | Some templates =>
                  match random_choice (drawn source (2 * i + 1)) templates with
                  | None => None
                  | Some template =>
                      let question_text := str_replace "{topic}" topic template in
                      match make_questions source unit_name topics (S i) rest with
                      | None => None
                      | Some questions =>
                          Some (mkDraft unit_name question_text marks bloom_level
                                :: questions)
                      end
                  end
              end
          end
      end
  end.

Definition generate_questions_for_unit (source : random_source)
    (unit_name : string) (topics : list string) : option (list draft) :=
  let topics := match topics with [] => generic_topics | _ => topics end in
  let marks_distribution := shuffled_marks source marks_template in
  let topics :=
    extend_topics (length marks_distribution) topics (length marks_distribution) in
  let topics := shuffled_topics source topics in
  make_questions source unit_name topics 0
                 (firstn (Nat.min (length topics) 10) marks_distribution).

(** [unit_counts[q['unit']] = unit_counts.get(q['unit'], 0) + 1] for every
    question, on a dict in insertion order. *)
Definition unit_counts (questions : list draft) : list (string * Z) :=
  fold_left (fun counts q => count_word counts (d_unit q)) questions [].

(** [max(values) if values else 0] and [min(values) if values else 0] *)
Definition max_or_zero (values : list Z) : Z :=
  match values with
  | [] => 0
  | v :: rest => fold_left Z.max rest v
  end.

Definition min_or_zero (values : list Z) : Z :=
  match values with
  | [] => 0
  | v :: rest => fold_left Z.min rest v
  end.

(** The drafts of [l] whose unit is [u]. *)
Definition of_unit (u : string) (l : list draft) : list draft :=
  List.filter (fun q => String.eqb (d_unit q) u) l.

Definition balance_question_distribution (questions : list draft)
    : list draft :=
  let counts := unit_counts questions in
  let max_per_unit := max_or_zero (map snd counts) in
  let min_per_unit := min_or_zero (map snd counts) in
  if min_per_unit * 2 <? max_per_unit then
    let target_per_unit := Z.max 8 (min_per_unit + 2) in
    flat_map (fun unit =>
                firstn (Z.to_nat target_per_unit) (of_unit unit questions))
             (map fst counts)
  else questions.

(** The [for unit_name, unit_text in units.items()] loop of
    [generate_questions_from_text]; [sources i] holds the draws made for the
    i-th unit. *)
Fixpoint generate_for_units (set_order : list string -> list string)
    (sources : nat -> random_source) (i : nat) (units : list (string * string))
    : option (list draft) :=
  match units with
  | [] => Some []
  | (unit_name, unit_text) :: rest =>
      let topics := extract_key_concepts set_order unit_text in
      match generate_questions_for_unit (sources i) unit_name topics with
      | None => None
      | Some unit_questions =>
          match generate_for_units set_order sources (S i) rest with
          | None => None
          | Some questions => Some (unit_questions ++ questions)
          end
      end
  end.

(** [generate_questions_from_text].  [extract_units_from_text] (of
    [pdf_processor.py]) is a parameter: the dict of units it returns, in
    insertion order. *)
Definition generate_questions_from_text
    (extract_units_from_text : string -> list (string * string))
    (set_order : list string -> list string)
    (sources : nat -> random_source) (text : string) : option (list draft) :=
  let units := extract_units_from_text text in
  let units := match units with [] => [("Unit 1", text)] | _ => units end in
  match generate_for_units set_order sources 0 units with
  | None => None
  | Some questions => Some (balance_question_distribution questions)
  end.

(** ** paper_generator.py *)

(** Exceptions raised by the modelled arithmetic. *)
Inductive exn := ZeroDivisionError | OverflowError.

(** How a run of the selection loop ends: normally, by an exception, or
    (in the model only) because the recursion budget [fuel] is used up. *)
Inductive status := Normal | Raises (e : exn) | NoFuel.

(** The value of a call of a loop-free function: returned, or an exception
    propagated to the caller. *)
Inductive result (A : Type) :=
| Val (a : A)
| Exc (e : exn).
Arguments Val {A} a.
Arguments Exc {A} e.

(** The value of a call of [generate_paper]; [Diverges] stands for a
    selection loop that did not finish within its fuel. *)
Inductive outcome (A : Type) :=
| Returned (a : A)
| Raised (e : exn)
| Diverges.
Arguments Returned {A} a.
Arguments Raised {A} e.
Arguments Diverges {A}.

(** The outcome of a call that ends with the call of a loop-free function. *)
Definition propagate {A : Type} (r : result A) : outcome A :=
  match r with
  | Val a => Returned a
  | Exc e => Raised e
  end.

(** *** binary64 arithmetic of the fallback and the validator

    [spec_float] with the operations of the Standard Library's
    specification of IEEE 754, at [prec = 53] and [emax = 1024]. *)

Definition binary64 : Type := spec_float.

(** The implicit conversion of an [int] operand to [float]: rounded to
    nearest, ties to even; [OverflowError] when the result would not be
    finite. *)
Definition int_to_float (z : Z) : result binary64 :=
  match binary_normalize prec emax z 0 false with
  | S754_infinity _ => Exc OverflowError
  | f => Val f
  end.

(** [z * c] for an [int] [z] and a [float] [c]: [float(z) * c]. *)
Definition int_times_float (z : Z) (c : binary64) : result binary64 :=
  match int_to_float z with
  | Val f => Val (SFmul prec emax f c)
  | Exc e => Exc e
  end.

(** Python compares an [int] with a [float] by value, without rounding the
    [int].  [None] is the unordered case (a NaN). *)
Definition int_compare_float (z : Z) (f : binary64) : option comparison :=
  match f with
  | S754_nan => None
  | S754_infinity s => Some (if s then Gt else Lt)
  | S754_zero _ => Some (z ?= 0)
  | S754_finite s m e =>
      let v := if s then Zneg m else Zpos m in
      Some (match e with
            | Zneg k => (z * 2 ^ Zpos k ?= v)
            | _ => (z ?= v * 2 ^ e)
            end)
  end.

(** [z <= f], [z < f] and [z > f] *)
Definition int_le_float (z : Z) (f : binary64) : bool :=
  match int_compare_float z f with
  | Some Lt | Some Eq => true
  | _ => false
  end.

Definition int_lt_float (z : Z) (f : binary64) : bool :=
  match int_compare_float z f with
  | Some Lt => true
  | _ => false
  end.

Definition int_gt_float (z : Z) (f : binary64) : bool :=
  match int_compare_float z f with
  | Some Gt => true
  | _ => false
  end.

(** The literals [1.1], [0.8] and [0.2]: the binary64 values nearest to
    them, 0x1.199999999999ap+0, 0x1.999999999999ap-1 and
    0x1.999999999999ap-3. *)
Definition float_1_1 : binary64 := S754_finite false 4953959590107546 (-52).
Definition float_0_8 : binary64 := S754_finite false 7205759403792794 (-53).
Definition float_0_2 : binary64 := S754_finite false 7205759403792794 (-55).

Definition Qlt_bool (x y : Q) : bool := negb (Qle_bool y x).

(** [a / b] on numbers: [ZeroDivisionError] when [b] is zero. *)
Definition true_div (a b : Q) : result Q :=
  if Qeq_bool b 0 then Exc ZeroDivisionError else Val (a / b)%Q.

(** [min(10, x)]: the first argument unless the second is smaller. *)
Definition min10 (x : Q) : Q := if Qlt_bool x 10 then x else 10%Q.

(** [max(3, x)]: the first argument unless the second is greater. *)
Definition max3 (x : Q) : Q := if Qlt_bool 3 x then x else 3%Q.

Definition len {A : Type} (l : list A) : Z := Z.of_nat (length l).

(** The two dict objects the caller passes to [generate_paper]. *)
Record store := mkStore {
  unit_distribution_obj : gmap string Z;
  bloom_distribution_obj : gmap string Z
}.

(** The variables of the selection loop.  [unit_distribution] is the
    caller's dict (mutated in place); [bloom_targets] is the local dict
    built from [bloom_distribution]. *)
Record loop_state := mkLoop {
  selected_questions : list question;
  remaining_marks : Z;
  attempts : Z;
  unit_distribution : gmap string Z;
  bloom_targets : gmap string Q
}.

Definition max_attempts : Z := 1000.

Definition criteria : Type := string * Z * string.

Definition criteria_eqb (a b : criteria) : bool :=
  let '(u1, m1, b1) := a in
  let '(u2, m2, b2) := b in
  String.eqb u1 u2 && (m1 =? m2) && String.eqb b1 b2.

Definition criteria_of (q : question) : criteria :=
  (q_unit q, q_marks q, q_bloom_level q).

(** [if key not in organized: organized[key] = []] followed by
    [organized[key].append(q)], on a dict in insertion order. *)
Fixpoint organized_append (organized : list (criteria * list question))
    (key : criteria) (q : question) : list (criteria * list question) :=
  match organized with
  | [] => [(key, [q])]
  | (k, l) :: rest =>
      if criteria_eqb k key then (k, l ++ [q]) :: rest
      else (k, l) :: organized_append rest key q
  end.

Definition organize_questions (questions : list question)
    : list (criteria * list question) :=
  fold_left (fun organized q => organized_append organized (criteria_of q) q)
            questions [].

Definition calculate_fitness_score (question : question)
    (unit_distribution : gmap string Z) (bloom_targets : gmap string Q)
    (remaining_marks : Z) : result Q :=
  let marks := inject_Z (q_marks question) in
  let after_unit (score : Q) : result Q :=
    match unit_distribution !! q_unit question with
    | Some unit_need =>
        if 0 <? unit_need then
          match true_div (inject_Z unit_need) marks with
          | Val r => Val (score + min10 r)%Q
          | Exc e => Exc e
          end
        else Val score
    | None => Val score
    end in
  let after_bloom (score : Q) : result Q :=
    match bloom_targets !! q_bloom_level question with
    | Some bloom_need =>
        if Qlt_bool 0 bloom_need then
          match true_div bloom_need marks with
          | Val r => Val (score + min10 r)%Q
          | Exc e => Exc e
          end
        else Val score
    | None => Val score
    end in
  match after_unit 0%Q with
  | Val s1 =>
      match after_bloom s1 with
      | Val s2 =>
          match true_div (inject_Z (Z.abs (remaining_marks - q_marks question)))
                         (inject_Z remaining_marks) with
          | Val d => Val (s2 + (1 - d) * 2)%Q
          | Exc e => Exc e
          end
      | Exc e => Exc e
      end
  | Exc e => Exc e
  end.

(** The body of the two nested [for] loops of [find_best_candidate], over
    the questions in the order the loops visit them. *)
Fixpoint collect_candidates (visited : list question) (selected_ids : list Z)
    (remaining_marks : Z) (unit_distribution : gmap string Z)
    (bloom_targets : gmap string Q) : result (list (Q * question)) :=
  match visited with
  | [] => Val []
  | q :: rest =>
      if existsb (Z.eqb (q_id q)) selected_ids then
        collect_candidates rest selected_ids remaining_marks
                           unit_distribution bloom_targets
      else if remaining_marks <? q_marks q then
        collect_candidates rest selected_ids remaining_marks
                           unit_distribution bloom_targets
      else
        match calculate_fitness_score q unit_distribution bloom_targets
                                      remaining_marks with
        | Val score =>
            match collect_candidates rest selected_ids remaining_marks
                                     unit_distribution bloom_targets with
            | Val candidates => Val ((score, q) :: candidates)
            | Exc e => Exc e
            end
        | Exc e => Exc e
        end
  end.

(** [candidates.sort(key=lambda x: x[0], reverse=True)]: a stable sort by
    descending score (equal scores keep their order). *)
Fixpoint insert_desc (x : Q * question) (l : list (Q * question))
    : list (Q * question) :=
  match l with
  | [] => [x]
  | y :: l' =>
      if Qlt_bool (fst x) (fst y) then y :: insert_desc x l' else x :: y :: l'
  end.

Definition sort_desc (l : list (Q * question)) : list (Q * question) :=
  fold_right insert_desc [] l.

Definition find_best_candidate
    (questions_by_criteria : list (criteria * list question))
    (selected : list question) (remaining_marks : Z)
    (unit_distribution : gmap string Z) (bloom_targets : gmap string Q)
    (remaining_count : Z) : result (option question) :=
  let selected_ids := map q_id selected in
  match collect_candidates (flat_map snd questions_by_criteria) selected_ids
                           remaining_marks unit_distribution bloom_targets with
  | Val candidates =>
      match sort_desc candidates with
      | [] => Val None
      | best :: _ => Val (Some (snd best))
      end
  | Exc e => Exc e
  end.

(** [if k in d: d[k] -= marks] *)
Definition decrement_unit (d : gmap string Z) (q : question) : gmap string Z :=
  match d !! q_unit q with
  | Some v => <[q_unit q := v - q_marks q]> d
  | None => d
  end.

Definition decrement_bloom (d : gmap string Q) (q : question) : gmap string Q :=
  match d !! q_bloom_level q with
  | Some v => <[q_bloom_level q := (v - inject_Z (q_marks q))%Q]> d
  | None => d
  end.

(** [len(selected_questions) < num_questions and remaining_marks > 0 and
    attempts < max_attempts] *)
Definition loop_test (num_questions : Z) (st : loop_state) : bool :=
  (len (selected_questions st) <? num_questions)
  && (0 <? remaining_marks st)
  && (attempts st <? max_attempts).

Definition count_attempt (st : loop_state) : loop_state :=
  mkLoop (selected_questions st) (remaining_marks st) (attempts st + 1)
         (unit_distribution st) (bloom_targets st).

Definition select (st : loop_state) (candidate : question) : loop_state :=
  mkLoop (selected_questions st ++ [candidate])
         (remaining_marks st - q_marks candidate)
         (attempts st)
         (decrement_unit (unit_distribution st) candidate)
         (decrement_bloom (bloom_targets st) candidate).

(** The [while] loop of [generate_paper]; [fuel] bounds the number of
    iterations the model unfolds. *)
Fixpoint selection_loop (fuel : nat)
    (questions_by_criteria : list (criteria * list question))
    (num_questions : Z) (st : loop_state) : loop_state * status :=
  if loop_test num_questions st then
    match fuel with
    | O => (st, NoFuel)
    | S fuel' =>
        let st1 := count_attempt st in
        match find_best_candidate questions_by_criteria
                (selected_questions st1) (remaining_marks st1)
                (unit_distribution st1) (bloom_targets st1)
                (num_questions - len (selected_questions st1)) with
        | Val (Some candidate) =>
            selection_loop fuel' questions_by_criteria num_questions
                           (select st1 candidate)
        | Val None => (st1, Normal)
        | Exc e => (st1, Raises e)
        end
    end
  else (st, Normal).

(** [generate_paper_relaxed]: the [for] loop over the shuffled copy.  The
    test [total + q['marks'] <= target_marks * 1.1] compares an [int] with
    a binary64 product. *)
Fixpoint relaxed_loop (available : list question) (target_marks target_count : Z)
    (selected : list question) (total : Z) : result (list question) :=
  match available with
  | [] => Val selected
  | q :: rest =>
      if target_count <=? len selected then Val selected
      else
        match int_times_float target_marks float_1_1 with
        | Val bound =>
            if int_le_float (total + q_marks q) bound then
              relaxed_loop rest target_marks target_count
                           (selected ++ [q]) (total + q_marks q)
            else relaxed_loop rest target_marks target_count selected total
        | Exc e => Exc e
        end
  end.

(** [shuffle] is the permutation [random.shuffle] applies to the copy of
    the pool. *)
Definition generate_paper_relaxed (shuffle : list question -> list question)
    (questions : list question) (target_marks target_count : Z)
    : result (option (list question)) :=
  let available := shuffle questions in
  match relaxed_loop available target_marks target_count [] 0 with
  | Val selected => Val (if 3 <=? len selected then Some selected else None)
  | Exc e => Exc e
  end.

(** [bloom_targets[level] = (percentage / 100) * total_marks] *)
Definition initial_bloom_targets (bloom_distribution : gmap string Z)
    (total_marks : Z) : gmap string Q :=
  (fun percentage : Z => (inject_Z percentage / 100 * inject_Z total_marks)%Q)
    <$> bloom_distribution.

Definition initial_state (total_marks : Z) (caller : store) : loop_state :=
  mkLoop [] total_marks 0 (unit_distribution_obj caller)
         (initial_bloom_targets (bloom_distribution_obj caller) total_marks).

(** [len(selected_questions) >= max(3, num_questions * 0.7)] *)
Definition acceptable (selected : list question) (num_questions : Z) : bool :=
  Qle_bool (max3 (inject_Z num_questions * (7 # 10))) (inject_Z (len selected)).

(** The selection loop as [generate_paper] runs it on the pool
    [all_questions]. *)
Definition primary_selection (fuel : nat) (all_questions : list question)
    (total_marks num_questions : Z) (caller : store) : loop_state * status :=
  selection_loop fuel (organize_questions all_questions) num_questions
                 (initial_state total_marks caller).

(** [generate_paper], with [all_questions] the rows returned by
    [get_questions_by_filters()].  The result pairs the value of the call
    with the caller's two dicts as the call leaves them. *)
Definition generate_paper_fuel (fuel : nat)
    (shuffle : list question -> list question)
    (all_questions : list question) (total_marks num_questions : Z)
    (caller : store) : outcome (option (list question)) * store :=
  match all_questions with
  | [] => (Returned None, caller)
  | _ :: _ =>
      let '(st, how) :=
        primary_selection fuel all_questions total_marks num_questions caller in
      let caller' :=
        mkStore (unit_distribution st) (bloom_distribution_obj caller) in
      match how with
      | Normal =>
          if acceptable (selected_questions st) num_questions then
            (Returned (Some (selected_questions st)), caller')
          else
            (propagate (generate_paper_relaxed shuffle all_questions
                                               total_marks num_questions),
             caller')
      | Raises e => (Raised e, caller')
      | NoFuel => (Diverges, caller')
      end
  end.

Definition generate_paper := generate_paper_fuel (Z.to_nat max_attempts).

(** ** database.py and app.py: editing the current paper *)

(** Truth value of an optional filter argument: [None], the empty string
    and zero are false. *)
Definition truthy_str (o : option string) : bool :=
  match o with
  | Some s => negb (String.eqb s "")
  | None => false
  end.

Definition truthy_int (o : option Z) : bool :=
  match o with
  | Some z => negb (z =? 0)
  | None => false
  end.

Definition matches_str (o : option string) (field : string) : bool :=
  if truthy_str o then
    match o with Some s => String.eqb field s | None => true end
  else true.

Definition matches_int (o : option Z) (field : Z) : bool :=
  if truthy_int o then
    match o with Some z => field =? z | None => true end
  else true.

(** [SELECT * FROM questions WHERE 1=1 [AND unit = ?] [AND bloom_level = ?]
    [AND difficulty = ?] [AND marks = ?]] over the rows of the table. *)
Definition get_questions_by_filters (table : list question)
    (unit bloom_level difficulty : option string) (marks : option Z)
    : list question :=
  List.filter (fun q =>
            matches_str unit (q_unit q)
            && matches_str bloom_level (q_bloom_level q)
            && matches_str difficulty (q_difficulty q)
            && matches_int marks (q_marks q)) table.

(** The JSON answers of the two routes: [{'success': True}] (with the
    replacement for [replace_question]) or [{'error': message}] with its
    HTTP status. *)
Inductive response :=
| Success (replacement : option question)
| Error (message : string) (code : Z).

(** [for i, q in enumerate(paper_questions): if q['id'] == question_id:
    paper_questions[i] = replacement; break] *)
Fixpoint replace_first (paper_questions : list question) (question_id : Z)
    (replacement : question) : list question :=
  match paper_questions with
  | [] => []
  | q :: rest =>
      if q_id q =? question_id then replacement :: rest
      else q :: replace_first rest question_id replacement
  end.

(** [replace_question]: the answer and the content of the session file
    afterwards, from the table and the content of the session file. *)
Definition replace_question (table : list question)
    (paper_questions : list question) (question_id : Z)
    : response * list question :=
  match List.find (fun q => q_id q =? question_id) paper_questions with
  | None => (Error "Question not found" 404, paper_questions)
  | Some question_to_replace =>
      let alternatives :=
        get_questions_by_filters table
          (Some (q_unit question_to_replace))
          (Some (q_bloom_level question_to_replace))
          None
          (Some (q_marks question_to_replace)) in
      let selected_ids := map q_id paper_questions in
      let alternatives :=
        List.filter (fun q => negb (existsb (Z.eqb (q_id q)) selected_ids))
                    alternatives in
      match alternatives with
      | [] => (Error "No alternative questions available" 400, paper_questions)
      | replacement :: _ =>
          (Success (Some replacement),
           replace_first paper_questions question_id replacement)
      end
  end.

(** [remove_question]: the answer and the content of the session file
    afterwards. *)
Definition remove_question (paper_questions : list question) (question_id : Z)
    : response * list question :=
  (Success None,
   List.filter (fun q => negb (q_id q =? question_id)) paper_questions).

(** [get_question_by_id]: [SELECT * FROM questions WHERE id = ?] and
    [fetchone()]. *)
Definition get_question_by_id (table : list question) (question_id : Z)
    : option question :=
  List.find (fun q => q_id q =? question_id) table.

(** [delete_question]: the table after [DELETE FROM questions WHERE id = ?]. *)
Definition delete_question (table : list question) (question_id : Z)
    : list question :=
  List.filter (fun q => negb (q_id q =? question_id)) table.

(** [filename.rsplit('.', 1)[1]]: what follows the last dot; [None] when the
    name has no dot (the list returned by [rsplit] then has one element). *)
Fixpoint after_last_dot (filename : string) : option string :=
  match filename with
  | EmptyString => None
  | String c rest =>
      match after_last_dot rest with
      | Some extension => Some extension
      | None => if Ascii.eqb c "." then Some rest else None
      end
  end.

Definition ALLOWED_EXTENSIONS : list string := ["pdf"].

(** [allowed_file]: ['.' in filename and
    filename.rsplit('.', 1)[1].lower() in ALLOWED_EXTENSIONS] *)
Definition allowed_file (filename : string) : bool :=
  contains "." filename
  && match after_last_dot filename with
     | Some extension =>
         existsb (String.eqb (lower extension)) ALLOWED_EXTENSIONS
     | None => false
     end.

(** ** Vocabulary of the statements *)

Fixpoint total_marks_of (l : list question) : Z :=
  match l with
  | [] => 0
  | q :: l' => q_marks q + total_marks_of l'
  end.

(** Every question of [l], taken in order from a budget of [remaining]
    marks, costs no more than what is left when its turn comes. *)
Fixpoint budget_respected (remaining : Z) (l : list question) : Prop :=
  match l with
  | [] => True
  | q :: l' => q_marks q <= remaining /\ budget_respected (remaining - q_marks q) l'
  end.

(** The record [mrs] after [n] right shifts of the non-negative mantissa
    [m]: the quotient, the round bit and the sticky bit, with [t] the bits
    below the round bit. *)
Definition shifted (m n : Z) (mrs : shr_record) : Prop :=
  exists t : Z,
    0 <= shr_m mrs
    /\ m = shr_m mrs * 2 ^ n + (if shr_r mrs then 2 ^ (n - 1) else 0) + t
    /\ 0 <= t /\ 2 * t < 2 ^ n
    /\ (shr_s mrs = true <-> t <> 0)
    /\ (n = 0 -> shr_r mrs = false).

(** Every question of [l], added in order to a running [total], keeps the
    total within the float [bound]. *)
Fixpoint within_bound (bound : binary64) (total : Z) (l : list question) : Prop :=
  match l with
  | [] => True
  | q :: l' =>
      int_le_float (total + q_marks q) bound = true
      /\ within_bound bound (total + q_marks q) l'
  end.

(** Every question of [l], added in order to a running [total], keeps the
    total within 1.1 times [target_marks]. *)
Fixpoint within_overage (target_marks total : Z) (l : list question) : Prop :=
  match l with
  | [] => True
  | q :: l' =>
      10 * (total + q_marks q) <= 11 * target_marks
      /\ within_overage target_marks (total + q_marks q) l'
  end.

(** [organized.get(key, [])] on the dict built by [organize_questions]. *)
Fixpoint group_of (key : criteria) (organized : list (criteria * list question))
    : list question :=
  match organized with
  | [] => []
  | (k, l) :: rest => if criteria_eqb k key then l else group_of key rest
  end.

(** The questions of [l] whose unit is [u]. *)
Definition in_unit (u : string) (l : list question) : list question :=
  List.filter (fun q => String.eqb (q_unit q) u) l.

(** A pattern that consumes at least one character whenever it matches. *)
Definition consuming (pattern : attempt) : Prop :=
  forall before s matched captured rest,
    pattern before s = Some (matched, captured, rest) ->
    (String.length rest < String.length s)%nat.

(** What the decrement of a percentage map at a question's level would be,
    were [bloom_distribution] itself updated on selection. *)
Definition decrement_percentage (d : gmap string Z) (q : question) : gmap string Z :=
  match d !! q_bloom_level q with
  | Some v => <[q_bloom_level q := v - q_marks q]> d
  | None => d
  end.

(** ** paper_generator.py: validate_paper_constraints *)

(** [len(set(l))]: the number of distinct elements. *)
Definition count_distinct (l : list string) : nat := length (first_seen l).

(** [validate_paper_constraints]: the pair [(is_valid, issues)].  The two
    thresholds [num_questions * 0.8] and [total_marks * 0.2] are binary64
    products; integers are formatted in decimal. *)
Definition validate_paper_constraints (questions : list question)
    (total_marks num_questions : Z) : result (bool * list string) :=
  let issues : list string := [] in
  match int_times_float num_questions float_0_8 with
  | Exc e => Exc e
  | Val least =>
      let issues :=
        if int_lt_float (len questions) least
        then issues ++ [("Only " ++ pretty (len questions)
                         ++ " questions generated (target: "
                         ++ pretty num_questions ++ ")")%string]
        else issues in
      let actual_marks := total_marks_of questions in
      match int_times_float total_marks float_0_2 with
      | Exc e => Exc e
      | Val tolerance =>
          let issues :=
            if int_gt_float (Z.abs (actual_marks - total_marks)) tolerance
            then issues ++ [("Total marks " ++ pretty actual_marks
                             ++ " differs significantly from target "
                             ++ pretty total_marks)%string]
            else issues in
          let question_texts := map q_text questions in
          let issues :=
            if negb (length question_texts =? count_distinct question_texts)%nat
            then issues ++ ["Duplicate questions detected"]
            else issues in
          Val (match issues with [] => true | _ => false end, issues)
      end
  end.

(** ** Sample data *)

Definition sample_question (id : Z) (unit : string) (marks : Z) : question :=
  mkQuestion id unit "Explain the concept of Data Structures." marks
             "Understand" "Medium".

(** Ten questions of 10 marks, five in each of two units. *)
Definition sample_pool : list question :=
  [sample_question 1 "Unit 1" 10; sample_question 2 "Unit 1" 10;
   sample_question 3 "Unit 1" 10; sample_question 4 "Unit 1" 10;
   sample_question 5 "Unit 1" 10; sample_question 6 "Unit 2" 10;
   sample_question 7 "Unit 2" 10; sample_question 8 "Unit 2" 10;
   sample_question 9 "Unit 2" 10; sample_question 10 "Unit 2" 10].

Definition sample_caller : store :=
  mkStore (<["Unit 1" := 25]> (<["Unit 2" := 25]> ∅))
          (<["Understand" := 50]> ∅).

(** Three questions of 5 marks in one unit. *)
Definition small_pool : list question :=
  [sample_question 1 "Unit 1" 5; sample_question 2 "Unit 1" 5;
   sample_question 3 "Unit 1" 5].

Definition small_caller : store :=
  mkStore (<["Unit 1" := 15]> ∅) (<["Understand" := 100]> ∅).

(** A table of five questions; the first three make up the paper
    [small_pool]. *)
Definition small_table : list question :=
  small_pool ++ [sample_question 4 "Unit 1" 5; sample_question 5 "Unit 2" 5].

(** Three questions whose marks add up to 110000000000000010. *)
Definition heavy_pool : list question :=
  [sample_question 1 "Unit 1" 100000000000000000;
   sample_question 2 "Unit 1" 10000000000000000;
   sample_question 3 "Unit 1" 10].



(** Three questions with different texts. *)
Definition worded_pool : list question :=
  [mkQuestion 1 "Unit 1" "Define Stack." 5 "Remember" "Easy";
   mkQuestion 2 "Unit 1" "Explain Queue." 5 "Understand" "Easy";
   mkQuestion 3 "Unit 2" "Apply Tree traversal." 5 "Apply" "Medium"].

(** ** Properties *)

Lemma marks_score_cases (marks : Z) :
  marks_score marks = 1 \/ marks_score marks = 2 \/ marks_score marks = 3.
Proof.
  unfold marks_score.
  destruct (marks <=? 2); [now left|].
  destruct (marks <=? 5); [right; now left | right; now right].
Qed.

(** C7.  For each of the six levels and every integer marks the difficulty
    the code computes in binary64 is the one given by
    combined = 0.6 * bloom_weight + 0.4 * marks_tier over exact rationals
    with the thresholds 2.5 and 4.5; (Remember, 1) is Easy, (Create, 10) is
    Hard and (Apply, 5) is Medium. *)
Theorem determine_difficulty_spec :
  (forall (b : bloom) (marks : Z),
      determine_difficulty (bloom_name b) marks = difficulty_spec b marks)
  /\ determine_difficulty "Remember" 1 = Easy
  /\ determine_difficulty "Create" 10 = Hard
  /\ determine_difficulty "Apply" 5 = Medium.
Proof.
  split; [|repeat split; reflexivity].
  intros b marks.
  unfold determine_difficulty, difficulty_spec, combined_score, combined_spec.
  change (marks_tier marks) with (marks_score marks).
  destruct (marks_score_cases marks) as [H | [H | H]];
    rewrite H; destruct b; reflexivity.
Qed.

(** *** The candidate search *)

Lemma existsb_eqb_false (x : Z) (ids : list Z) :
  existsb (Z.eqb x) ids = false -> x ∉ ids.
Proof.
  intros H Hin. apply list_elem_of_In in Hin.
  assert (existsb (Z.eqb x) ids = true) as Ht.
  { apply existsb_exists. exists x. split; [exact Hin | apply Z.eqb_refl]. }
  congruence.
Qed.

Lemma collect_candidates_sound visited ids rem ud bt cs :
  collect_candidates visited ids rem ud bt = Val cs ->
  forall sq, sq ∈ cs ->
    (snd sq ∈ visited) /\ (q_id (snd sq) ∉ ids) /\ q_marks (snd sq) <= rem.
Proof.
  revert cs. induction visited as [|q rest IH]; intros cs H sq Hin; simpl in H.
  - inversion H; subst. inversion Hin.
  - destruct (existsb (Z.eqb (q_id q)) ids) eqn:Hsel.
    { destruct (IH _ H _ Hin) as (? & ? & ?). repeat split; auto. now right. }
    destruct (rem <? q_marks q) eqn:Hfit.
    { destruct (IH _ H _ Hin) as (? & ? & ?). repeat split; auto. now right. }
    destruct (calculate_fitness_score q ud bt rem) as [score|e]; [|discriminate].
    destruct (collect_candidates rest ids rem ud bt) as [cs'|e]; [|discriminate].
    inversion H; subst; clear H.
    apply elem_of_cons in Hin as [-> | Hin].
    + simpl. repeat split.
      * now left.
      * now apply existsb_eqb_false.
      * apply Z.ltb_ge in Hfit. exact Hfit.
    + destruct (IH _ eq_refl _ Hin) as (? & ? & ?). repeat split; auto. now right.
Qed.

Lemma insert_desc_elem x l y : (y ∈ insert_desc x l) <-> (y = x \/ y ∈ l).
Proof.
  induction l as [|z l IH]; simpl.
  - rewrite list_elem_of_singleton. split; [now left | intros [?|H]; [easy | inversion H]].
  - destruct (Qlt_bool (fst x) (fst z)).
    + rewrite !elem_of_cons, IH. tauto.
    + rewrite !elem_of_cons. tauto.
Qed.

Lemma sort_desc_elem l y : (y ∈ sort_desc l) <-> (y ∈ l).
Proof.
  induction l as [|x l IH]; simpl; [tauto|].
  rewrite insert_desc_elem, elem_of_cons, IH. tauto.
Qed.

Lemma find_best_candidate_sound qbc selected rem ud bt rc c :
  find_best_candidate qbc selected rem ud bt rc = Val (Some c) ->
  (c ∈ flat_map snd qbc) /\ (q_id c ∉ map q_id selected) /\ q_marks c <= rem.
Proof.
  unfold find_best_candidate.
  destruct (collect_candidates _ _ _ _ _) as [cs|e] eqn:Hc; [|discriminate].
  destruct (sort_desc cs) as [|best l] eqn:Hs; [discriminate|].
  intros H. inversion H; subst; clear H.
  apply (collect_candidates_sound _ _ _ _ _ _ Hc).
  apply sort_desc_elem. rewrite Hs. now left.
Qed.

(** *** The selection loop *)

Lemma total_marks_of_app l1 l2 :
  total_marks_of (l1 ++ l2) = total_marks_of l1 + total_marks_of l2.
Proof. induction l1 as [|q l1 IH]; simpl; lia. Qed.

Lemma selection_loop_trace fuel qbc n st st' how :
  selection_loop fuel qbc n st = (st', how) ->
  exists new,
    selected_questions st' = selected_questions st ++ new
    /\ remaining_marks st' = remaining_marks st - total_marks_of new
    /\ budget_respected (remaining_marks st) new
    /\ unit_distribution st' = fold_left decrement_unit new (unit_distribution st)
    /\ bloom_targets st' = fold_left decrement_bloom new (bloom_targets st)
    /\ (NoDup (map q_id (selected_questions st)) ->
        NoDup (map q_id (selected_questions st')))
    /\ (forall c, c ∈ new -> c ∈ flat_map snd qbc).
Proof.
  revert st. induction fuel as [|fuel IH]; intros st H; simpl in H.
  - exists []. destruct (loop_test n st); inversion H; subst; clear H;
      rewrite app_nil_r; simpl; repeat split; auto; try lia;
      intros c Hc; inversion Hc.
  - destruct (loop_test n st).
    2:{ exists []. inversion H; subst; clear H.
        rewrite app_nil_r; simpl; repeat split; auto; try lia.
        intros c Hc; inversion Hc. }
    destruct (find_best_candidate _ _ _ _ _ _) as [[c|]|e] eqn:Hf.
    + apply find_best_candidate_sound in Hf as (Hpool & Hfresh & Hfit).
      simpl in Hfresh, Hfit.
      destruct (IH _ H) as (new & Hsel & Hrem & Hbud & Hud & Hbt & Hnd & Hin).
      simpl in *.
      exists (c :: new). simpl. repeat split.
      * rewrite Hsel, <- app_assoc. reflexivity.
      * lia.
      * exact Hfit.
      * exact Hbud.
      * exact Hud.
      * exact Hbt.
      * intros Hn. apply Hnd. rewrite map_app. simpl.
        apply NoDup_app. repeat split; [exact Hn | | apply NoDup_singleton].
        intros x Hx Hx'. apply list_elem_of_singleton in Hx'. subst x. auto.
      * intros c' Hc'. apply elem_of_cons in Hc' as [-> | Hc']; auto.
    + exists []. inversion H; subst; clear H.
      rewrite app_nil_r; simpl; repeat split; auto; try lia.
      intros c Hc; inversion Hc.
    + exists []. inversion H; subst; clear H.
      rewrite app_nil_r; simpl; repeat split; auto; try lia.
      intros c Hc; inversion Hc.
Qed.

(** Each iteration adds one to [attempts]; the loop never runs the counter
    past [max_attempts], and never needs more fuel than what separates the
    counter from it. *)
Lemma selection_loop_attempts fuel qbc n st st' how :
  selection_loop fuel qbc n st = (st', how) ->
  attempts st <= attempts st'
  /\ attempts st' - attempts st <= Z.of_nat fuel
  /\ (attempts st <= max_attempts -> attempts st' <= max_attempts).
Proof.
  revert st. induction fuel as [|fuel IH]; intros st H; simpl in H.
  - destruct (loop_test n st); inversion H; subst; lia.
  - destruct (loop_test n st) eqn:Ht; [|inversion H; subst; lia].
    unfold loop_test in Ht. apply andb_prop in Ht as [_ Ht].
    apply Z.ltb_lt in Ht.
    destruct (find_best_candidate _ _ _ _ _ _) as [[c|]|e].
    + apply IH in H. simpl in H. lia.
    + inversion H; subst; simpl; lia.
    + inversion H; subst; simpl; lia.
Qed.

Lemma selection_loop_enough_fuel fuel qbc n st :
  max_attempts - attempts st <= Z.of_nat fuel ->
  snd (selection_loop fuel qbc n st) <> NoFuel.
Proof.
  revert st. induction fuel as [|fuel IH]; intros st Hf; simpl.
  - destruct (loop_test n st) eqn:Ht; [|simpl; discriminate].
    unfold loop_test in Ht. apply andb_prop in Ht as [_ Ht].
    apply Z.ltb_lt in Ht. simpl in Hf. lia.
  - destruct (loop_test n st) eqn:Ht; [|simpl; discriminate].
    destruct (find_best_candidate _ _ _ _ _ _) as [[c|]|e];
      [|simpl; discriminate|simpl; discriminate].
    apply IH. simpl. lia.
Qed.

Lemma selection_loop_more_fuel fuel k qbc n st :
  snd (selection_loop fuel qbc n st) <> NoFuel ->
  selection_loop (fuel + k) qbc n st = selection_loop fuel qbc n st.
Proof.
  revert st. induction fuel as [|fuel IH]; intros st H; simpl in *.
  - destruct (loop_test n st) eqn:E; [simpl in H; congruence|].
    destruct k; simpl; rewrite E; reflexivity.
  - destruct (loop_test n st); [|reflexivity].
    destruct (find_best_candidate _ _ _ _ _ _) as [[c|]|e]; auto.
Qed.

(** The two nested loops of [find_best_candidate] visit every question of
    the pool exactly once. *)
Lemma organized_append_flat organized key q :
  flat_map snd (organized_append organized key q)
  ≡ₚ flat_map snd organized ++ [q].
Proof.
  induction organized as [|[k l] rest IH]; simpl; [reflexivity|].
  destruct (criteria_eqb k key); simpl.
  - rewrite <- !app_assoc. apply Permutation_app_head, Permutation_app_comm.
  - rewrite IH, app_assoc. reflexivity.
Qed.

Lemma organize_questions_flat questions :
  flat_map snd (organize_questions questions) ≡ₚ questions.
Proof.
  unfold organize_questions.
  enough (forall organized,
             flat_map snd
               (fold_left (fun o q => organized_append o (criteria_of q) q)
                          questions organized)
             ≡ₚ flat_map snd organized ++ questions) as H by apply (H []).
  induction questions as [|q qs IH]; intros organized; simpl.
  - rewrite app_nil_r. reflexivity.
  - rewrite IH, organized_append_flat, <- app_assoc. reflexivity.
Qed.

(** The loop runs one iteration per selected question, plus at most one
    final iteration that finds no candidate. *)
Lemma selection_loop_iterations fuel qbc n st st' how :
  selection_loop fuel qbc n st = (st', how) ->
  attempts st' - attempts st
  <= len (selected_questions st') - len (selected_questions st) + 1.
Proof.
  revert st. induction fuel as [|fuel IH]; intros st H; simpl in H.
  - destruct (loop_test n st); inversion H; subst; lia.
  - destruct (loop_test n st); [|inversion H; subst; lia].
    destruct (find_best_candidate _ _ _ _ _ _) as [[c|]|e].
    + apply IH in H. simpl in H. unfold len in *.
      rewrite length_app in H. simpl in H. lia.
    + inversion H; subst; simpl; lia.
    + inversion H; subst; simpl; lia.
Qed.

Lemma primary_selection_trace fuel pool tm nq caller st how :
  primary_selection fuel pool tm nq caller = (st, how) ->
  budget_respected tm (selected_questions st)
  /\ remaining_marks st = tm - total_marks_of (selected_questions st)
  /\ unit_distribution st
     = fold_left decrement_unit (selected_questions st)
                 (unit_distribution_obj caller)
  /\ bloom_targets st
     = fold_left decrement_bloom (selected_questions st)
                 (initial_bloom_targets (bloom_distribution_obj caller) tm)
  /\ NoDup (map q_id (selected_questions st))
  /\ (forall c, c ∈ selected_questions st -> c ∈ pool).
Proof.
  unfold primary_selection. intros H.
  apply selection_loop_trace in H
    as (new & Hsel & Hrem & Hbud & Hud & Hbt & Hnd & Hin).
  simpl in *. subst new. repeat split; auto.
  - apply Hnd. constructor.
  - intros c Hc. rewrite <- (organize_questions_flat pool). auto.
Qed.

Lemma primary_selection_size fuel pool tm nq caller st how :
  primary_selection fuel pool tm nq caller = (st, how) ->
  (length (selected_questions st) <= length pool)%nat.
Proof.
  intros H. apply primary_selection_trace in H as (_ & _ & _ & _ & Hnd & Hin).
  assert (NoDup (selected_questions st)) as Hnd'.
  { change (map q_id (selected_questions st))
      with (q_id <$> selected_questions st) in Hnd.
    eapply NoDup_fmap_1. exact Hnd. }
  apply submseteq_length, NoDup_submseteq; auto.
Qed.

(** *** binary64: the product of an int and a float literal *)

(** The literals are those the parser of floats yields. *)
Lemma float_literals :
  Prim2SF 0x1.199999999999ap+0%float = float_1_1
  /\ Prim2SF 0x1.999999999999ap-1%float = float_0_8
  /\ Prim2SF 0x1.999999999999ap-3%float = float_0_2.
Proof. repeat split; vm_compute; reflexivity. Qed.

Lemma iter_pos_iter {A : Type} (f : A -> A) (p : positive) (x : A) :
  SpecFloat.iter_pos f p x = Pos.iter f x p.
Proof.
  revert x. induction p as [p IH|p IH|]; intros x; simpl.
  - rewrite !IH. rewrite <- !Pos.iter_swap. reflexivity.
  - rewrite !IH. reflexivity.
  - reflexivity.
Qed.

Lemma shr_1_nonneg (m : Z) (r s : bool) :
  0 <= m ->
  shr_1 (Build_shr_record m r s)
  = Build_shr_record (m / 2) (Z.odd m) (r || s).
Proof.
  intros Hm. destruct m as [|[p|p|]|p]; try lia; simpl; try reflexivity.
  - f_equal. rewrite Pos2Z.inj_xI. apply Z.div_unique with 1; lia.
  - f_equal. rewrite Pos2Z.inj_xO. apply Z.div_unique with 0; lia.
Qed.

Lemma shifted_start (m : Z) : 0 <= m -> shifted m 0 (Build_shr_record m false false).
Proof.
  intros Hm. exists 0. simpl. repeat split; try lia; try congruence.
Qed.

Lemma shifted_step (m n : Z) (mrs : shr_record) :
  0 <= n -> shifted m n mrs -> shifted m (n + 1) (shr_1 mrs).
Proof.
  intros Hn (t & Hq & Hm & Ht0 & Ht & Hs & Hr).
  destruct mrs as [q r s]. cbn [shr_m shr_r shr_s] in *.
  rewrite shr_1_nonneg by exact Hq.
  exists ((if r then 2 ^ (n - 1) else 0) + t). cbn [shr_m shr_r shr_s].
  replace (n + 1 - 1) with n by lia.
  assert (2 ^ (n + 1) = 2 * 2 ^ n) as Hp by (rewrite Z.pow_add_r; lia).
  assert (0 < 2 ^ n) as Hpos by (apply Z.pow_pos_nonneg; lia).
  assert (q = 2 * (q / 2) + (if Z.odd q then 1 else 0)) as Hq2.
  { rewrite (Z.div_mod q 2) at 1 by lia. rewrite Zmod_odd. reflexivity. }
  assert (n = 0 \/ 0 < n) as [->|Hn1] by lia.
  - rewrite (Hr eq_refl) in *. change (2 ^ 0) with 1 in *.
    change (2 ^ (0 + 1)) with 2 in *. cbn [orb] in *.
    assert (t = 0) as -> by lia.
    split; [apply Z.div_pos; lia|].
    split; [destruct (Z.odd q); lia|].
    split; [lia|]. split; [lia|]. split; [|lia].
    split; [intros H; apply Hs in H; lia|lia].
  - assert (2 ^ n = 2 * 2 ^ (n - 1)) as Hp1.
    { replace n with (n - 1 + 1) at 1 by lia. rewrite Z.pow_add_r; lia. }
    assert (0 < 2 ^ (n - 1)) as Hpos1 by (apply Z.pow_pos_nonneg; lia).
    split; [apply Z.div_pos; lia|].
    split; [destruct (Z.odd q); destruct r; nia|].
    split; [destruct r; lia|]. split; [destruct r; lia|]. split; [|lia].
    destruct r; simpl.
    + split; [lia|reflexivity].
    + rewrite Hs. split; lia.
Qed.

Lemma shifted_iter (m : Z) (p : positive) :
  0 <= m ->
  shifted m (Zpos p) (SpecFloat.iter_pos shr_1 p (Build_shr_record m false false)).
Proof.
  intros Hm. rewrite iter_pos_iter.
  induction p as [|p IH] using Pos.peano_ind.
  - change (Pos.iter shr_1 (Build_shr_record m false false) 1)
      with (shr_1 (Build_shr_record m false false)).
    apply (shifted_step m 0); [lia|]. now apply shifted_start.
  - rewrite Pos.iter_succ, Pos2Z.inj_succ. apply shifted_step; [lia|exact IH].
Qed.

Lemma digits2_pos_size (p : positive) : digits2_pos p = Pos.size p.
Proof. induction p; simpl; congruence. Qed.

Lemma Zdigits2_bounds (m : Z) :
  0 < m -> 2 ^ (Zdigits2 m - 1) <= m < 2 ^ Zdigits2 m.
Proof.
  intros Hm. destruct m as [|p|p]; try lia. unfold Zdigits2.
  rewrite digits2_pos_size.
  assert (Zpos (Pos.size p) = Z.succ (Z.log2 (Zpos p))) as Hs.
  { destruct p; simpl; try reflexivity; rewrite Pos2Z.inj_succ; reflexivity. }
  rewrite Hs.
  replace (Z.succ (Z.log2 (Z.pos p)) - 1) with (Z.log2 (Zpos p)) by lia.
  apply Z.log2_spec. lia.
Qed.

Lemma Zdigits2_unique (m d : Z) :
  0 < m -> 2 ^ (d - 1) <= m < 2 ^ d -> Zdigits2 m = d.
Proof.
  intros Hm Hd. pose proof (Zdigits2_bounds m Hm) as Hb.
  assert (0 < Zdigits2 m) by (destruct m; simpl; lia).
  assert (0 < d).
  { destruct (Z.ltb_spec 0 d); [assumption|].
    exfalso. rewrite (Z.pow_neg_r 2 (d - 1)) in Hd by lia.
    destruct (Z.eqb_spec d 0) as [->|]; [simpl in Hd; lia|].
    rewrite Z.pow_neg_r in Hd by lia. lia. }
  destruct (Z.lt_trichotomy (Zdigits2 m) d) as [Hlt|[Heq|Hgt]]; [|exact Heq|].
  - exfalso. assert (2 ^ Zdigits2 m <= 2 ^ (d - 1)) by (apply Z.pow_le_mono_r; lia). lia.
  - exfalso. assert (2 ^ d <= 2 ^ (Zdigits2 m - 1)) by (apply Z.pow_le_mono_r; lia). lia.
Qed.

Lemma fexp_normal (e : Z) : -1074 <= e - 53 -> fexp prec emax e = e - 53.
Proof. unfold fexp, SpecFloat.emin, prec, emax. lia. Qed.

Lemma shr_shifted (m e n : Z) :
  0 <= m -> 0 <= n ->
  exists mrs, shr (Build_shr_record m false false) e n = (mrs, e + n)
              /\ shifted m n mrs.
Proof.
  intros Hm Hn. destruct n as [|p|p]; try lia.
  - exists (Build_shr_record m false false). simpl. rewrite Z.add_0_r.
    split; [reflexivity|]. now apply shifted_start.
  - eexists. split; [reflexivity|]. now apply shifted_iter.
Qed.

Lemma shifted_quotient (m n : Z) (mrs : shr_record) :
  0 <= n -> shifted m n mrs ->
  shr_m mrs = m / 2 ^ n
  /\ ((round_nearest_even (shr_m mrs) (loc_of_shr_record mrs) = m / 2 ^ n
       /\ 2 * (m mod 2 ^ n) <= 2 ^ n)
      \/ (round_nearest_even (shr_m mrs) (loc_of_shr_record mrs) = m / 2 ^ n + 1
          /\ 2 ^ n <= 2 * (m mod 2 ^ n))).
Proof.
  intros Hn (t & Hq & Hm & Ht0 & Ht & Hs & Hr).
  destruct mrs as [q r s]. cbn [shr_m shr_r shr_s] in *.
  assert (0 < 2 ^ n) as Hpos by (apply Z.pow_pos_nonneg; lia).
  set (rem := (if r then 2 ^ (n - 1) else 0) + t) in *.
  assert (n = 0 -> rem = 0) as Hrem0.
  { intros ->. subst rem. rewrite (Hr eq_refl). change (2 ^ 0) with 1 in Ht. lia. }
  assert (0 < n -> 2 ^ n = 2 * 2 ^ (n - 1)) as Hp1.
  { intros H. replace n with (n - 1 + 1) at 1 by lia. rewrite Z.pow_add_r; lia. }
  assert (0 <= rem < 2 ^ n) as Hrem.
  { assert (n = 0 \/ 0 < n) as [H0|H1] by lia; [rewrite (Hrem0 H0); lia|].
    specialize (Hp1 H1).
    assert (0 < 2 ^ (n - 1)) by (apply Z.pow_pos_nonneg; lia).
    subst rem. destruct r; lia. }
  assert (m = 2 ^ n * q + rem) as Hdiv by (subst rem; lia).
  pose proof (Z.div_unique m (2 ^ n) q rem ltac:(lia) Hdiv) as Hquot.
  pose proof (Z.mod_unique m (2 ^ n) q rem ltac:(lia) Hdiv) as Hmod.
  rewrite <- Hquot, <- Hmod. split; [reflexivity|].
  assert (n = 0 \/ 0 < n) as [H0|H1] by lia.
  { left. rewrite (Hrem0 H0). subst n. rewrite (Hr eq_refl) in *.
    change (2 ^ 0) with 1.
    destruct s; cbn [round_nearest_even loc_of_shr_record]; split; try reflexivity; lia. }
  specialize (Hp1 H1).
  assert (0 < 2 ^ (n - 1)) by (apply Z.pow_pos_nonneg; lia).
  subst rem. destruct r, s; cbn [round_nearest_even loc_of_shr_record shr_m shr_r shr_s].
  - right. split; [reflexivity|]. assert (t <> 0) by now apply Hs. lia.
  - assert (t = 0) as ->.
    { destruct (Z.eq_dec t 0); [assumption|]. 
      assert (false = true) by now apply Hs. discriminate. }
    destruct (Z.even q); [left|right]; split; try reflexivity; lia.
  - left. split; [reflexivity|]. lia.
  - left. split; [reflexivity|]. lia.
Qed.

(** Rounding a positive integer mantissa of at least 53 bits to binary64,
    away from underflow and overflow. *)
Lemma binary_round_aux_spec (sx : bool) (mx ex : Z) :
  0 < mx ->
  let s := Zdigits2 mx - 53 in
  0 <= s -> -1074 <= ex + s -> ex + s + 1 <= 971 ->
  exists (m : positive) (e : Z) (m1 : Z),
    binary_round_aux prec emax sx mx ex loc_Exact = S754_finite sx m e
    /\ ex + s <= e
    /\ 2 ^ 52 <= Zpos m < 2 ^ 53
    /\ Zpos m * 2 ^ (e - (ex + s)) = m1
    /\ ((m1 = mx / 2 ^ s /\ 2 * (mx mod 2 ^ s) <= 2 ^ s)
        \/ (m1 = mx / 2 ^ s + 1 /\ 2 ^ s <= 2 * (mx mod 2 ^ s))).
Proof.
  intros Hmx s Hs Hlow Hhigh.
  pose proof (Zdigits2_bounds mx Hmx) as Hd.
  replace (Zdigits2 mx) with (s + 53) in Hd by (subst s; lia).
  replace (s + 53 - 1) with (s + 52) in Hd by lia.
  rewrite !Z.pow_add_r in Hd by lia.
  assert (0 < 2 ^ s) as Hpos by (apply Z.pow_pos_nonneg; lia).
  unfold binary_round_aux, shr_fexp.
  rewrite fexp_normal by (fold s; lia).
  replace (Zdigits2 mx + ex - 53 - ex) with s by (subst s; lia).
  cbn [shr_record_of_loc].
  destruct (shr_shifted mx ex s ltac:(lia) Hs) as (mrs & -> & Hshift).
  destruct (shifted_quotient mx s mrs Hs Hshift) as (Hlo & Hround).
  set (m1 := round_nearest_even (shr_m mrs) (loc_of_shr_record mrs)) in *.
  assert (2 ^ 52 <= mx / 2 ^ s < 2 ^ 53) as Hlo_bounds.
  { split.
    - apply Z.div_le_lower_bound; lia.
    - apply Z.div_lt_upper_bound; lia. }
  assert (2 ^ 52 <= m1 <= 2 ^ 53) as Hm1 by lia.
  assert (m1 < 2 ^ 53 \/ m1 = 2 ^ 53) as [Hsmall|Hcarry] by lia.
  - assert (Zdigits2 m1 = 53) as Hdig.
    { apply Zdigits2_unique; [lia|]. change (53 - 1) with 52. lia. }
    rewrite Hdig. rewrite fexp_normal by lia.
    replace (53 + (ex + s) - 53 - (ex + s)) with 0 by lia.
    cbn [shr fst snd shr_m].
    destruct m1 as [|m|m] eqn:E; try lia.
    assert ((ex + s <=? emax - prec) = true) as ->
      by (apply Z.leb_le; unfold emax, prec; lia).
    exists m, (ex + s), (Zpos m). split; [reflexivity|]. split; [lia|].
    split; [lia|].
    split; [rewrite Z.sub_diag; simpl; lia|]. exact Hround.
  - assert (Zdigits2 m1 = 54) as Hdig by (rewrite Hcarry; reflexivity).
    rewrite Hdig. rewrite fexp_normal by lia.
    replace (54 + (ex + s) - 53 - (ex + s)) with 1 by lia.
    rewrite Hcarry. cbn [shr SpecFloat.iter_pos shr_1 shr_m].
    assert ((ex + s + 1 <=? emax - prec) = true) as Hle
      by (apply Z.leb_le; unfold emax, prec; lia).
    eexists _, (ex + s + 1), m1.
    split; [vm_compute (2 ^ 53); cbn [shr_record_of_loc shr SpecFloat.iter_pos shr_1 shr_m]; rewrite Hle; reflexivity|].
    split; [lia|]. split; [vm_compute; split; [discriminate|reflexivity]|].
    split; [|exact Hround].
    replace (ex + s + 1 - (ex + s)) with 1 by lia. rewrite Hcarry. reflexivity.
Qed.

Lemma iter_xO (p k : positive) : Zpos (Pos.iter xO p k) = Zpos p * 2 ^ Zpos k.
Proof.
  induction k as [|k IH] using Pos.peano_ind.
  - simpl. lia.
  - rewrite Pos.iter_succ, Pos2Z.inj_xO, IH, Pos2Z.inj_succ, Z.pow_succ_r by lia.
    lia.
Qed.

Lemma pow2_pos (n : Z) : 0 <= n -> 0 < 2 ^ n.
Proof. intros. apply Z.pow_pos_nonneg; lia. Qed.

(** An int of at most 53 bits converts exactly. *)
Lemma int_to_float_exact (T : Z) :
  0 < T < 2 ^ 53 ->
  exists (m : positive) (a : Z),
    int_to_float T = Val (S754_finite false m (- a))
    /\ 0 <= a <= 52
    /\ Zpos m = T * 2 ^ a
    /\ 2 ^ 52 <= Zpos m < 2 ^ 53.
Proof.
  intros HT. destruct T as [|p|p]; try lia.
  pose proof (Zdigits2_bounds (Zpos p) ltac:(lia)) as Hd.
  set (d := Zdigits2 (Zpos p)) in *.
  assert (1 <= d) as Hd1 by (subst d; simpl; lia).
  assert (d <= 53) as Hd53.
  { destruct (Z.leb_spec d 53); [assumption|]. exfalso.
    assert (2 ^ 53 <= 2 ^ (d - 1)) by (apply Z.pow_le_mono_r; lia). lia. }
  unfold int_to_float, binary_normalize, binary_round.
  change (Zpos (digits2_pos p)) with d.
  rewrite Z.add_0_r, fexp_normal by lia.
  assert (exists mz : positive,
            shl_align p 0 (d - 53) = (mz, d - 53)
            /\ Zpos mz = Zpos p * 2 ^ (53 - d)) as (mz & -> & Hmz).
  { unfold shl_align. rewrite Z.sub_0_r.
    destruct (d - 53) as [|k|k] eqn:E; try lia.
    - exists p. split; [reflexivity|]. replace (53 - d) with 0 by lia. lia.
    - exists (Pos.iter xO p k). split; [reflexivity|].
      rewrite iter_xO. f_equal. f_equal. lia. }
  assert (2 ^ 52 <= Zpos mz < 2 ^ 53) as Hb.
  { rewrite Hmz.
    assert (2 ^ 52 = 2 ^ (d - 1) * 2 ^ (53 - d)) as ->
      by (rewrite <- Z.pow_add_r by lia; f_equal; lia).
    assert (2 ^ 53 = 2 ^ d * 2 ^ (53 - d)) as ->
      by (rewrite <- Z.pow_add_r by lia; f_equal; lia).
    pose proof (pow2_pos (53 - d) ltac:(lia)). nia. }
  assert (Zdigits2 (Zpos mz) = 53) as Hdig
    by (apply Zdigits2_unique; [lia|exact Hb]).
  destruct (binary_round_aux_spec false (Zpos mz) (d - 53) ltac:(lia))
    as (m & e & m1 & Heq & He & Hm & Hval & Hround);
    rewrite ?Hdig; try lia.
  rewrite Hdig in *. change (53 - 53) with 0 in *. rewrite Z.add_0_r in *.
  change (2 ^ 0) with 1 in Hround. rewrite Z.div_1_r, Z.mod_1_r in Hround.
  assert (m1 = Zpos mz) as -> by lia.
  assert (e = d - 53) as ->.
  { destruct (Z.eq_dec e (d - 53)) as [|Hne]; [assumption|]. exfalso.
    assert (2 <= 2 ^ (e - (d - 53))).
    { change 2 with (2 ^ 1) at 1. apply Z.pow_le_mono_r; lia. }
    nia. }
  rewrite Z.sub_diag in Hval. change (2 ^ 0) with 1 in Hval.
  assert (m = mz) as -> by lia.
  rewrite Heq. exists mz, (53 - d).
  replace (- (53 - d)) with (d - 53) by lia.
  split; [reflexivity|]. split; [lia|]. split; [exact Hmz|exact Hb].
Qed.

(** Python's comparison of an int with a finite positive float, after
    scaling both sides by a power of two. *)
Lemma int_compare_float_scale (z : Z) (m : positive) (e c : Z) :
  0 <= c -> 0 <= e + c ->
  int_compare_float z (S754_finite false m e)
  = Some (z * 2 ^ c ?= Zpos m * 2 ^ (e + c)).
Proof.
  intros Hc Hec. unfold int_compare_float. f_equal.
  destruct e as [|k|k].
  - rewrite Z.mul_1_r, Z.add_0_l.
    apply Zmult_compare_compat_r. now apply Z.lt_gt, pow2_pos.
  - rewrite Z.pow_add_r by lia. rewrite Z.mul_assoc.
    apply Zmult_compare_compat_r. now apply Z.lt_gt, pow2_pos.
  - assert (2 ^ c = 2 ^ Zpos k * 2 ^ (Zneg k + c)) as ->
      by (rewrite <- Z.pow_add_r by lia; f_equal; lia).
    rewrite Z.mul_assoc.
    apply Zmult_compare_compat_r. now apply Z.lt_gt, pow2_pos.
Qed.

(** [T * c] for an int [T] of at most 48 bits and a float constant
    [c = Mc * 2^ec] between 1/8 and 2: the product [T * Mc] is cut to 53
    bits by dropping [s] bits and rounding to nearest. *)
Lemma int_times_float_spec (T : Z) (Mc : positive) (ec : Z) :
  0 < T <= 2 ^ 48 -> 2 ^ 52 <= Zpos Mc < 2 ^ 53 -> -55 <= ec <= -52 ->
  exists (bound : binary64) (s m1 : Z),
    int_times_float T (S754_finite false Mc ec) = Val bound
    /\ 0 <= s <= 49
    /\ 2 ^ (s + 52) <= T * Zpos Mc < 2 ^ (s + 53)
    /\ ((m1 = (T * Zpos Mc) / 2 ^ s /\ 2 * ((T * Zpos Mc) mod 2 ^ s) <= 2 ^ s)
        \/ (m1 = (T * Zpos Mc) / 2 ^ s + 1
            /\ 2 ^ s <= 2 * ((T * Zpos Mc) mod 2 ^ s)))
    /\ forall x, int_compare_float x bound = Some (x * 2 ^ (- ec - s) ?= m1).
Proof.
  intros HT HMc Hec.
  destruct (int_to_float_exact T ltac:(lia)) as (mT & a & HTf & Ha & HmT & HmTb).
  unfold int_times_float. rewrite HTf. cbn [SFmul xorb].
  set (P' := Zpos (mT * Mc)).
  assert (P' = T * Zpos Mc * 2 ^ a) as HP' by (subst P'; rewrite Pos2Z.inj_mul; lia).
  pose proof (pow2_pos a ltac:(lia)) as Hapos.
  pose proof (Zdigits2_bounds P' ltac:(subst P'; lia)) as Hd'.
  set (s' := Zdigits2 P' - 53) in *.
  replace (Zdigits2 P') with (s' + 53) in Hd' by (subst s'; lia).
  replace (s' + 53 - 1) with (s' + 52) in Hd' by lia.
  assert (52 <= s' <= 53) as Hs'.
  { assert (2 ^ 104 <= P' < 2 ^ 106) as HPb.
    { subst P'. rewrite Pos2Z.inj_mul.
      change (2 ^ 104) with (2 ^ 52 * 2 ^ 52). change (2 ^ 106) with (2 ^ 53 * 2 ^ 53).
      nia. }
    split.
    - destruct (Z.leb_spec 52 s'); [assumption|]. exfalso.
      assert (2 ^ (s' + 53) <= 2 ^ 104) by (apply Z.pow_le_mono_r; lia). lia.
    - destruct (Z.leb_spec s' 53); [assumption|]. exfalso.
      assert (2 ^ 106 <= 2 ^ (s' + 52)) by (apply Z.pow_le_mono_r; lia). lia. }
  assert (4 <= a) as Ha4.
  { destruct (Z.leb_spec 4 a); [assumption|]. exfalso.
    assert (2 ^ a <= 2 ^ 3) by (apply Z.pow_le_mono_r; lia).
    change (2 ^ 3) with 8 in *. change (2 ^ 48) with 281474976710656 in *.
    change (2 ^ 52) with 4503599627370496 in *. nia. }
  destruct (binary_round_aux_spec false P' (- a + ec) ltac:(subst P'; lia))
    as (m & e & m1 & Heq & He & Hm & Hval & Hround); fold s'; try lia.
  fold s' in Heq, He, Hval, Hround.
  set (s := s' - a).
  assert (2 ^ s' = 2 ^ s * 2 ^ a) as Hsplit
    by (rewrite <- Z.pow_add_r by lia; f_equal; lia).
  pose proof (pow2_pos s ltac:(lia)) as Hspos.
  assert (P' / 2 ^ s' = (T * Zpos Mc) / 2 ^ s) as Hquot.
  { rewrite HP', Hsplit. rewrite Z.div_mul_cancel_r by lia. reflexivity. }
  assert (P' mod 2 ^ s' = ((T * Zpos Mc) mod 2 ^ s) * 2 ^ a) as Hmod.
  { rewrite HP', Hsplit. rewrite Z.mul_mod_distr_r by lia. reflexivity. }
  exists (S754_finite false m e), s, m1.
  split; [rewrite Heq; reflexivity|]. split; [lia|]. split.
  { rewrite HP' in Hd'.
    replace (s' + 52) with (s + 52 + a) in Hd' by lia.
    replace (s' + 53) with (s + 53 + a) in Hd' by lia.
    rewrite !(Z.pow_add_r _ _ a) in Hd' by lia.
    pose proof (pow2_pos (s + 52) ltac:(lia)).
    pose proof (pow2_pos (s + 53) ltac:(lia)). nia. }
  split.
  { rewrite Hquot, Hmod, Hsplit in Hround. nia. }
  intros x.
  rewrite (int_compare_float_scale x m e (- ec - s)) by lia.
  f_equal. replace (e + (- ec - s)) with (e - (- a + ec + s')) by lia.
  rewrite Hval. reflexivity.
Qed.

Lemma int_le_float_compare (x : Z) (f : binary64) (a b : Z) :
  int_compare_float x f = Some (a ?= b) ->
  (int_le_float x f = true <-> a <= b)
  /\ (int_lt_float x f = true <-> a < b)
  /\ (int_gt_float x f = true <-> b < a).
Proof.
  intros H. unfold int_le_float, int_lt_float, int_gt_float. rewrite H.
  destruct (Z.compare_spec a b); repeat split; intros; try discriminate;
    try reflexivity; lia.
Qed.

(** The facts about a cut product that the threshold lemmas use. *)
Lemma cut_product (P s m1 C : Z) :
  0 <= s -> s <= C ->
  (m1 = P / 2 ^ s /\ 2 * (P mod 2 ^ s) <= 2 ^ s)
  \/ (m1 = P / 2 ^ s + 1 /\ 2 ^ s <= 2 * (P mod 2 ^ s)) ->
  exists K J lo rem,
    K = 2 ^ s /\ J = 2 ^ (C - s) /\ 0 < K /\ 0 < J /\ K * J = 2 ^ C
    /\ P = K * lo + rem /\ 0 <= rem < K
    /\ ((m1 = lo /\ 2 * rem <= K) \/ (m1 = lo + 1 /\ K <= 2 * rem)).
Proof.
  intros Hs HC Hround.
  exists (2 ^ s), (2 ^ (C - s)), (P / 2 ^ s), (P mod 2 ^ s).
  pose proof (pow2_pos s Hs). pose proof (pow2_pos (C - s) ltac:(lia)).
  split; [reflexivity|]. split; [reflexivity|]. split; [assumption|].
  split; [assumption|].
  split; [rewrite <- Z.pow_add_r by lia; f_equal; lia|].
  split; [apply Z.div_mod; lia|].
  split; [apply Z.mod_pos_bound; lia|]. exact Hround.
Qed.

(** [total <= target * 1.1] is the exact test up to 2^48. *)
Lemma overage_test_exact (T : Z) :
  0 <= T <= 2 ^ 48 ->
  exists bound,
    int_times_float T float_1_1 = Val bound
    /\ forall x, int_le_float x bound = true <-> 10 * x <= 11 * T.
Proof.
  intros HT. assert (T = 0 \/ 0 < T) as [->|Hpos] by lia.
  { exists (S754_zero false). split; [reflexivity|]. intros x.
    unfold int_le_float. cbn [int_compare_float].
    destruct (Z.compare_spec x 0); split; intros; try discriminate;
      try reflexivity; lia. }
  destruct (int_times_float_spec T 4953959590107546 (-52))
    as (bound & s & m1 & Hb & Hs & HP & Hround & Hcmp);
    [lia | vm_compute; split; [discriminate|reflexivity] | lia |].
  exists bound. split; [exact Hb|]. intros x.
  destruct (int_le_float_compare x bound _ _ (Hcmp x)) as (-> & _ & _).
  replace (- -52 - s) with (52 - s) by lia.
  destruct (cut_product _ s m1 52 ltac:(lia) ltac:(lia) Hround)
    as (K & J & lo & rem & HK & HJ & HKpos & HJpos & HKJ & Hdiv & Hrem & Hm1).
  rewrite <- HJ. rewrite !Z.pow_add_r in HP by lia. rewrite <- HK in HP.
  change (2 ^ 52) with 4503599627370496 in *.
  change (2 ^ 53) with 9007199254740992 in *.
  change (2 ^ 48) with 281474976710656 in *.
  split.
  - intros Hle. 
    assert (2 * (x * J) * K <= 2 * (K * lo + rem) + K) as H1 by nia.
    assert (x * J * K = x * 4503599627370496) as H2 by nia.
    nia.
  - intros Hle.
    assert (x * J * K <= K * lo + rem) as H1 by nia.
    assert (x * J < lo + 1) by nia. lia.
Qed.

(** [len < num_questions * 0.8] is the exact test up to 2^48. *)
Lemma count_test_exact (n : Z) :
  0 <= n <= 2 ^ 48 ->
  exists bound,
    int_times_float n float_0_8 = Val bound
    /\ forall x, int_lt_float x bound = true <-> 10 * x < 8 * n.
Proof.
  intros HT. assert (n = 0 \/ 0 < n) as [->|Hpos] by lia.
  { exists (S754_zero false). split; [reflexivity|]. intros x.
    unfold int_lt_float. cbn [int_compare_float].
    destruct (Z.compare_spec x 0); split; intros; try discriminate;
      try reflexivity; lia. }
  destruct (int_times_float_spec n 7205759403792794 (-53))
    as (bound & s & m1 & Hb & Hs & HP & Hround & Hcmp);
    [lia | vm_compute; split; [discriminate|reflexivity] | lia |].
  exists bound. split; [exact Hb|]. intros x.
  destruct (int_le_float_compare x bound _ _ (Hcmp x)) as (_ & -> & _).
  replace (- -53 - s) with (53 - s) by lia.
  destruct (cut_product _ s m1 53 ltac:(lia) ltac:(lia) Hround)
    as (K & J & lo & rem & HK & HJ & HKpos & HJpos & HKJ & Hdiv & Hrem & Hm1).
  rewrite <- HJ. rewrite !Z.pow_add_r in HP by lia. rewrite <- HK in HP.
  change (2 ^ 52) with 4503599627370496 in *.
  change (2 ^ 53) with 9007199254740992 in *.
  change (2 ^ 48) with 281474976710656 in *.
  assert (x * J * K = x * 9007199254740992) as H2 by (rewrite <- HKJ; ring).
  split.
  - intros Hlt.
    destruct (Z.ltb_spec (10 * x) (8 * n)) as [|Hge]; [assumption|]. exfalso.
    assert (5 * x = 4 * n \/ 4 * n + 1 <= 5 * x) as [Heq|Hgt] by lia.
    + assert (5 * (K * lo + rem - x * J * K) = 2 * n) as Hrho by nia.
      assert (5 * K > 4 * n) as HKn by nia.
      assert (x * J <= lo) as Hlo by nia.
      assert (lo <= x * J) as Hlo' by nia.
      assert (2 * rem < K) by nia.
      lia.
    + assert (2 * (m1 * K) <= 2 * (K * lo + rem) + K) as H1 by nia.
      nia.
  - intros Hlt.
    assert (5 * x <= 4 * n - 1) as Hx by lia.
    assert (K * lo <= m1 * K) as H1 by nia.
    nia.
Qed.

(** [abs(actual - total) > total * 0.2] is the exact test up to 2^48. *)
Lemma marks_test_exact (T : Z) :
  0 <= T <= 2 ^ 48 ->
  exists bound,
    int_times_float T float_0_2 = Val bound
    /\ forall x, int_gt_float x bound = true <-> 2 * T < 10 * x.
Proof.
  intros HT. assert (T = 0 \/ 0 < T) as [->|Hpos] by lia.
  { exists (S754_zero false). split; [reflexivity|]. intros x.
    unfold int_gt_float. cbn [int_compare_float].
    destruct (Z.compare_spec x 0); split; intros; try discriminate;
      try reflexivity; lia. }
  destruct (int_times_float_spec T 7205759403792794 (-55))
    as (bound & s & m1 & Hb & Hs & HP & Hround & Hcmp);
    [lia | vm_compute; split; [discriminate|reflexivity] | lia |].
  exists bound. split; [exact Hb|]. intros x.
  destruct (int_le_float_compare x bound _ _ (Hcmp x)) as (_ & _ & ->).
  replace (- -55 - s) with (55 - s) by lia.
  destruct (cut_product _ s m1 55 ltac:(lia) ltac:(lia) Hround)
    as (K & J & lo & rem & HK & HJ & HKpos & HJpos & HKJ & Hdiv & Hrem & Hm1).
  rewrite <- HJ. rewrite !Z.pow_add_r in HP by lia. rewrite <- HK in HP.
  change (2 ^ 52) with 4503599627370496 in *.
  change (2 ^ 53) with 9007199254740992 in *.
  change (2 ^ 55) with 36028797018963968 in *.
  change (2 ^ 48) with 281474976710656 in *.
  assert (x * J * K = x * 36028797018963968) as H2 by (rewrite <- HKJ; ring).
  split.
  - intros Hgt.
    destruct (Z.ltb_spec (2 * T) (10 * x)) as [|Hge]; [assumption|]. exfalso.
    assert (x * J * K <= K * lo + rem) as H1 by nia.
    assert (x * J < lo + 1) by nia. lia.
  - intros Hgt.
    assert (2 * (m1 * K) <= 2 * (K * lo + rem) + K) as H1 by nia.
    nia.
Qed.

(** *** The relaxed fallback *)

Lemma int_times_float_raises (z : Z) (c : binary64) (e : exn) :
  int_times_float z c = Exc e -> e = OverflowError.
Proof.
  unfold int_times_float, int_to_float.
  destruct (binary_normalize prec emax z 0 false); intros H;
    inversion H; reflexivity.
Qed.

Lemma relaxed_loop_sub available tm tc selected total r :
  relaxed_loop available tm tc selected total = Val r ->
  exists new, r = selected ++ new /\ sublist new available.
Proof.
  revert selected total.
  induction available as [|q rest IH]; intros selected total; simpl.
  - intros H. inversion H. exists []. rewrite app_nil_r. split; constructor.
  - destruct (tc <=? len selected).
    { intros H. inversion H. exists []. rewrite app_nil_r.
      split; [reflexivity|apply sublist_nil_l]. }
    destruct (int_times_float tm float_1_1) as [bound|e]; [|discriminate].
    destruct (int_le_float _ _).
    + intros H. destruct (IH _ _ H) as (new & -> & Hsub).
      exists (q :: new). rewrite <- app_assoc. split; [reflexivity|].
      now constructor.
    + intros H. destruct (IH _ _ H) as (new & -> & Hsub).
      exists new. split; [reflexivity|]. now constructor.
Qed.

Lemma relaxed_loop_trace available tm tc selected total bound :
  int_times_float tm float_1_1 = Val bound ->
  exists new,
    relaxed_loop available tm tc selected total = Val (selected ++ new)
    /\ sublist new available
    /\ within_bound bound total new.
Proof.
  intros Hbound. revert selected total.
  induction available as [|q rest IH]; intros selected total; simpl.
  - exists []. rewrite app_nil_r. repeat split. constructor.
  - destruct (tc <=? len selected).
    { exists []. rewrite app_nil_r. repeat split. apply sublist_nil_l. }
    rewrite Hbound.
    destruct (int_le_float _ _) eqn:Htest.
    + destruct (IH (selected ++ [q]) (total + q_marks q))
        as (new & Heq & Hsub & Hov).
      exists (q :: new). rewrite Heq, <- app_assoc. repeat split.
      * now constructor.
      * exact Htest.
      * exact Hov.
    + destruct (IH selected total) as (new & Heq & Hsub & Hov).
      exists new. repeat split; auto. now constructor.
Qed.

Lemma relaxed_loop_overflow available tm tc selected total e :
  int_times_float tm float_1_1 = Exc e ->
  relaxed_loop available tm tc selected total
  = match available with
    | [] => Val selected
    | _ :: _ => if tc <=? len selected then Val selected else Exc e
    end.
Proof.
  intros He. destruct available as [|q rest]; simpl; [reflexivity|].
  now rewrite He.
Qed.

Lemma within_bound_total bound total l :
  within_bound bound total l -> l <> [] ->
  int_le_float (total + total_marks_of l) bound = true.
Proof.
  revert total. induction l as [|q l IH]; intros total H Hne; [easy|].
  simpl in *. destruct H as [Hq Hl].
  destruct l as [|q' l']; [simpl; now rewrite Z.add_0_r|].
  specialize (IH _ Hl ltac:(discriminate)).
  now rewrite Z.add_assoc.
Qed.

Lemma within_bound_overage bound tm total l :
  (forall x, int_le_float x bound = true <-> 10 * x <= 11 * tm) ->
  within_bound bound total l -> within_overage tm total l.
Proof.
  intros Hexact. revert total.
  induction l as [|q l IH]; intros total; simpl; [tauto|].
  intros [Hq Hl]. split; [now apply Hexact|now apply IH].
Qed.

Lemma within_overage_total tm total l :
  within_overage tm total l -> l <> [] ->
  10 * (total + total_marks_of l) <= 11 * tm.
Proof.
  revert total. induction l as [|q l IH]; intros total H Hne; [easy|].
  simpl in *. destruct H as [Hq Hl].
  destruct l as [|q' l']; [simpl; lia|].
  specialize (IH _ Hl ltac:(discriminate)). simpl in *. lia.
Qed.

Lemma max3_le (x : Z) (k : Z) :
  Qle_bool (max3 (inject_Z x * (7 # 10))) (inject_Z k) = true
  <-> 3 <= k /\ 7 * x <= 10 * k.
Proof.
  unfold max3, Qlt_bool.
  destruct (Qle_bool (inject_Z x * (7 # 10)) 3) eqn:H3; simpl;
    rewrite Qle_bool_iff.
  - apply Qle_bool_iff in H3. revert H3.
    unfold Qle, Qmult, inject_Z. simpl. lia.
  - assert (~ (inject_Z x * (7 # 10) <= 3)%Q) as H3'.
    { intros H. apply Qle_bool_iff in H. congruence. }
    revert H3'. unfold Qle, Qmult, inject_Z. simpl. lia.
Qed.

(** *** The assembler *)



(** C2.  With distinct ids in the pool, a list returned by the assembler
    has no two questions with the same id; and the questions selected by the
    primary strategy, in selection order, each cost no more than the marks
    remaining when they are selected. *)
Theorem assembler_no_duplicate_within_budget
    (shuffle : list question -> list question) (pool : list question)
    (total_marks num_questions : Z) (caller : store) :
  shuffle pool ≡ₚ pool ->
  NoDup (map q_id pool) ->
  (forall paper,
      fst (generate_paper shuffle pool total_marks num_questions caller)
      = Returned (Some paper) ->
      NoDup (map q_id paper))
  /\ (forall fuel st how,
        primary_selection fuel pool total_marks num_questions caller = (st, how) ->
        budget_respected total_marks (selected_questions st)).
Proof.
  intros Hshuffle Hpool. split.
  - intros paper. unfold generate_paper, generate_paper_fuel.
    destruct pool as [|q pool]; [discriminate|].
    destruct (primary_selection _ _ _ _ _) as [st how] eqn:Hprim.
    apply primary_selection_trace in Hprim as (_ & _ & _ & _ & Hnd & _).
    destruct how; simpl; try discriminate.
    destruct (acceptable _ _).
    + intros H. inversion H; subst. exact Hnd.
    + unfold generate_paper_relaxed.
      destruct (relaxed_loop _ _ _ _ _) as [selected|e] eqn:Hloop;
        [|discriminate].
      apply relaxed_loop_sub in Hloop as (new & -> & Hsub).
      simpl. destruct (3 <=? len new); [|discriminate].
      intros H. inversion H; subst paper.
      change (NoDup (q_id <$> new)).
      eapply sublist_NoDup; [|apply fmap_sublist; exact Hsub].
      rewrite Hshuffle. exact Hpool.
  - intros fuel st how Hprim.
    apply primary_selection_trace in Hprim. tauto.
Qed.

Lemma assembler_no_duplicate_within_budget_witness :
  rev sample_pool ≡ₚ sample_pool
  /\ NoDup (map q_id sample_pool)
  /\ (forall paper,
        fst (generate_paper (@rev question) sample_pool 50 5 sample_caller)
        = Returned (Some paper) ->
        NoDup (map q_id paper)).
Proof.
  assert (rev sample_pool ≡ₚ sample_pool) as Hperm
    by (symmetry; apply Permutation_rev).
  assert (NoDup (map q_id sample_pool)) as Hnd
    by (apply (bool_decide_unpack _); vm_compute; reflexivity).
  split; [exact Hperm|]. split; [exact Hnd|].
  apply (assembler_no_duplicate_within_budget (@rev question) sample_pool 50 5
           sample_caller Hperm Hnd).
Defined.

(** C3 (as stated, refuted).  With a target of 10^17 marks the fallback
    accepts three questions whose marks add up to 110000000000000010, which
    is more than 1.1 times the target: the binary64 product
    [10^17 * 1.1] is 110000000000000016. *)
Lemma relaxed_total_above_overage :
  generate_paper_relaxed (fun l => l) heavy_pool (10 ^ 17) 3
  = Val (Some heavy_pool)
  /\ 11 * 10 ^ 17 < 10 * total_marks_of heavy_pool
  /\ ~ within_overage (10 ^ 17) 0 heavy_pool.
Proof.
  split; [vm_compute; reflexivity|]. split; [vm_compute; reflexivity|].
  intros (_ & _ & H & _). vm_compute in H. now apply H.
Qed.

(** C3 (amended).  The relaxed fallback accepts a question only when the
    running total plus its marks is at most the binary64 product
    [target_marks * 1.1], so a returned list totals at most that product;
    it returns its selection when that has at least 3 questions and [None]
    otherwise.  For a target between 0 and 2^48 the test is the exact one:
    the running total never exceeds 1.1 times the target.  When the target
    is too large for a float the first test raises [OverflowError]. *)
Theorem generate_paper_relaxed_bound
    (shuffle : list question -> list question) (questions : list question)
    (target_marks target_count : Z) :
  (forall bound,
      int_times_float target_marks float_1_1 = Val bound ->
      exists selected,
        relaxed_loop (shuffle questions) target_marks target_count [] 0
        = Val selected
        /\ within_bound bound 0 selected
        /\ (selected <> [] ->
            int_le_float (total_marks_of selected) bound = true)
        /\ generate_paper_relaxed shuffle questions target_marks target_count
           = Val (if 3 <=? len selected then Some selected else None))
  /\ (0 <= target_marks <= 2 ^ 48 ->
      exists bound,
        int_times_float target_marks float_1_1 = Val bound
        /\ (forall total,
              int_le_float total bound = true
              <-> 10 * total <= 11 * target_marks)
        /\ forall paper,
             generate_paper_relaxed shuffle questions target_marks target_count
             = Val (Some paper) ->
             within_overage target_marks 0 paper
             /\ 10 * total_marks_of paper <= 11 * target_marks)
  /\ (forall e,
        int_times_float target_marks float_1_1 = Exc e ->
        e = OverflowError
        /\ generate_paper_relaxed shuffle questions target_marks target_count
           = match shuffle questions with
             | [] => Val None
             | _ :: _ =>
                 if target_count <=? 0 then Val None else Exc OverflowError
             end).
Proof.
  assert (forall bound,
      int_times_float target_marks float_1_1 = Val bound ->
      exists selected,
        relaxed_loop (shuffle questions) target_marks target_count [] 0
        = Val selected
        /\ within_bound bound 0 selected
        /\ (selected <> [] ->
            int_le_float (total_marks_of selected) bound = true)
        /\ generate_paper_relaxed shuffle questions target_marks target_count
           = Val (if 3 <=? len selected then Some selected else None))
    as Hmain.
  { intros bound Hbound.
    destruct (relaxed_loop_trace (shuffle questions) target_marks target_count
                                 [] 0 bound Hbound) as (new & Heq & _ & Hov).
    simpl in Heq. exists new. split; [exact Heq|]. split; [exact Hov|].
    split; [intros Hne; apply (within_bound_total bound 0 new Hov Hne)|].
    unfold generate_paper_relaxed. now rewrite Heq. }
  split; [exact Hmain|]. split.
  - intros Hrange.
    destruct (overage_test_exact target_marks Hrange) as (bound & Hbound & Hexact).
    exists bound. split; [exact Hbound|]. split; [exact Hexact|].
    intros paper Hpaper.
    destruct (Hmain bound Hbound) as (selected & _ & Hov & _ & Hret).
    rewrite Hret in Hpaper.
    destruct (3 <=? len selected) eqn:H3; [|discriminate].
    inversion Hpaper; subst paper. apply Z.leb_le in H3.
    pose proof (within_bound_overage bound target_marks 0 selected Hexact Hov)
      as Hover.
    split; [exact Hover|].
    apply (within_overage_total _ 0 _ Hover).
    intros ->. unfold len in H3. simpl in H3. lia.
  - intros e He.
    pose proof (int_times_float_raises _ _ _ He) as ->.
    split; [reflexivity|].
    unfold generate_paper_relaxed.
    rewrite (relaxed_loop_overflow _ _ _ _ _ _ He).
    destruct (shuffle questions) as [|q rest]; [reflexivity|].
    change (len (@nil question)) with 0.
    destruct (target_count <=? 0); reflexivity.
Qed.

Lemma generate_paper_relaxed_bound_witness :
  0 <= 50 <= 2 ^ 48
  /\ generate_paper_relaxed (@rev question) sample_pool 50 5
     = Val (Some [sample_question 10 "Unit 2" 10; sample_question 9 "Unit 2" 10;
                  sample_question 8 "Unit 2" 10; sample_question 7 "Unit 2" 10;
                  sample_question 6 "Unit 2" 10])
  /\ 10 * total_marks_of [sample_question 10 "Unit 2" 10;
                          sample_question 9 "Unit 2" 10;
                          sample_question 8 "Unit 2" 10;
                          sample_question 7 "Unit 2" 10;
                          sample_question 6 "Unit 2" 10] <= 11 * 50.
Proof.
  assert (0 <= 50 <= 2 ^ 48) as Hrange
    by (split; [discriminate|vm_compute; discriminate]).
  destruct (generate_paper_relaxed_bound (@rev question) sample_pool 50 5)
    as (_ & Hexact & _).
  destruct (Hexact Hrange) as (bound & _ & _ & Hpaper).
  assert (generate_paper_relaxed (@rev question) sample_pool 50 5
          = Val (Some [sample_question 10 "Unit 2" 10;
                       sample_question 9 "Unit 2" 10;
                       sample_question 8 "Unit 2" 10;
                       sample_question 7 "Unit 2" 10;
                       sample_question 6 "Unit 2" 10])) as Heq
    by (vm_compute; reflexivity).
  split; [exact Hrange|]. split; [exact Heq|].
  apply (Hpaper _ Heq).
Defined.

(** C5.  The selection loop finishes: from the initial state 1000 units of
    fuel are never used up, the result is the same with any larger fuel,
    the loop runs at most 1000 iterations and at most one more than the
    size of the pool; with a pool of one question and [num_questions = 5]
    it runs at most twice.  An iteration that finds no candidate is the
    last one. *)
Theorem selection_loop_terminates :
  (forall pool total_marks num_questions caller,
      exists st how,
        primary_selection (Z.to_nat max_attempts) pool total_marks
                          num_questions caller = (st, how)
        /\ how <> NoFuel
        /\ attempts st <= 1000
        /\ attempts st <= len pool + 1
        /\ forall extra,
             primary_selection (Z.to_nat max_attempts + extra) pool total_marks
                               num_questions caller = (st, how))
  /\ (forall shuffle pool total_marks num_questions caller,
        fst (generate_paper shuffle pool total_marks num_questions caller)
        <> Diverges)
  /\ (forall q total_marks caller,
        exists st how,
          primary_selection (Z.to_nat max_attempts) [q] total_marks 5 caller
          = (st, how)
          /\ how <> NoFuel /\ attempts st <= 2)
  /\ (forall fuel questions_by_criteria num_questions st,
        loop_test num_questions st = true ->
        find_best_candidate questions_by_criteria
          (selected_questions st) (remaining_marks st)
          (unit_distribution st) (bloom_targets st)
          (num_questions - len (selected_questions st)) = Val None ->
        selection_loop (S fuel) questions_by_criteria num_questions st
        = (count_attempt st, Normal)).
Proof.
  assert (forall pool total_marks num_questions caller,
      exists st how,
        primary_selection (Z.to_nat max_attempts) pool total_marks
                          num_questions caller = (st, how)
        /\ how <> NoFuel
        /\ attempts st <= 1000
        /\ attempts st <= len pool + 1
        /\ forall extra,
             primary_selection (Z.to_nat max_attempts + extra) pool total_marks
                               num_questions caller = (st, how)) as Hmain.
  { intros pool tm nq caller.
    destruct (primary_selection (Z.to_nat max_attempts) pool tm nq caller)
      as [st how] eqn:Hprim.
    exists st, how. split; [reflexivity|].
    assert (how <> NoFuel) as Hfuel.
    { pose proof (selection_loop_enough_fuel (Z.to_nat max_attempts)
                    (organize_questions pool) nq (initial_state tm caller)) as H.
      unfold primary_selection in Hprim. rewrite Hprim in H. apply H.
      simpl. unfold max_attempts. lia. }
    split; [exact Hfuel|].
    pose proof (primary_selection_size _ _ _ _ _ _ _ Hprim) as Hsize.
    unfold primary_selection in Hprim.
    pose proof (selection_loop_attempts _ _ _ _ _ _ Hprim) as (_ & _ & Hmax).
    pose proof (selection_loop_iterations _ _ _ _ _ _ Hprim) as Hiter.
    simpl in Hmax, Hiter. unfold max_attempts in Hmax.
    split; [lia|]. split; [unfold len in *; simpl in Hiter; lia|].
    intros extra. unfold primary_selection.
    rewrite selection_loop_more_fuel; [exact Hprim|].
    rewrite Hprim. exact Hfuel. }
  split; [exact Hmain|]. split; [|split].
  - intros shuffle pool tm nq caller.
    unfold generate_paper, generate_paper_fuel.
    destruct pool as [|q pool]; [discriminate|].
    destruct (Hmain (q :: pool) tm nq caller) as (st & how & Hprim & Hfuel & _).
    rewrite Hprim. destruct how; simpl; try discriminate.
    + destruct (acceptable _ _); [discriminate|].
      destruct (generate_paper_relaxed _ _ _ _); discriminate.
    + congruence.
  - intros q tm caller.
    destruct (Hmain [q] tm 5 caller) as (st & how & Hprim & Hfuel & _ & H2 & _).
    exists st, how. unfold len in H2. simpl in H2. repeat split; auto.
  - intros fuel qbc n st Ht Hnone. simpl. rewrite Ht.
    simpl. rewrite Hnone. reflexivity.
Qed.

Lemma selection_loop_terminates_witness :
  attempts (fst (primary_selection (Z.to_nat max_attempts)
                   [sample_question 1 "Unit 1" 10] 50 5 sample_caller)) <= 2
  /\ selection_loop 1 (organize_questions [sample_question 1 "Unit 1" 10]) 5
       (mkLoop [sample_question 1 "Unit 1" 10] 40 1 ∅ ∅)
     = (mkLoop [sample_question 1 "Unit 1" 10] 40 2 ∅ ∅, Normal).
Proof.
  destruct selection_loop_terminates as (_ & _ & Hone & Hexit).
  split.
  - destruct (Hone (sample_question 1 "Unit 1" 10) 50 sample_caller)
      as (st & how & Heq & _ & Hle).
    rewrite Heq. exact Hle.
  - apply (Hexit 0%nat); vm_compute; reflexivity.
Defined.

(** C4 (as stated, refuted).  On a pool of three 5-mark "Understand"
    questions that are all selected, the caller's [bloom_distribution] still
    maps "Understand" to 100 after the call: it is not decremented by the
    marks of the selected questions. *)
Lemma bloom_distribution_not_decremented :
  let r := generate_paper (fun l => l) small_pool 15 3 small_caller in
  fst r = Returned (Some small_pool)
  /\ bloom_distribution_obj (snd r) !! "Understand" = Some 100
  /\ bloom_distribution_obj (snd r)
     <> fold_left decrement_percentage small_pool
                  (bloom_distribution_obj small_caller).
Proof.
  split; [vm_compute; reflexivity|]. split; [vm_compute; reflexivity|].
  intros H. apply (f_equal (fun m : gmap string Z => m !! "Understand")) in H.
  vm_compute in H. discriminate.
Qed.

Lemma decrement_unit_lookup (d : gmap string Z) (q : question) (k : string) :
  decrement_unit d q !! k
  = if decide (k = q_unit q) then (fun v => v - q_marks q) <$> d !! k
    else d !! k.
Proof.
  unfold decrement_unit. destruct (d !! q_unit q) as [v|] eqn:Hv.
  - destruct (decide (k = q_unit q)) as [->|Hne].
    + rewrite lookup_insert_eq, Hv. reflexivity.
    + rewrite lookup_insert_ne by congruence. reflexivity.
  - destruct (decide (k = q_unit q)) as [->|Hne]; [|reflexivity].
    rewrite Hv. reflexivity.
Qed.

Lemma decrement_bloom_lookup (d : gmap string Q) (q : question) (k : string) :
  decrement_bloom d q !! k
  = if decide (k = q_bloom_level q)
    then (fun v => (v - inject_Z (q_marks q))%Q) <$> d !! k
    else d !! k.
Proof.
  unfold decrement_bloom. destruct (d !! q_bloom_level q) as [v|] eqn:Hv.
  - destruct (decide (k = q_bloom_level q)) as [->|Hne].
    + rewrite lookup_insert_eq, Hv. reflexivity.
    + rewrite lookup_insert_ne by congruence. reflexivity.
  - destruct (decide (k = q_bloom_level q)) as [->|Hne]; [|reflexivity].
    rewrite Hv. reflexivity.
Qed.

(** C4 (amended).  After [generate_paper] the caller's [unit_distribution]
    is the original one decremented, for each question the selection loop
    selected and in selection order, by the question's marks at the
    question's unit when that key exists; the local [bloom_targets] is
    decremented in the same way at the question's level; the caller's
    [bloom_distribution] is unchanged. *)
Theorem distributions_after_selection
    (fuel : nat) (shuffle : list question -> list question)
    (pool : list question) (total_marks num_questions : Z) (caller : store)
    (st : loop_state) (how : status) :
  primary_selection fuel pool total_marks num_questions caller = (st, how) ->
  let after :=
    snd (generate_paper_fuel fuel shuffle pool total_marks num_questions caller) in
  unit_distribution_obj after
  = fold_left decrement_unit (selected_questions st)
              (unit_distribution_obj caller)
  /\ bloom_distribution_obj after = bloom_distribution_obj caller
  /\ bloom_targets st
     = fold_left decrement_bloom (selected_questions st)
         (initial_bloom_targets (bloom_distribution_obj caller) total_marks)
  /\ (forall d q k,
        decrement_unit d q !! k
        = if decide (k = q_unit q) then (fun v => v - q_marks q) <$> d !! k
          else d !! k)
  /\ (forall d q k,
        decrement_bloom d q !! k
        = if decide (k = q_bloom_level q)
          then (fun v => (v - inject_Z (q_marks q))%Q) <$> d !! k
          else d !! k).
Proof.
  intros Hprim after.
  pose proof (primary_selection_trace _ _ _ _ _ _ _ Hprim)
    as (_ & _ & Hud & Hbt & _ & _).
  pose proof (primary_selection_size _ _ _ _ _ _ _ Hprim) as Hsize.
  split; [|split; [|split; [exact Hbt|split]]].
  - subst after. unfold generate_paper_fuel.
    destruct pool as [|q pool].
    + simpl in *. destruct (selected_questions st); [reflexivity|simpl in Hsize; lia].
    + rewrite Hprim. rewrite <- Hud.
      destruct how; [destruct (acceptable _ _)| |]; reflexivity.
  - subst after. unfold generate_paper_fuel.
    destruct pool as [|q pool]; [reflexivity|].
    rewrite Hprim. destruct how; [destruct (acceptable _ _)| |]; reflexivity.
  - apply decrement_unit_lookup.
  - apply decrement_bloom_lookup.
Qed.

Lemma distributions_after_selection_witness :
  let after := snd (generate_paper (fun l => l) small_pool 15 3 small_caller) in
  unit_distribution_obj after !! "Unit 1" = Some 0
  /\ bloom_distribution_obj after = bloom_distribution_obj small_caller.
Proof.
  pose proof (distributions_after_selection (Z.to_nat max_attempts)
                (fun l => l) small_pool 15 3 small_caller
                (fst (primary_selection (Z.to_nat max_attempts) small_pool 15 3
                                        small_caller))
                Normal ltac:(vm_compute; reflexivity)) as (Hu & Hb & _).
  split.
  - unfold generate_paper. rewrite Hu. vm_compute. reflexivity.
  - exact Hb.
Defined.

(** *** Editing the current paper *)

Lemma filter_absent_id (paper : list question) (question_id : Z) :
  question_id ∉ map q_id paper ->
  List.filter (fun q => negb (q_id q =? question_id)) paper = paper.
Proof.
  induction paper as [|q paper IH]; intros Hnot; simpl; [reflexivity|].
  simpl in Hnot. apply not_elem_of_cons in Hnot as [Hne Hnot].
  destruct (q_id q =? question_id) eqn:E.
  - apply Z.eqb_eq in E. congruence.
  - simpl. now rewrite IH.
Qed.

(** C9 (as stated, refuted).  Removing id 99, which is not in the paper,
    answers success and leaves the paper as it was; no error is signalled. *)
Lemma remove_absent_succeeds :
  (99 ∉ map q_id small_pool)
  /\ remove_question small_pool 99 = (Success None, small_pool).
Proof.
  split; [|reflexivity].
  intros H. apply list_elem_of_In in H. simpl in H.
  destruct H as [H|[H|[H|[]]]]; discriminate.
Qed.

(** C9 (amended).  The remove operation always answers success; the paper it
    leaves holds the questions whose id differs from the requested one, in
    order, and is the paper unchanged when the id is absent from it. *)
Theorem remove_question_absent (paper : list question) (question_id : Z) :
  question_id ∉ map q_id paper ->
  remove_question paper question_id = (Success None, paper)
  /\ forall other_id,
       fst (remove_question paper other_id) = Success None
       /\ forall q, q ∈ snd (remove_question paper other_id)
                    <-> (q ∈ paper /\ q_id q <> other_id).
Proof.
  intros Hnot. split.
  - unfold remove_question. now rewrite filter_absent_id.
  - intros other_id. split; [reflexivity|]. intros q. simpl.
    rewrite !list_elem_of_In, filter_In, negb_true_iff, Z.eqb_neq. tauto.
Qed.

Lemma remove_question_absent_witness :
  (99 ∉ map q_id small_pool)
  /\ remove_question small_pool 99 = (Success None, small_pool).
Proof.
  assert (99 ∉ map q_id small_pool) as Hnot.
  { intros H. apply list_elem_of_In in H. simpl in H.
    destruct H as [H|[H|[H|[]]]]; discriminate. }
  split; [exact Hnot|].
  apply (remove_question_absent small_pool 99 Hnot).
Defined.

Lemma get_questions_by_filters_sound table unit bloom_level marks q :
  q ∈ get_questions_by_filters table (Some unit) (Some bloom_level) None
                               (Some marks) ->
  (q ∈ table)
  /\ (unit <> "" -> q_unit q = unit)
  /\ (bloom_level <> "" -> q_bloom_level q = bloom_level)
  /\ (marks <> 0 -> q_marks q = marks).
Proof.
  intros Hq. unfold get_questions_by_filters in Hq.
  apply list_elem_of_In, filter_In in Hq as [Hin Hq].
  unfold matches_str, matches_int, truthy_str, truthy_int in Hq.
  rewrite andb_true_r in Hq.
  apply andb_prop in Hq as [Hq Hq3]. apply andb_prop in Hq as [Hq1 Hq2].
  split; [now apply list_elem_of_In|]. split; [|split].
  - intros Hu. apply String.eqb_neq in Hu. rewrite Hu in Hq1.
    now apply String.eqb_eq.
  - intros Hb. apply String.eqb_neq in Hb. rewrite Hb in Hq2.
    now apply String.eqb_eq.
  - intros Hm. apply Z.eqb_neq in Hm. rewrite Hm in Hq3.
    now apply Z.eqb_eq.
Qed.

Lemma replace_first_spec paper question_id replacement old :
  List.find (fun q => q_id q =? question_id) paper = Some old ->
  exists i : nat,
    paper !! i = Some old
    /\ (forall j : nat, (j < i)%nat ->
          forall q, paper !! j = Some q -> q_id q <> question_id)
    /\ replace_first paper question_id replacement !! i = Some replacement
    /\ (forall j : nat, j <> i ->
          replace_first paper question_id replacement !! j = paper !! j)
    /\ length (replace_first paper question_id replacement) = length paper
    /\ total_marks_of (replace_first paper question_id replacement)
       = total_marks_of paper - q_marks old + q_marks replacement.
Proof.
  induction paper as [|q paper IH]; simpl; [discriminate|].
  destruct (q_id q =? question_id) eqn:E.
  - intros H. inversion H; subst q. exists 0%nat. simpl. repeat split.
    + intros j Hj. lia.
    + intros [|j] Hj; [congruence|reflexivity].
    + lia.
  - intros H. destruct (IH H) as (i & Hi & Hbefore & Hnew & Hother & Hlen & Hsum).
    exists (S i). simpl. repeat split; auto.
    + intros [|j] Hj q' Hq'; simpl in Hq'.
      * inversion Hq'; subst q'. now apply Z.eqb_neq.
      * apply (Hbefore j); [lia | exact Hq'].
    + intros [|j] Hj; [reflexivity|]. simpl. apply Hother. congruence.
    + lia.
Qed.


(** X24.  When [replace_question] succeeds, the new paper has the same
    length; at the first position holding the requested id it holds a
    question of the table whose id occurs nowhere in the old paper; every
    other position is unchanged; the replacement has the unit of the
    replaced question when that unit is not empty, its level when that
    level is not empty, and its marks when they are not zero; the total
    marks change by the difference of the two questions' marks. *)
Theorem replace_question_frame
    (table paper paper' : list question) (question_id : Z)
    (old replacement : question) :
  List.find (fun q => q_id q =? question_id) paper = Some old ->
  replace_question table paper question_id
  = (Success (Some replacement), paper') ->
  length paper' = length paper
  /\ (exists i : nat,
        paper !! i = Some old
        /\ (forall j : nat, (j < i)%nat ->
              forall q, paper !! j = Some q -> q_id q <> question_id)
        /\ paper' !! i = Some replacement
        /\ forall j : nat, j <> i -> paper' !! j = paper !! j)
  /\ (q_unit old <> "" -> q_unit replacement = q_unit old)
  /\ (q_bloom_level old <> "" ->
      q_bloom_level replacement = q_bloom_level old)
  /\ (q_marks old <> 0 -> q_marks replacement = q_marks old)
  /\ (q_id replacement ∉ map q_id paper)
  /\ (replacement ∈ table)
  /\ total_marks_of paper'
     = total_marks_of paper - q_marks old + q_marks replacement.
Proof.
  intros Hfind. unfold replace_question. rewrite Hfind.
  destruct (List.filter _ _) as [|r alternatives] eqn:Halt; [discriminate|].
  intros H. inversion H; subst r paper'; clear H.
  assert (In replacement
            (List.filter
               (fun q => negb (existsb (Z.eqb (q_id q)) (map q_id paper)))
               (get_questions_by_filters table (Some (q_unit old))
                  (Some (q_bloom_level old)) None (Some (q_marks old)))))
    as Hin by (rewrite Halt; now left).
  apply filter_In in Hin as [Hin Hfresh].
  apply negb_true_iff, existsb_eqb_false in Hfresh.
  apply list_elem_of_In in Hin.
  apply get_questions_by_filters_sound in Hin as (Htable & Hu' & Hb' & Hm').
  destruct (replace_first_spec paper question_id replacement old Hfind)
    as (i & Hi & Hbefore & Hnew & Hother & Hlen & Hsum).
  split; [exact Hlen|]. split; [exists i; auto|].
  repeat split; auto.
Qed.

Lemma replace_question_frame_witness :
  List.find (fun q => q_id q =? 2) small_pool
  = Some (sample_question 2 "Unit 1" 5)
  /\ replace_question small_table small_pool 2
     = (Success (Some (sample_question 4 "Unit 1" 5)),
        [sample_question 1 "Unit 1" 5; sample_question 4 "Unit 1" 5;
         sample_question 3 "Unit 1" 5])
  /\ q_marks (sample_question 4 "Unit 1" 5) = q_marks (sample_question 2 "Unit 1" 5).
Proof.
  split; [reflexivity|]. split; [reflexivity|].
  destruct (replace_question_frame small_table small_pool _ 2
              (sample_question 2 "Unit 1" 5) (sample_question 4 "Unit 1" 5)
              eq_refl eq_refl) as (_ & _ & _ & _ & Hmarks & _).
  apply Hmarks. discriminate.
Defined.

(** *** The classifier *)

Lemma keyword_score_nonneg keywords s : 0 <= keyword_score keywords s.
Proof.
  induction keywords as [|k keywords IH]; simpl; [lia|].
  destruct (search_word k s); lia.
Qed.

Lemma level_scores_counts (question_text : string) :
  level_scores (lower question_text)
  = map (fun b => (bloom_name b, count_of b question_text)) all_blooms.
Proof. reflexivity. Qed.

(** C6 (as stated, refuted).  "Select and compare the sorting algorithms."
    holds exactly one keyword of the Remember list ("select") and exactly one
    of the Understand list ("compare"); both are also keywords of Analyze,
    which scores 2, and the text classifies as Analyze. *)
Lemma one_remember_one_understand_is_analyze :
  let text := "Select and compare the sorting algorithms." in
  count_of Remember text = 1
  /\ count_of Understand text = 1
  /\ count_of Analyze text = 2
  /\ determine_bloom_level text = "Analyze"
  /\ determine_bloom_level text <> "Remember".
Proof. vm_compute. repeat split; discriminate. Qed.

(** C6 (amended).  When at least one keyword matches, the classifier returns
    a level whose keyword count is the highest, and the first such level in
    the order Remember, Understand, Apply, Analyze, Evaluate, Create; in
    particular a text whose Remember and Understand counts are both one and
    in which no level counts more than one classifies as Remember. *)
Theorem determine_bloom_level_first_max (question_text : string) :
  (exists b, 0 < count_of b question_text) ->
  (exists b,
      determine_bloom_level question_text = bloom_name b
      /\ (forall b', count_of b' question_text <= count_of b question_text)
      /\ (forall b', bloom_index b' < bloom_index b ->
                     count_of b' question_text < count_of b question_text))
  /\ (count_of Remember question_text = 1 ->
      count_of Understand question_text = 1 ->
      (forall b, count_of b question_text <= 1) ->
      determine_bloom_level question_text = "Remember").
Proof.
  intros Hsome.
  assert (forall b, 0 <= count_of b question_text) as Hnn
    by (intros b; apply keyword_score_nonneg).
  unfold determine_bloom_level. rewrite level_scores_counts.
  pose proof (Hnn Remember) as H0. pose proof (Hnn Understand) as H1.
  pose proof (Hnn Apply) as H2. pose proof (Hnn Analyze) as H3.
  pose proof (Hnn Evaluate) as H4. pose proof (Hnn Create) as H5.
  assert (0 < count_of Remember question_text
          \/ 0 < count_of Understand question_text
          \/ 0 < count_of Apply question_text
          \/ 0 < count_of Analyze question_text
          \/ 0 < count_of Evaluate question_text
          \/ 0 < count_of Create question_text) as Hpos
    by (destruct Hsome as [[] Hb]; tauto).
  clear Hsome Hnn.
  cbn [map all_blooms]. unfold max_item, max_from. cbn [snd fst].
  repeat match goal with
         | |- context [?a <? ?b] =>
             destruct (Z.ltb_spec a b); cbn [snd fst]
         end;
    match goal with
    | |- context [?a =? 0] => destruct (Z.eqb_spec a 0); [lia|]
    end;
    (split;
     [ first
         [ exists Remember; split; [reflexivity|]
         | exists Understand; split; [reflexivity|]
         | exists Apply; split; [reflexivity|]
         | exists Analyze; split; [reflexivity|]
         | exists Evaluate; split; [reflexivity|]
         | exists Create; split; [reflexivity|] ];
       split; intros []; cbn [bloom_index]; lia
     | intros Hr Hu Hle;
       pose proof (Hle Remember) as L0; pose proof (Hle Understand) as L1;
       pose proof (Hle Apply) as L2; pose proof (Hle Analyze) as L3;
       pose proof (Hle Evaluate) as L4; pose proof (Hle Create) as L5;
       first [reflexivity | lia] ]).
Qed.

Lemma determine_bloom_level_first_max_witness :
  (exists b, 0 < count_of b "Define and explain Data Structures.")
  /\ determine_bloom_level "Define and explain Data Structures." = "Remember".
Proof.
  assert (exists b, 0 < count_of b "Define and explain Data Structures.")
    as Hsome by (exists Remember; vm_compute; reflexivity).
  split; [exact Hsome|].
  apply (determine_bloom_level_first_max _ Hsome).
  - vm_compute; reflexivity.
  - vm_compute; reflexivity.
  - intros []; vm_compute; discriminate.
Defined.

(** *** The concept extractor *)

(** Every pattern consumes at least one character when it matches, so the
    scan of [findall] ends within its fuel: more fuel changes nothing. *)
Lemma span_length p s :
  String.length s
  = (String.length (fst (span p s)) + String.length (snd (span p s)))%nat.
Proof.
  induction s as [|c s IH]; simpl; [reflexivity|].
  destruct (p c); [|reflexivity].
  destruct (span p s) as [run rest]. simpl in *. lia.
Qed.

Lemma capital_word_shorter n s word rest :
  capital_word n s = Some (word, rest) ->
  (String.length rest < String.length s)%nat.
Proof.
  destruct s as [|c s]; simpl; [discriminate|].
  destruct (is_upper c); [|discriminate].
  pose proof (span_length is_lower s) as Hlen.
  destruct (span is_lower s) as [run rest0]. simpl in Hlen.
  destruct (n <=? String.length run)%nat; [|discriminate].
  intros H. inversion H; subst. lia.
Qed.

Lemma more_capital_words_shorter n acc rest matched rest' :
  more_capital_words n acc rest = Some (matched, rest') ->
  (String.length rest' <= String.length rest)%nat.
Proof.
  revert acc rest matched rest'.
  induction n as [|n IH]; intros acc rest matched rest'; simpl.
  - destruct (word_end rest); [|discriminate].
    intros H. inversion H; subst. lia.
  - pose proof (span_length is_space rest) as Hlen.
    destruct (span is_space rest) as [spaces after_spaces]. simpl in Hlen.
    assert ((if word_end rest then Some (acc, rest) else None)
            = Some (matched, rest') ->
            (String.length rest' <= String.length rest)%nat) as Hstop.
    { destruct (word_end rest); [|discriminate].
      intros H. inversion H; subst. lia. }
    destruct (is_empty spaces); [exact Hstop|].
    destruct (capital_word 1 after_spaces) as [[word rest1]|] eqn:Hw;
      [|exact Hstop].
    apply capital_word_shorter in Hw.
    destruct (more_capital_words n (acc ++ spaces ++ word)%string rest1)
      as [[m r]|] eqn:Hm; [|exact Hstop].
    apply IH in Hm. intros H. inversion H; subst. lia.
Qed.

Lemma more_words_shorter n acc rest :
  (String.length (snd (more_words n acc rest)) <= String.length rest)%nat.
Proof.
  revert acc rest. induction n as [|n IH]; intros acc rest; simpl; [lia|].
  pose proof (span_length is_space rest) as Hlen.
  destruct (span is_space rest) as [spaces after_spaces]. simpl in Hlen.
  destruct (is_empty spaces); [simpl; lia|].
  pose proof (span_length is_word after_spaces) as Hlen'.
  destruct (span is_word after_spaces) as [word rest1]. simpl in Hlen'.
  destruct (is_empty word); [simpl; lia|].
  specialize (IH (acc ++ spaces ++ word)%string rest1). lia.
Qed.

Lemma starts_with_ci_shorter prefix s rest :
  starts_with_ci prefix s = Some rest ->
  (String.length rest <= String.length s)%nat.
Proof.
  revert s. induction prefix as [|c prefix IH]; intros s; simpl.
  - intros H. inversion H; subst. lia.
  - destruct s as [|d s]; [discriminate|].
    destruct (Ascii.eqb _ _); [|discriminate].
    intros H. apply IH in H. simpl. lia.
Qed.

Lemma technical_term_consuming : consuming technical_term.
Proof.
  intros before s matched captured rest. unfold technical_term.
  destruct (boundary before (head s)); [|discriminate].
  destruct (capital_word 1 s) as [[word rest0]|] eqn:Hw; [|discriminate].
  apply capital_word_shorter in Hw.
  destruct (more_capital_words 3 word rest0) as [[m r]|] eqn:Hm;
    [|discriminate].
  apply more_capital_words_shorter in Hm.
  intros H. inversion H; subst. lia.
Qed.

Lemma long_capital_word_consuming : consuming long_capital_word.
Proof.
  intros before s matched captured rest. unfold long_capital_word.
  destruct (boundary before (head s)); [|discriminate].
  destruct (capital_word 3 s) as [[word rest0]|] eqn:Hw; [|discriminate].
  apply capital_word_shorter in Hw.
  destruct (word_end rest0); [|discriminate].
  intros H. inversion H; subst. lia.
Qed.

Lemma is_empty_false_length s : is_empty s = false -> (0 < String.length s)%nat.
Proof. destruct s; simpl; [discriminate | lia]. Qed.

Lemma marker_consuming prefix optional_sd : consuming (marker prefix optional_sd).
Proof.
  intros before s matched captured rest. unfold marker.
  destruct (starts_with_ci prefix s) as [rest0|] eqn:Hp; [|discriminate].
  apply starts_with_ci_shorter in Hp.
  set (rest1 := match rest0 with
                | String c rest' =>
                    if optional_sd
                       && (Ascii.eqb (lower_char c) "s"
                           || Ascii.eqb (lower_char c) "d")
                    then rest' else rest0
                | EmptyString => rest0
                end).
  assert (String.length rest1 <= String.length rest0)%nat as H1.
  { subst rest1. destruct rest0 as [|c r]; [lia|].
    destruct (optional_sd && _); simpl; lia. }
  pose proof (span_length is_space rest1) as Hlen.
  destruct (span is_space rest1) as [spaces after_spaces]. simpl in Hlen.
  destruct (is_empty spaces) eqn:Hs; [discriminate|].
  apply is_empty_false_length in Hs.
  pose proof (span_length is_word after_spaces) as Hlen'.
  destruct (span is_word after_spaces) as [word rest2]. simpl in Hlen'.
  destruct (is_empty word); [discriminate|].
  pose proof (more_words_shorter 2 word rest2) as Hm.
  destruct (more_words 2 word rest2) as [c r]. simpl in Hm.
  intros H. inversion H; subst. lia.
Qed.

Lemma findall_from_more_fuel pattern fuel extra before s :
  consuming pattern ->
  (String.length s < fuel)%nat ->
  findall_from (fuel + extra) pattern before s
  = findall_from fuel pattern before s.
Proof.
  intros Hc. revert before s.
  induction fuel as [|fuel IH]; intros before s Hlen; [lia|]. simpl.
  destruct (pattern before s) as [[[matched captured] rest]|] eqn:Hp.
  - apply Hc in Hp. f_equal. apply IH. lia.
  - destruct s as [|c s]; [reflexivity|]. apply IH. simpl in Hlen. lia.
Qed.

Lemma first_seen_elem (l : list string) (x : string) :
  (x ∈ first_seen l) <-> (x ∈ l).
Proof.
  induction l as [|a l IH]; simpl; [tauto|].
  rewrite !elem_of_cons, list_elem_of_In, filter_In, <- list_elem_of_In, IH.
  rewrite negb_true_iff, String.eqb_neq.
  destruct (decide (x = a)) as [->|Hne]; [tauto|].
  split; [tauto|]. intros [?|?]; [tauto|]. right. split; congruence.
Qed.

Lemma first_seen_NoDup (l : list string) : NoDup (first_seen l).
Proof.
  induction l as [|a l IH]; simpl; [constructor|].
  apply NoDup_cons. split.
  - rewrite list_elem_of_In, filter_In, negb_true_iff, String.eqb_neq. tauto.
  - apply NoDup_ListNoDup, List.NoDup_filter, NoDup_ListNoDup, IH.
Qed.

Lemma first_seen_listing : set_listing first_seen.
Proof.
  intros l. split; [apply first_seen_NoDup | apply first_seen_elem].
Qed.

Lemma last_seen_first_listing : set_listing last_seen_first.
Proof.
  intros l. unfold last_seen_first. split.
  - rewrite <- Permutation_rev. apply first_seen_NoDup.
  - intros x. rewrite <- Permutation_rev. apply first_seen_elem.
Qed.

(** C8 (as stated, refuted).  On the text "Linked List" the extractor
    returns the three concepts in one order when the set iterates in order
    of first occurrence and in the opposite order when it iterates the other
    way round: the ordered result is not determined by the text alone. *)
Lemma concept_order_follows_set_order :
  set_listing first_seen
  /\ set_listing last_seen_first
  /\ extract_key_concepts first_seen "Linked List"
     = ["Linked List"; "Linked"; "List"]
  /\ extract_key_concepts last_seen_first "Linked List"
     = ["List"; "Linked"; "Linked List"]
  /\ extract_key_concepts first_seen "Linked List"
     <> extract_key_concepts last_seen_first "Linked List".
Proof.
  split; [apply first_seen_listing|]. split; [apply last_seen_first_listing|].
  split; [vm_compute; reflexivity|]. split; [vm_compute; reflexivity|].
  vm_compute. discriminate.
Qed.

Lemma cleaned_concepts_long (text c : string) :
  c ∈ cleaned_concepts text -> (3 < String.length c)%nat.
Proof.
  unfold cleaned_concepts. intros H.
  apply list_elem_of_In, in_map_iff in H as (c0 & <- & H).
  apply filter_In in H as [_ H]. now apply Nat.ltb_lt in H.
Qed.

(** C8 (amended).  For a given iteration order of the de-duplicating set the
    extractor returns at most 15 strings, without repetition, each a cleaned
    candidate longer than 3 characters; the result depends on the text and
    on that iteration order only; two iteration orders give the same
    strings up to order when there are at most 15 distinct candidates. *)
Theorem extract_key_concepts_determined
    (order1 order2 : list string -> list string) (text : string) :
  set_listing order1 -> set_listing order2 ->
  (length (extract_key_concepts order1 text) <= 15)%nat
  /\ NoDup (extract_key_concepts order1 text)
  /\ (forall c, c ∈ extract_key_concepts order1 text ->
                (c ∈ cleaned_concepts text) /\ (3 < String.length c)%nat)
  /\ ((forall l, order1 l = order2 l) ->
      extract_key_concepts order1 text = extract_key_concepts order2 text)
  /\ ((length (order1 (cleaned_concepts text)) <= 15)%nat ->
      extract_key_concepts order1 text ≡ₚ extract_key_concepts order2 text).
Proof.
  intros H1 H2. unfold extract_key_concepts.
  destruct (H1 (cleaned_concepts text)) as [Hnd1 Hin1].
  destruct (H2 (cleaned_concepts text)) as [Hnd2 Hin2].
  repeat split.
  - rewrite length_take. lia.
  - eapply sublist_NoDup; [exact Hnd1 | apply sublist_take].
  - apply Hin1. eapply elem_of_sublist; [exact H | apply sublist_take].
  - apply (cleaned_concepts_long text), Hin1.
    eapply elem_of_sublist; [exact H | apply sublist_take].
  - intros Heq. now rewrite Heq.
  - intros Hlen.
    assert (order1 (cleaned_concepts text) ≡ₚ order2 (cleaned_concepts text))
      as Hperm.
    { apply NoDup_Permutation; auto. intros x. rewrite Hin1, Hin2. tauto. }
    rewrite !take_ge; [exact Hperm | | exact Hlen].
    rewrite <- Hperm. exact Hlen.
Qed.

Lemma extract_key_concepts_determined_witness :
  set_listing first_seen
  /\ set_listing last_seen_first
  /\ extract_key_concepts first_seen "Linked List"
     ≡ₚ extract_key_concepts last_seen_first "Linked List".
Proof.
  split; [apply first_seen_listing|]. split; [apply last_seen_first_listing|].
  apply (extract_key_concepts_determined first_seen last_seen_first
           "Linked List" first_seen_listing last_seen_first_listing).
  vm_compute. lia.
Defined.

(** ** Further properties of the assembler *)

Lemma Qlt_bool_iff (x y : Q) : Qlt_bool x y = true <-> (x < y)%Q.
Proof.
  unfold Qlt_bool. rewrite negb_true_iff. split.
  - intros H. apply Qnot_le_lt. intros Hle.
    apply Qle_bool_iff in Hle. congruence.
  - intros H. destruct (Qle_bool y x) eqn:E; [|reflexivity].
    apply Qle_bool_iff in E. exfalso. exact (Qlt_not_le _ _ H E).
Qed.

Lemma Qlt_bool_false (x y : Q) : Qlt_bool x y = false <-> (y <= x)%Q.
Proof.
  unfold Qlt_bool. rewrite negb_false_iff. apply Qle_bool_iff.
Qed.

Lemma selection_loop_count fuel qbc n st st' how :
  selection_loop fuel qbc n st = (st', how) ->
  len (selected_questions st') <= Z.max (len (selected_questions st)) n.
Proof.
  revert st. induction fuel as [|fuel IH]; intros st H; simpl in H.
  - destruct (loop_test n st); inversion H; subst; lia.
  - destruct (loop_test n st) eqn:Ht; [|inversion H; subst; lia].
    unfold loop_test in Ht. apply andb_prop in Ht as [Ht _].
    apply andb_prop in Ht as [Ht _]. apply Z.ltb_lt in Ht.
    destruct (find_best_candidate _ _ _ _ _ _) as [[c|]|e].
    + apply IH in H. simpl in H. unfold len in *.
      rewrite length_app in H. simpl in H. lia.
    + inversion H; subst; simpl; lia.
    + inversion H; subst; simpl; lia.
Qed.

Lemma selection_loop_started fuel qbc n st st' how :
  selection_loop fuel qbc n st = (st', how) ->
  selected_questions st' <> selected_questions st ->
  0 < remaining_marks st.
Proof.
  intros H Hne.
  destruct (loop_test n st) eqn:Ht.
  - unfold loop_test in Ht. apply andb_prop in Ht as [Ht _].
    apply andb_prop in Ht as [_ Ht]. now apply Z.ltb_lt in Ht.
  - destruct fuel; simpl in H; rewrite Ht in H; inversion H; subst; congruence.
Qed.

Lemma budget_respected_total remaining l :
  budget_respected remaining l -> l <> [] -> total_marks_of l <= remaining.
Proof.
  revert remaining. induction l as [|q l IH]; intros remaining H Hne; [easy|].
  simpl in *. destruct H as [Hq Hl].
  destruct l as [|q' l']; [simpl; lia|].
  specialize (IH _ Hl ltac:(discriminate)). simpl in *. lia.
Qed.

Lemma relaxed_loop_count available tm tc selected total r :
  relaxed_loop available tm tc selected total = Val r ->
  len r <= Z.max (len selected) tc.
Proof.
  revert selected total.
  induction available as [|q rest IH]; intros selected total; simpl.
  { intros H. inversion H. lia. }
  destruct (tc <=? len selected) eqn:Hfull; [intros H; inversion H; lia|].
  apply Z.leb_gt in Hfull.
  destruct (int_times_float tm float_1_1) as [bound|e]; [|discriminate].
  destruct (int_le_float _ _); intros H; apply IH in H.
  - unfold len in *. rewrite length_app in H. simpl in H. lia.
  - lia.
Qed.

(** X1.  A paper returned by [generate_paper] holds only questions of the
    pool, and between 3 and [num_questions] of them. *)
Theorem generate_paper_from_pool
    (shuffle : list question -> list question) (pool paper : list question)
    (total_marks num_questions : Z) (caller : store) :
  shuffle pool ≡ₚ pool ->
  fst (generate_paper shuffle pool total_marks num_questions caller)
  = Returned (Some paper) ->
  (forall q, q ∈ paper -> q ∈ pool)
  /\ 3 <= len paper <= num_questions.
Proof.
  intros Hshuffle. unfold generate_paper, generate_paper_fuel.
  destruct pool as [|q0 pool]; [discriminate|].
  destruct (primary_selection _ _ _ _ _) as [st how] eqn:Hprim.
  pose proof (primary_selection_trace _ _ _ _ _ _ _ Hprim)
    as (_ & _ & _ & _ & _ & Hin).
  unfold primary_selection in Hprim.
  apply selection_loop_count in Hprim. simpl in Hprim.
  destruct how; simpl; try discriminate.
  destruct (acceptable _ _) eqn:Hacc.
  - intros H. inversion H; subst paper. split; [exact Hin|].
    apply max3_le in Hacc. unfold len in *. simpl in *. lia.
  - unfold generate_paper_relaxed.
    destruct (relaxed_loop _ _ _ _ _) as [selected|e] eqn:Hloop;
      [|discriminate].
    pose proof (relaxed_loop_count _ _ _ _ _ _ Hloop) as Hcount.
    apply relaxed_loop_sub in Hloop as (new & -> & Hsub).
    simpl in *.
    destruct (3 <=? len new) eqn:H3; [|discriminate].
    apply Z.leb_le in H3.
    intros H. inversion H; subst paper. split.
    + intros q Hq. rewrite <- Hshuffle. eapply elem_of_sublist; eauto.
    + unfold len in *. simpl in *. lia.
Qed.

Lemma generate_paper_from_pool_witness :
  rev sample_pool ≡ₚ sample_pool
  /\ 3 <= len [sample_question 1 "Unit 1" 10; sample_question 6 "Unit 2" 10;
               sample_question 2 "Unit 1" 10; sample_question 7 "Unit 2" 10;
               sample_question 3 "Unit 1" 10] <= 5.
Proof.
  assert (rev sample_pool ≡ₚ sample_pool) as Hperm
    by (symmetry; apply Permutation_rev).
  split; [exact Hperm|].
  apply (generate_paper_from_pool (@rev question) sample_pool _ 50 5
           sample_caller Hperm).
  vm_compute. reflexivity.
Defined.

(** X2.  For a target between 0 and 2^48, the questions of a paper
    returned by [generate_paper] total at most 1.1 times [total_marks]; a
    paper accepted from the primary strategy totals at most [total_marks],
    whatever the target. *)
Theorem generate_paper_total_bound
    (shuffle : list question -> list question) (pool paper : list question)
    (total_marks num_questions : Z) (caller : store) :
  fst (generate_paper shuffle pool total_marks num_questions caller)
  = Returned (Some paper) ->
  (0 <= total_marks <= 2 ^ 48 ->
   10 * total_marks_of paper <= 11 * total_marks)
  /\ (forall st,
        primary_selection (Z.to_nat max_attempts) pool total_marks
                          num_questions caller = (st, Normal) ->
        acceptable (selected_questions st) num_questions = true ->
        paper = selected_questions st
        /\ total_marks_of paper <= total_marks).
Proof.
  unfold generate_paper, generate_paper_fuel.
  destruct pool as [|q0 pool]; [discriminate|].
  destruct (primary_selection _ _ _ _ _) as [st how] eqn:Hprim.
  pose proof (primary_selection_trace _ _ _ _ _ _ _ Hprim)
    as (Hbud & _ & _ & _ & _ & _).
  assert (selected_questions st <> [] ->
          total_marks_of (selected_questions st) <= total_marks
          /\ 0 < total_marks) as Hsel.
  { intros Hne. split; [now apply budget_respected_total|].
    unfold primary_selection in Hprim.
    apply selection_loop_started in Hprim; [exact Hprim|exact Hne]. }
  destruct how; simpl; try discriminate.
  destruct (acceptable _ _) eqn:Hacc.
  - intros H. inversion H; subst paper.
    assert (selected_questions st <> []) as Hne.
    { apply max3_le in Hacc. intros E. rewrite E in Hacc.
      unfold len in Hacc. simpl in Hacc. lia. }
    destruct (Hsel Hne). split; [lia|].
    intros st' Hst' _. inversion Hst'; subst st'. split; [reflexivity|lia].
  - intros H. split.
    + intros Hrange.
      destruct (overage_test_exact total_marks Hrange)
        as (bound & Hbound & Hexact).
      unfold generate_paper_relaxed in H.
      destruct (relaxed_loop_trace (shuffle (q0 :: pool)) total_marks
                  num_questions [] 0 bound Hbound) as (new & Heq & _ & Hov).
      rewrite Heq in H. simpl in H.
      destruct (3 <=? len new) eqn:H3; [|discriminate].
      apply Z.leb_le in H3. inversion H; subst paper.
      apply (within_overage_total _ 0 _
               (within_bound_overage bound _ 0 new Hexact Hov)).
      intros ->. unfold len in H3. simpl in H3. lia.
    + intros st' Hst' Hacc'. inversion Hst'; subst st'. congruence.
Qed.

Lemma generate_paper_total_bound_witness :
  0 <= 50 <= 2 ^ 48
  /\ 10 * total_marks_of [sample_question 1 "Unit 1" 10;
                          sample_question 6 "Unit 2" 10;
                          sample_question 2 "Unit 1" 10;
                          sample_question 7 "Unit 2" 10;
                          sample_question 3 "Unit 1" 10] <= 11 * 50.
Proof.
  assert (0 <= 50 <= 2 ^ 48) as Hrange
    by (split; [discriminate|vm_compute; discriminate]).
  split; [exact Hrange|].
  apply (generate_paper_total_bound (@rev question) sample_pool _ 50 5
           sample_caller); [vm_compute; reflexivity | exact Hrange].
Defined.

Lemma inject_Z_nonzero (z : Z) : z <> 0 -> Qeq_bool (inject_Z z) 0 = false.
Proof.
  intros Hz. destruct (Qeq_bool (inject_Z z) 0) eqn:E; [|reflexivity].
  apply Qeq_bool_iff in E. unfold Qeq, inject_Z in E. simpl in E. lia.
Qed.

Lemma calculate_fitness_score_returns q ud bt rem :
  q_marks q <> 0 -> rem <> 0 ->
  exists score, calculate_fitness_score q ud bt rem = Val score.
Proof.
  intros Hm Hr. unfold calculate_fitness_score, true_div.
  rewrite (inject_Z_nonzero _ Hm), (inject_Z_nonzero _ Hr).
  destruct (ud !! q_unit q) as [need|]; [destruct (0 <? need)|];
    (destruct (bt !! q_bloom_level q) as [bneed|];
     [destruct (Qlt_bool 0 bneed)|]); eauto.
Qed.

Lemma collect_candidates_returns visited ids rem ud bt :
  (forall q, q ∈ visited -> q_marks q <> 0) -> rem <> 0 ->
  exists cs, collect_candidates visited ids rem ud bt = Val cs.
Proof.
  intros Hm Hr. induction visited as [|q rest IH]; simpl; [eauto|].
  destruct IH as [cs Hcs]; [intros q' Hq'; apply Hm; now right|].
  rewrite Hcs.
  destruct (existsb _ _); [eauto|]. destruct (rem <? q_marks q); [eauto|].
  destruct (calculate_fitness_score_returns q ud bt rem) as [score Hs];
    [apply Hm; now left | exact Hr |].
  rewrite Hs. eauto.
Qed.

Lemma find_best_candidate_returns qbc selected rem ud bt rc :
  (forall q, q ∈ flat_map snd qbc -> q_marks q <> 0) -> rem <> 0 ->
  exists r, find_best_candidate qbc selected rem ud bt rc = Val r.
Proof.
  intros Hm Hr. unfold find_best_candidate.
  destruct (collect_candidates_returns (flat_map snd qbc) (map q_id selected)
              rem ud bt Hm Hr) as [cs Hcs].
  rewrite Hcs. destruct (sort_desc cs); eauto.
Qed.

Lemma selection_loop_no_raise fuel qbc n st e :
  (forall q, q ∈ flat_map snd qbc -> q_marks q <> 0) ->
  snd (selection_loop fuel qbc n st) <> Raises e.
Proof.
  intros Hm. revert st. induction fuel as [|fuel IH]; intros st; simpl.
  - destruct (loop_test n st); simpl; discriminate.
  - destruct (loop_test n st) eqn:Ht; [|simpl; discriminate].
    unfold loop_test in Ht. apply andb_prop in Ht as [Ht _].
    apply andb_prop in Ht as [_ Ht]. apply Z.ltb_lt in Ht.
    destruct (find_best_candidate_returns qbc
                (selected_questions st) (remaining_marks st)
                (unit_distribution st) (bloom_targets st)
                (n - len (selected_questions st)) Hm)
      as [r Hr]; [lia|].
    rewrite Hr. destruct r as [c|]; [apply IH | simpl; discriminate].
Qed.

Lemma relaxed_loop_raises available tm tc selected total e :
  relaxed_loop available tm tc selected total = Exc e -> e = OverflowError.
Proof.
  revert selected total.
  induction available as [|q rest IH]; intros selected total; simpl;
    [discriminate|].
  destruct (tc <=? len selected); [discriminate|].
  destruct (int_times_float tm float_1_1) as [bound|e'] eqn:Hb.
  - destruct (int_le_float _ _); apply IH.
  - intros H. inversion H; subst e'. now apply int_times_float_raises in Hb.
Qed.

(** X3.  [ZeroDivisionError] needs a question with zero marks: when no
    question of the pool has zero marks, [generate_paper] does not raise
    it (the divisor [remaining_marks] is positive whenever a score is
    computed); a question with zero marks whose unit still needs marks
    makes the scoring raise it. *)
Theorem generate_paper_zero_division
    (shuffle : list question -> list question) (pool : list question)
    (total_marks num_questions : Z) (caller : store) :
  (forall q, q ∈ pool -> q_marks q <> 0) ->
  fst (generate_paper shuffle pool total_marks num_questions caller)
  <> Raised ZeroDivisionError
  /\ (forall q (ud : gmap string Z) (bt : gmap string Q) rem need,
        q_marks q = 0 -> ud !! q_unit q = Some need -> 0 < need ->
        calculate_fitness_score q ud bt rem = Exc ZeroDivisionError).
Proof.
  intros Hm. split.
  - unfold generate_paper, generate_paper_fuel.
    destruct pool as [|q0 pool]; [discriminate|].
    destruct (primary_selection _ _ _ _ _) as [st how] eqn:Hprim.
    unfold primary_selection in Hprim.
    assert (forall q, q ∈ flat_map snd (organize_questions (q0 :: pool)) ->
                      q_marks q <> 0) as Hm'.
    { intros q Hq. apply Hm. now rewrite <- (organize_questions_flat (q0 :: pool)). }
    destruct how; cbn [fst].
    + destruct (acceptable _ _); [discriminate|].
      unfold generate_paper_relaxed.
      destruct (relaxed_loop _ _ _ _ _) as [selected|e] eqn:Hloop;
        [discriminate|].
      apply relaxed_loop_raises in Hloop as ->. discriminate.
    + exfalso.
      apply (selection_loop_no_raise (Z.to_nat max_attempts)
               (organize_questions (q0 :: pool)) num_questions
               (initial_state total_marks caller) e Hm').
      now rewrite Hprim.
    + discriminate.
  - intros q ud bt rem need Hz Hu Hneed.
    unfold calculate_fitness_score, true_div. rewrite Hu.
    apply Z.ltb_lt in Hneed. rewrite Hneed, Hz. reflexivity.
Qed.

Lemma generate_paper_zero_division_witness :
  (forall q, q ∈ small_pool -> q_marks q <> 0)
  /\ fst (generate_paper (fun l => l) small_pool 15 3 small_caller)
     <> Raised ZeroDivisionError.
Proof.
  assert (forall q, q ∈ small_pool -> q_marks q <> 0) as Hm.
  { intros q Hq. apply list_elem_of_In in Hq. simpl in Hq.
    destruct Hq as [<-|[<-|[<-|[]]]]; discriminate. }
  split; [exact Hm|].
  apply (generate_paper_zero_division (fun l => l) small_pool 15 3
           small_caller Hm).
Defined.

Lemma fold_decrement_unit_lookup (l : list question) (d : gmap string Z)
    (u : string) :
  fold_left decrement_unit l d !! u
  = (fun v => v - total_marks_of (in_unit u l)) <$> d !! u.
Proof.
  revert d. induction l as [|q l IH]; intros d; simpl.
  - destruct (d !! u); simpl; [f_equal; lia | reflexivity].
  - rewrite IH, decrement_unit_lookup. unfold in_unit. simpl.
    destruct (decide (u = q_unit q)) as [->|Hne].
    + rewrite String.eqb_refl. simpl.
      destruct (d !! q_unit q); simpl; [f_equal; lia | reflexivity].
    + assert (String.eqb (q_unit q) u = false) as ->
        by (apply String.eqb_neq; congruence).
      reflexivity.
Qed.

Lemma generate_paper_fuel_unit_obj fuel shuffle pool tm nq caller st how :
  primary_selection fuel pool tm nq caller = (st, how) ->
  unit_distribution_obj (snd (generate_paper_fuel fuel shuffle pool tm nq caller))
  = fold_left decrement_unit (selected_questions st)
              (unit_distribution_obj caller).
Proof.
  intros Hprim.
  pose proof (primary_selection_trace _ _ _ _ _ _ _ Hprim)
    as (_ & _ & Hud & _ & _ & _).
  pose proof (primary_selection_size _ _ _ _ _ _ _ Hprim) as Hsize.
  unfold generate_paper_fuel. destruct pool as [|q pool].
  - simpl in *. destruct (selected_questions st); [reflexivity|simpl in Hsize; lia].
  - rewrite Hprim, <- Hud.
    destruct how; [destruct (acceptable _ _)| |]; reflexivity.
Qed.

(** X5.  After [generate_paper] each unit key of the caller's
    [unit_distribution] maps to its original value minus the marks of the
    questions of that unit selected by the primary strategy, and no key is
    added or removed; this holds also when the primary selection is
    discarded and the fallback's paper is returned. *)
Theorem unit_distribution_accounting
    (fuel : nat) (shuffle : list question -> list question)
    (pool : list question) (total_marks num_questions : Z) (caller : store)
    (st : loop_state) (how : status) (u : string) :
  primary_selection fuel pool total_marks num_questions caller = (st, how) ->
  unit_distribution_obj
    (snd (generate_paper_fuel fuel shuffle pool total_marks num_questions caller))
  !! u
  = (fun v => v - total_marks_of (in_unit u (selected_questions st)))
      <$> unit_distribution_obj caller !! u.
Proof.
  intros Hprim.
  rewrite (generate_paper_fuel_unit_obj _ _ _ _ _ _ _ _ Hprim).
  apply fold_decrement_unit_lookup.
Qed.

Lemma unit_distribution_accounting_witness :
  unit_distribution_obj
    (snd (generate_paper (@rev question) sample_pool 50 8 sample_caller))
  !! "Unit 1" = Some (-5)
  /\ fst (generate_paper (@rev question) sample_pool 50 8 sample_caller)
     = Returned (Some [sample_question 10 "Unit 2" 10;
                       sample_question 9 "Unit 2" 10;
                       sample_question 8 "Unit 2" 10;
                       sample_question 7 "Unit 2" 10;
                       sample_question 6 "Unit 2" 10]).
Proof.
  split; [|vm_compute; reflexivity].
  unfold generate_paper.
  rewrite (unit_distribution_accounting (Z.to_nat max_attempts)
             (@rev question) sample_pool 50 8 sample_caller
             (fst (primary_selection (Z.to_nat max_attempts) sample_pool 50 8
                                     sample_caller))
             Normal "Unit 1" ltac:(vm_compute; reflexivity)).
  vm_compute. reflexivity.
Defined.

Lemma criteria_eqb_eq (a b : criteria) : criteria_eqb a b = true <-> a = b.
Proof.
  destruct a as [[u1 m1] b1], b as [[u2 m2] b2]. unfold criteria_eqb.
  rewrite !andb_true_iff, !String.eqb_eq, Z.eqb_eq.
  split; [intros [[-> ->] ->]; reflexivity | intros H; inversion H; auto].
Qed.

Lemma criteria_eqb_refl (a : criteria) : criteria_eqb a a = true.
Proof. now apply criteria_eqb_eq. Qed.

Lemma group_of_append organized key q k :
  group_of k (organized_append organized key q)
  = if criteria_eqb key k then group_of k organized ++ [q]
    else group_of k organized.
Proof.
  induction organized as [|[k0 l0] rest IH]; simpl.
  - destruct (criteria_eqb key k); reflexivity.
  - destruct (criteria_eqb k0 key) eqn:E0; simpl.
    + apply criteria_eqb_eq in E0. subst k0.
      destruct (criteria_eqb key k); reflexivity.
    + destruct (criteria_eqb k0 k) eqn:E1; [|exact IH].
      apply criteria_eqb_eq in E1. subst k0.
      destruct (criteria_eqb key k) eqn:E2; [|reflexivity].
      apply criteria_eqb_eq in E2. subst key.
      rewrite criteria_eqb_refl in E0. discriminate.
Qed.

Lemma keys_of_append organized key q k :
  (k ∈ map fst (organized_append organized key q))
  <-> (k = key \/ k ∈ map fst organized).
Proof.
  induction organized as [|[k0 l0] rest IH]; simpl.
  - rewrite list_elem_of_singleton. split; [tauto|].
    intros [?|H]; [easy|inversion H].
  - destruct (criteria_eqb k0 key) eqn:E0; simpl.
    + apply criteria_eqb_eq in E0. subst k0. rewrite !elem_of_cons. tauto.
    + rewrite !elem_of_cons, IH. tauto.
Qed.

Lemma keys_of_append_NoDup organized key q :
  NoDup (map fst organized) ->
  NoDup (map fst (organized_append organized key q)).
Proof.
  induction organized as [|[k0 l0] rest IH]; simpl; intros Hnd.
  - apply NoDup_singleton.
  - apply NoDup_cons in Hnd as [Hk0 Hnd].
    destruct (criteria_eqb k0 key) eqn:E0; simpl.
    + apply NoDup_cons. split; assumption.
    + apply NoDup_cons. split; [|now apply IH].
      rewrite keys_of_append. intros [->|H]; [|contradiction].
      rewrite criteria_eqb_refl in E0. discriminate.
Qed.

(** X6.  [organize_questions] files every question of the pool under its
    own (unit, marks, level) key and nowhere else: the group of a key is
    the list of the pool's questions with that key, in pool order; no key
    is listed twice, and the keys are those of the pool's questions. *)
Theorem organize_questions_groups (pool : list question) :
  (forall key,
      group_of key (organize_questions pool)
      = List.filter (fun q => criteria_eqb (criteria_of q) key) pool)
  /\ NoDup (map fst (organize_questions pool))
  /\ (forall key,
        (key ∈ map fst (organize_questions pool))
        <-> (exists q, (q ∈ pool) /\ criteria_of q = key)).
Proof.
  unfold organize_questions.
  enough (forall organized done,
             (forall key, group_of key organized
                          = List.filter
                              (fun q => criteria_eqb (criteria_of q) key) done) ->
             NoDup (map fst organized) ->
             (forall key, (key ∈ map fst organized)
                          <-> (exists q, (q ∈ done) /\ criteria_of q = key)) ->
             let organized' :=
               fold_left (fun o q => organized_append o (criteria_of q) q)
                         pool organized in
             (forall key, group_of key organized'
                          = List.filter
                              (fun q => criteria_eqb (criteria_of q) key)
                              (done ++ pool))
             /\ NoDup (map fst organized')
             /\ (forall key, (key ∈ map fst organized')
                             <-> (exists q, (q ∈ done ++ pool)
                                            /\ criteria_of q = key))) as H.
  { apply (H [] []).
    - reflexivity.
    - constructor.
    - intros key. simpl. split; [intros H'; inversion H'|].
      intros (q & Hq & _). inversion Hq. }
  induction pool as [|q pool IH]; intros organized done Hg Hnd Hk; simpl.
  - rewrite app_nil_r. auto.
  - replace (done ++ q :: pool) with ((done ++ [q]) ++ pool)
      by (rewrite <- app_assoc; reflexivity).
    apply IH.
    + intros key. rewrite group_of_append, List.filter_app, Hg.
      cbn [List.filter].
      destruct (criteria_eqb (criteria_of q) key);
        [reflexivity | now rewrite app_nil_r].
    + now apply keys_of_append_NoDup.
    + intros key. rewrite keys_of_append, Hk. split.
      * intros [->|(q' & Hq' & Hkey)].
        -- exists q. split; [|reflexivity]. apply elem_of_app. right. now left.
        -- exists q'. split; [|exact Hkey]. apply elem_of_app. now left.
      * intros (q' & Hq' & Hkey). apply elem_of_app in Hq' as [Hq'|Hq'].
        -- right. eauto.
        -- apply list_elem_of_singleton in Hq'. subst q'. now left.
Qed.

Lemma sort_desc_nil (cs : list (Q * question)) : sort_desc cs = [] -> cs = [].
Proof.
  destruct cs as [|a l]; [reflexivity|]. simpl.
  destruct (sort_desc l) as [|y t]; simpl; [discriminate|].
  destruct (Qlt_bool (fst a) (fst y)); discriminate.
Qed.

Lemma collect_candidates_nil visited ids rem ud bt :
  collect_candidates visited ids rem ud bt = Val [] ->
  forall q, q ∈ visited -> (q_id q ∈ ids) \/ rem < q_marks q.
Proof.
  induction visited as [|q0 rest IH]; intros H q Hq; [inversion Hq|].
  simpl in H.
  destruct (existsb (Z.eqb (q_id q0)) ids) eqn:Hsel.
  { apply elem_of_cons in Hq as [->|Hq]; [|now apply IH].
    left. apply existsb_exists in Hsel as (x & Hx & Heq).
    apply Z.eqb_eq in Heq. subst x. now apply list_elem_of_In. }
  destruct (rem <? q_marks q0) eqn:Hfit.
  { apply elem_of_cons in Hq as [->|Hq]; [|now apply IH].
    right. now apply Z.ltb_lt. }
  destruct (calculate_fitness_score q0 ud bt rem); [|discriminate].
  destruct (collect_candidates rest ids rem ud bt); discriminate.
Qed.

Lemma find_best_candidate_none qbc selected rem ud bt rc :
  find_best_candidate qbc selected rem ud bt rc = Val None ->
  forall q, q ∈ flat_map snd qbc ->
            (q_id q ∈ map q_id selected) \/ rem < q_marks q.
Proof.
  unfold find_best_candidate.
  destruct (collect_candidates _ _ _ _ _) as [cs|e] eqn:Hc; [|discriminate].
  destruct (sort_desc cs) as [|best l] eqn:Hs; [|discriminate].
  apply sort_desc_nil in Hs. subst cs. intros _.
  now apply (collect_candidates_nil _ _ _ _ _ Hc).
Qed.

Lemma collect_candidates_filtered visited ids rem ud bt :
  (forall q, q ∈ visited -> (q_id q ∈ ids) \/ rem < q_marks q) ->
  collect_candidates visited ids rem ud bt = Val [].
Proof.
  induction visited as [|q rest IH]; intros H; simpl; [reflexivity|].
  rewrite IH by (intros q' Hq'; apply H; now right).
  destruct (H q ltac:(now left)) as [Hsel|Hfit].
  - assert (existsb (Z.eqb (q_id q)) ids = true) as ->; [|reflexivity].
    apply existsb_exists. exists (q_id q). split; [|apply Z.eqb_refl].
    now apply list_elem_of_In.
  - destruct (existsb (Z.eqb (q_id q)) ids); [reflexivity|].
    apply Z.ltb_lt in Hfit. now rewrite Hfit.
Qed.

(** X4.  [find_best_candidate] chooses among the questions that are not yet
    selected and cost at most the remaining marks: a question it returns is
    one of them, and it returns [None] exactly when there is none.  (Which
    of them it returns follows the scores; that is not stated here.) *)
Theorem find_best_candidate_contract
    (qbc : list (criteria * list question)) (selected : list question)
    (rem : Z) (ud : gmap string Z) (bt : gmap string Q) (rc : Z) :
  (forall c,
      find_best_candidate qbc selected rem ud bt rc = Val (Some c) ->
      (c ∈ flat_map snd qbc) /\ (q_id c ∉ map q_id selected)
      /\ q_marks c <= rem)
  /\ (find_best_candidate qbc selected rem ud bt rc = Val None
      <-> forall q, q ∈ flat_map snd qbc ->
                    (q_id q ∈ map q_id selected) \/ rem < q_marks q).
Proof.
  split; [intros c; apply find_best_candidate_sound|]. split.
  - apply find_best_candidate_none.
  - intros H. unfold find_best_candidate.
    now rewrite (collect_candidates_filtered _ _ _ _ _ H).
Qed.

Lemma selection_loop_exhaustive fuel qbc n st st' :
  selection_loop fuel qbc n st = (st', Normal) ->
  loop_test n st' = false
  \/ forall q, q ∈ flat_map snd qbc ->
               (q_id q ∈ map q_id (selected_questions st'))
               \/ remaining_marks st' < q_marks q.
Proof.
  revert st. induction fuel as [|fuel IH]; intros st H; simpl in H.
  - destruct (loop_test n st) eqn:Ht; inversion H; subst. now left.
  - destruct (loop_test n st) eqn:Ht; [|inversion H; subst; now left].
    destruct (find_best_candidate _ _ _ _ _ _) as [[c|]|e] eqn:Hf.
    + now apply IH in H.
    + inversion H; subst. right. simpl.
      now apply (find_best_candidate_none _ _ _ _ _ _ Hf).
    + discriminate.
Qed.

(** X7.  When the selection loop ends normally it has reached
    [num_questions], or used up the marks, or made 1000 attempts, or no
    question is left to take: every question of the pool is already
    selected or costs more than the marks remaining. *)
Theorem selection_stops_only_when_done
    (fuel : nat) (pool : list question) (total_marks num_questions : Z)
    (caller : store) (st : loop_state) :
  primary_selection fuel pool total_marks num_questions caller = (st, Normal) ->
  num_questions <= len (selected_questions st)
  \/ remaining_marks st <= 0
  \/ max_attempts <= attempts st
  \/ forall q, q ∈ pool ->
               (q_id q ∈ map q_id (selected_questions st))
               \/ remaining_marks st < q_marks q.
Proof.
  unfold primary_selection. intros H.
  apply selection_loop_exhaustive in H as [Ht|Hnone].
  - unfold loop_test in Ht.
    apply andb_false_iff in Ht as [Ht|Ht];
      [apply andb_false_iff in Ht as [Ht|Ht]|]; apply Z.ltb_ge in Ht; auto.
  - right. right. right. intros q Hq. apply Hnone.
    now rewrite (organize_questions_flat pool).
Qed.

Lemma selection_stops_only_when_done_witness :
  let st := fst (primary_selection 10 small_pool 12 5 small_caller) in
  map q_id (selected_questions st) = [1; 2]
  /\ (5 <= len (selected_questions st)
      \/ remaining_marks st <= 0
      \/ max_attempts <= attempts st
      \/ forall q, q ∈ small_pool ->
                   (q_id q ∈ map q_id (selected_questions st))
                   \/ remaining_marks st < q_marks q).
Proof.
  split; [vm_compute; reflexivity|].
  apply (selection_stops_only_when_done 10 small_pool 12 5 small_caller).
  vm_compute. reflexivity.
Defined.

(** ** Further properties: the validator *)

Lemma filter_length_le {A : Type} (f : A -> bool) (l : list A) :
  (length (List.filter f l) <= length l)%nat.
Proof.
  induction l as [|x l IH]; simpl; [lia|]. destruct (f x); simpl; lia.
Qed.

Lemma filter_length_all {A : Type} (f : A -> bool) (l : list A) :
  length (List.filter f l) = length l -> forall x, In x l -> f x = true.
Proof.
  induction l as [|y l IH]; simpl; [tauto|].
  pose proof (filter_length_le f l) as Hle.
  destruct (f y) eqn:Hy; simpl; intros Hlen x [<-|Hx]; auto; try lia.
Qed.

Lemma first_seen_length_le (l : list string) :
  (length (first_seen l) <= length l)%nat.
Proof.
  induction l as [|x l IH]; simpl; [lia|].
  pose proof (filter_length_le (fun y => negb (String.eqb x y)) (first_seen l)).
  lia.
Qed.

Lemma first_seen_fixed (l : list string) : NoDup l -> first_seen l = l.
Proof.
  induction l as [|x l IH]; intros Hnd; simpl; [reflexivity|].
  apply NoDup_cons in Hnd as [Hx Hnd]. rewrite (IH Hnd). f_equal.
  clear IH Hnd. induction l as [|y l IH]; simpl; [reflexivity|].
  apply not_elem_of_cons in Hx as [Hne Hx].
  assert (String.eqb x y = false) as -> by now apply String.eqb_neq.
  simpl. now rewrite IH.
Qed.

Lemma count_distinct_NoDup (l : list string) :
  length l = count_distinct l <-> NoDup l.
Proof.
  unfold count_distinct. split; [|intros H; now rewrite first_seen_fixed].
  induction l as [|x l IH]; simpl; intros Hlen; [constructor|].
  pose proof (filter_length_le (fun y => negb (String.eqb x y)) (first_seen l))
    as Hf.
  pose proof (first_seen_length_le l) as Hs.
  apply NoDup_cons. split.
  - intros Hx. apply first_seen_elem, list_elem_of_In in Hx.
    assert (negb (String.eqb x x) = true) as Hxx.
    { apply (filter_length_all (fun y => negb (String.eqb x y)) (first_seen l));
        [lia | exact Hx]. }
    rewrite String.eqb_refl in Hxx. discriminate.
  - apply IH. lia.
Qed.

Lemma validate_issue_distinct (a b c d : string) :
  ("Only " ++ a ++ b)%string <> "Duplicate questions detected"
  /\ ("Total marks " ++ c ++ d)%string <> "Duplicate questions detected".
Proof. split; discriminate. Qed.

Lemma validate_paper_constraints_report
    (questions : list question) (total_marks num_questions : Z)
    (report : bool * list string) :
  validate_paper_constraints questions total_marks num_questions = Val report ->
  (fst report = true <-> snd report = [])
  /\ (length (snd report) <= 3)%nat
  /\ (("Duplicate questions detected" ∈ snd report)
      <-> ~ NoDup (map q_text questions)).
Proof.
  unfold validate_paper_constraints.
  destruct (int_times_float num_questions float_0_8) as [least|e];
    [|discriminate].
  destruct (int_times_float total_marks float_0_2) as [tolerance|e];
    [|discriminate].
  set (m1 := ("Only " ++ pretty (len questions)
              ++ " questions generated (target: "
              ++ pretty num_questions ++ ")")%string).
  set (m2 := ("Total marks " ++ pretty (total_marks_of questions)
              ++ " differs significantly from target "
              ++ pretty total_marks)%string).
  assert (m1 <> "Duplicate questions detected") as Hm1 by discriminate.
  assert (m2 <> "Duplicate questions detected") as Hm2 by discriminate.
  assert (negb (length (map q_text questions)
                =? count_distinct (map q_text questions))%nat = false
          <-> NoDup (map q_text questions)) as H3.
  { rewrite negb_false_iff, Nat.eqb_eq. apply count_distinct_NoDup. }
  destruct (int_lt_float _ _); destruct (int_gt_float _ _);
    destruct (negb _) eqn:E3; intros H; inversion H; subst report;
    cbn [fst snd app length];
    (split; [|split]);
    try (split; [discriminate|]); try (split; [|discriminate]);
    try lia;
    rewrite ?list_elem_of_In; simpl;
    intuition (try discriminate; try congruence).
Qed.

(** X8.  A report of [validate_paper_constraints] says valid exactly when
    it lists no issue, lists at most three issues, and lists the duplicate
    issue exactly when two questions share their text.  For a target and a
    number of questions between 0 and 2^48 a report is returned, and it
    says valid exactly when the paper has at least eight tenths of
    [num_questions] questions, its marks are within two tenths of
    [total_marks] of the target, and no two questions have the same
    text. *)
Theorem validate_paper_constraints_spec
    (questions : list question) (total_marks num_questions : Z) :
  (forall report,
      validate_paper_constraints questions total_marks num_questions
      = Val report ->
      (fst report = true <-> snd report = [])
      /\ (length (snd report) <= 3)%nat
      /\ (("Duplicate questions detected" ∈ snd report)
          <-> ~ NoDup (map q_text questions)))
  /\ (0 <= total_marks <= 2 ^ 48 -> 0 <= num_questions <= 2 ^ 48 ->
      exists report,
        validate_paper_constraints questions total_marks num_questions
        = Val report
        /\ (fst report = true
            <-> 8 * num_questions <= 10 * len questions
                /\ 10 * Z.abs (total_marks_of questions - total_marks)
                   <= 2 * total_marks
                /\ NoDup (map q_text questions))).
Proof.
  split; [apply validate_paper_constraints_report|].
  intros Hmarks Hcount.
  destruct (count_test_exact num_questions Hcount) as (least & Hleast & H1).
  destruct (marks_test_exact total_marks Hmarks) as (tolerance & Htol & H2).
  unfold validate_paper_constraints. rewrite Hleast, Htol.
  eexists. split; [reflexivity|]. cbn [fst].
  assert (negb (length (map q_text questions)
                =? count_distinct (map q_text questions))%nat = false
          <-> NoDup (map q_text questions)) as H3.
  { rewrite negb_false_iff, Nat.eqb_eq. apply count_distinct_NoDup. }
  specialize (H1 (len questions)).
  specialize (H2 (Z.abs (total_marks_of questions - total_marks))).
  destruct (int_lt_float _ _) eqn:E1; destruct (int_gt_float _ _) eqn:E2;
    destruct (negb _) eqn:E3; cbn [app];
    split; intros H; try discriminate; try reflexivity;
    intuition (try discriminate; try congruence; try lia).
Qed.

Lemma validate_paper_constraints_spec_witness :
  0 <= 15 <= 2 ^ 48 /\ 0 <= 3 <= 2 ^ 48
  /\ exists report,
       validate_paper_constraints worded_pool 15 3 = Val report
       /\ (fst report = true
           <-> 8 * 3 <= 10 * len worded_pool
               /\ 10 * Z.abs (total_marks_of worded_pool - 15) <= 2 * 15
               /\ NoDup (map q_text worded_pool)).
Proof.
  assert (0 <= 15 <= 2 ^ 48) as Hmarks
    by (split; [discriminate|vm_compute; discriminate]).
  assert (0 <= 3 <= 2 ^ 48) as Hcount
    by (split; [discriminate|vm_compute; discriminate]).
  split; [exact Hmarks|]. split; [exact Hcount|].
  exact (proj2 (validate_paper_constraints_spec worded_pool 15 3)
               Hmarks Hcount).
Defined.

(** X9.  When the texts of the pool are pairwise distinct, a paper returned
    by [generate_paper] holds no two questions with the same text, so the
    validator does not list the duplicate issue for it. *)
Theorem generated_paper_has_no_duplicate_text
    (shuffle : list question -> list question) (pool paper : list question)
    (total_marks num_questions : Z) (caller : store) :
  shuffle pool ≡ₚ pool ->
  NoDup (map q_text pool) ->
  fst (generate_paper shuffle pool total_marks num_questions caller)
  = Returned (Some paper) ->
  NoDup (map q_text paper)
  /\ forall report,
       validate_paper_constraints paper total_marks num_questions
       = Val report ->
       "Duplicate questions detected" ∉ snd report.
Proof.
  intros Hshuffle Hpool Hgen.
  assert (NoDup (map q_text paper)) as Hnd.
  { revert Hgen. unfold generate_paper, generate_paper_fuel.
    destruct pool as [|q0 pool]; [discriminate|].
    destruct (primary_selection _ _ _ _ _) as [st how] eqn:Hprim.
    apply primary_selection_trace in Hprim as (_ & _ & _ & _ & Hids & Hin).
    destruct how; simpl; try discriminate.
    destruct (acceptable _ _).
    - intros H. inversion H; subst paper.
      change (map q_id (selected_questions st))
        with (q_id <$> selected_questions st) in Hids.
      apply NoDup_fmap_1 in Hids.
      pose proof (NoDup_submseteq _ _ Hids Hin) as Hsub.
      apply (fmap_submseteq q_text) in Hsub.
      apply submseteq_Permutation in Hsub as [k Hk].
      change (map q_text (q0 :: pool)) with (q_text <$> q0 :: pool) in Hpool.
      rewrite Hk in Hpool. apply NoDup_app in Hpool. tauto.
    - unfold generate_paper_relaxed.
      destruct (relaxed_loop _ _ _ _ _) as [selected|e] eqn:Hloop;
        [|discriminate].
      apply relaxed_loop_sub in Hloop as (new & -> & Hsub).
      simpl. destruct (3 <=? len new); [|discriminate].
      intros H. inversion H; subst paper.
      change (NoDup (q_text <$> new)).
      eapply sublist_NoDup; [|apply fmap_sublist; exact Hsub].
      rewrite Hshuffle. exact Hpool. }
  split; [exact Hnd|].
  intros report Hreport.
  apply validate_paper_constraints_report in Hreport as (_ & _ & Hdup).
  rewrite Hdup. tauto.
Qed.

Lemma generated_paper_has_no_duplicate_text_witness :
  (fun l : list question => l) worded_pool ≡ₚ worded_pool
  /\ NoDup (map q_text worded_pool)
  /\ exists paper,
       fst (generate_paper (fun l => l) worded_pool 15 3 small_caller)
       = Returned (Some paper)
       /\ NoDup (map q_text paper)
       /\ forall report,
            validate_paper_constraints paper 15 3 = Val report ->
            "Duplicate questions detected" ∉ snd report.
Proof.
  assert (NoDup (map q_text worded_pool)) as Hnd
    by (apply (bool_decide_unpack _); vm_compute; reflexivity).
  split; [reflexivity|]. split; [exact Hnd|].
  eexists. split; [vm_compute; reflexivity|].
  apply (generated_paper_has_no_duplicate_text (fun l => l) worded_pool
           _ 15 3 small_caller (reflexivity _) Hnd).
  vm_compute. reflexivity.
Defined.

(** ** Further properties: editing the paper and querying the table *)

Lemma find_id_none (paper : list question) (question_id : Z) :
  List.find (fun q => q_id q =? question_id) paper = None
  <-> question_id ∉ map q_id paper.
Proof.
  induction paper as [|q paper IH]; simpl.
  - split; [intros _ H; inversion H | reflexivity].
  - rewrite not_elem_of_cons. destruct (q_id q =? question_id) eqn:E.
    + apply Z.eqb_eq in E. split; [discriminate | intros [Hne _]; congruence].
    + apply Z.eqb_neq in E. rewrite IH. split; [split; [congruence|tauto] | tauto].
Qed.

Lemma find_id_some (paper : list question) (question_id : Z) (q : question) :
  List.find (fun q => q_id q =? question_id) paper = Some q ->
  (q ∈ paper) /\ q_id q = question_id.
Proof.
  intros H. apply find_some in H as [Hin Hid].
  apply Z.eqb_eq in Hid. split; [now apply list_elem_of_In | exact Hid].
Qed.

(** X10.  [replace_question] answers "Question not found" (404) exactly when
    the id is not in the paper; whenever it answers an error the paper is
    left as it was; when it succeeds the id was in the paper and the
    replacement is a row of the table. *)
Theorem replace_question_errors
    (table paper : list question) (question_id : Z) :
  ((question_id ∉ map q_id paper)
   <-> replace_question table paper question_id
       = (Error "Question not found" 404, paper))
  /\ (forall message code paper',
        replace_question table paper question_id
        = (Error message code, paper') ->
        paper' = paper
        /\ (message = "Question not found" /\ code = 404
            \/ message = "No alternative questions available" /\ code = 400))
  /\ (forall r paper',
        replace_question table paper question_id = (Success r, paper') ->
        (question_id ∈ map q_id paper)
        /\ exists q, r = Some q /\ (q ∈ table)).
Proof.
  unfold replace_question.
  destruct (List.find _ paper) as [old|] eqn:Hfind.
  - assert (question_id ∈ map q_id paper) as Hin.
    { apply find_id_some in Hfind as [Hin <-].
      apply list_elem_of_In, in_map, list_elem_of_In, Hin. }
    destruct (List.filter _ _) as [|r alternatives] eqn:Halt.
    + split; [split; [contradiction | discriminate]|].
      split; [|discriminate].
      intros message code paper' H. inversion H; subst. auto.
    + split; [split; [contradiction | discriminate]|].
      split; [discriminate|].
      intros r' paper' H. inversion H; subst. split; [exact Hin|].
      exists r. split; [reflexivity|].
      assert (In r (List.filter
                      (fun q => negb (existsb (Z.eqb (q_id q)) (map q_id paper)))
                      (get_questions_by_filters table (Some (q_unit old))
                         (Some (q_bloom_level old)) None (Some (q_marks old)))))
        as Hr by (rewrite Halt; now left).
      apply filter_In in Hr as [Hr _]. unfold get_questions_by_filters in Hr.
      apply filter_In in Hr as [Hr _]. now apply list_elem_of_In.
  - apply find_id_none in Hfind.
    split; [split; [reflexivity | intros _; exact Hfind]|].
    split; [|discriminate].
    intros message code paper' H. inversion H; subst. auto.
Qed.

Lemma replace_first_ids paper question_id replacement :
  NoDup (map q_id paper) ->
  (question_id ∈ map q_id paper) ->
  (q_id replacement ∉ map q_id paper) ->
  NoDup (map q_id (replace_first paper question_id replacement))
  /\ (forall x, (x ∈ map q_id (replace_first paper question_id replacement))
                <-> (x = q_id replacement
                     \/ ((x ∈ map q_id paper) /\ x <> question_id)))
  /\ List.filter (fun q => negb (q_id q =? q_id replacement))
                 (replace_first paper question_id replacement)
     = List.filter (fun q => negb (q_id q =? question_id)) paper.
Proof.
  induction paper as [|q paper IH]; simpl; intros Hnd Hin Hfresh.
  - inversion Hin.
  - apply NoDup_cons in Hnd as [Hq Hnd].
    apply not_elem_of_cons in Hfresh as [Hrq Hfresh].
    destruct (q_id q =? question_id) eqn:E.
    + apply Z.eqb_eq in E. subst question_id. simpl.
      rewrite Z.eqb_refl. simpl. split; [|split].
      * apply NoDup_cons. split; assumption.
      * intros x. rewrite !elem_of_cons.
        destruct (decide (x = q_id q)) as [->|Hne]; [|tauto].
        split; [tauto|]. intros [->|[_ Hx]]; [now left|congruence].
      * rewrite !filter_absent_id; auto.
    + apply Z.eqb_neq in E.
      apply elem_of_cons in Hin as [Hin|Hin]; [congruence|].
      destruct (IH Hnd Hin Hfresh) as (IH1 & IH2 & IH3).
      simpl. split; [|split].
      * apply NoDup_cons. split; [|exact IH1].
        rewrite IH2. intros [Hx|[Hx _]]; [congruence|contradiction].
      * intros x. rewrite !elem_of_cons, IH2.
        destruct (decide (x = q_id q)) as [->|Hne]; [|tauto].
        split; [|tauto]. intros _. right. split; [now left|congruence].
      * assert ((q_id q =? q_id replacement) = false) as ->
          by (apply Z.eqb_neq; congruence).
        simpl. now rewrite IH3.
Qed.

(** X11.  On a paper whose ids are pairwise distinct, a successful
    [replace_question] leaves a paper whose ids are again pairwise distinct:
    the requested id is gone, the replacement's id has come in, every other
    id stays. *)
Theorem replace_question_keeps_ids_distinct
    (table paper paper' : list question) (question_id : Z)
    (replacement : question) :
  NoDup (map q_id paper) ->
  replace_question table paper question_id
  = (Success (Some replacement), paper') ->
  NoDup (map q_id paper')
  /\ (question_id ∉ map q_id paper')
  /\ (forall x, (x ∈ map q_id paper')
                <-> (x = q_id replacement
                     \/ ((x ∈ map q_id paper) /\ x <> question_id))).
Proof.
  intros Hnd. unfold replace_question.
  destruct (List.find _ paper) as [old|] eqn:Hfind; [|discriminate].
  destruct (List.filter _ _) as [|r alternatives] eqn:Halt; [discriminate|].
  intros H. inversion H; subst r paper'; clear H.
  assert (In replacement
            (List.filter
               (fun q => negb (existsb (Z.eqb (q_id q)) (map q_id paper)))
               (get_questions_by_filters table (Some (q_unit old))
                  (Some (q_bloom_level old)) None (Some (q_marks old)))))
    as Hin by (rewrite Halt; now left).
  apply filter_In in Hin as [_ Hfresh].
  apply negb_true_iff, existsb_eqb_false in Hfresh.
  assert (question_id ∈ map q_id paper) as Hid.
  { apply find_id_some in Hfind as [Hin <-].
    apply list_elem_of_In, in_map, list_elem_of_In, Hin. }
  destruct (replace_first_ids paper question_id replacement Hnd Hid Hfresh)
    as (H1 & H2 & _).
  split; [exact H1|]. split; [|exact H2].
  rewrite H2. intros [Hx|[_ Hx]]; [|congruence].
  subst question_id. contradiction.
Qed.

Lemma replace_question_keeps_ids_distinct_witness :
  NoDup (map q_id small_pool)
  /\ replace_question small_table small_pool 2
     = (Success (Some (sample_question 4 "Unit 1" 5)),
        [sample_question 1 "Unit 1" 5; sample_question 4 "Unit 1" 5;
         sample_question 3 "Unit 1" 5])
  /\ NoDup (map q_id [sample_question 1 "Unit 1" 5;
                      sample_question 4 "Unit 1" 5;
                      sample_question 3 "Unit 1" 5]).
Proof.
  assert (NoDup (map q_id small_pool)) as Hnd
    by (apply (bool_decide_unpack _); vm_compute; reflexivity).
  split; [exact Hnd|]. split; [reflexivity|].
  apply (replace_question_keeps_ids_distinct small_table small_pool _ 2
           (sample_question 4 "Unit 1" 5) Hnd eq_refl).
Defined.

(** X12.  After a successful replacement on a paper with pairwise distinct
    ids, removing the replacement gives the same paper as removing the
    replaced question from the original paper. *)
Theorem replace_then_remove
    (table paper paper' : list question) (question_id : Z)
    (replacement : question) :
  NoDup (map q_id paper) ->
  replace_question table paper question_id
  = (Success (Some replacement), paper') ->
  remove_question paper' (q_id replacement) = remove_question paper question_id.
Proof.
  intros Hnd. unfold replace_question.
  destruct (List.find _ paper) as [old|] eqn:Hfind; [|discriminate].
  destruct (List.filter _ _) as [|r alternatives] eqn:Halt; [discriminate|].
  intros H. inversion H; subst r paper'; clear H.
  assert (In replacement
            (List.filter
               (fun q => negb (existsb (Z.eqb (q_id q)) (map q_id paper)))
               (get_questions_by_filters table (Some (q_unit old))
                  (Some (q_bloom_level old)) None (Some (q_marks old)))))
    as Hin by (rewrite Halt; now left).
  apply filter_In in Hin as [_ Hfresh].
  apply negb_true_iff, existsb_eqb_false in Hfresh.
  assert (question_id ∈ map q_id paper) as Hid.
  { apply find_id_some in Hfind as [Hin <-].
    apply list_elem_of_In, in_map, list_elem_of_In, Hin. }
  destruct (replace_first_ids paper question_id replacement Hnd Hid Hfresh)
    as (_ & _ & H3).
  unfold remove_question. now rewrite H3.
Qed.

Lemma replace_then_remove_witness :
  NoDup (map q_id small_pool)
  /\ remove_question [sample_question 1 "Unit 1" 5; sample_question 4 "Unit 1" 5;
                      sample_question 3 "Unit 1" 5] 4
     = remove_question small_pool 2.
Proof.
  assert (NoDup (map q_id small_pool)) as Hnd
    by (apply (bool_decide_unpack _); vm_compute; reflexivity).
  split; [exact Hnd|].
  apply (replace_then_remove small_table small_pool _ 2
           (sample_question 4 "Unit 1" 5) Hnd eq_refl).
Defined.

Lemma filter_sublist {A : Type} (f : A -> bool) (l : list A) :
  sublist (List.filter f l) l.
Proof.
  induction l as [|x l IH]; simpl; [constructor|].
  destruct (f x); now constructor.
Qed.

Lemma filter_comm {A : Type} (f g : A -> bool) (l : list A) :
  List.filter f (List.filter g l) = List.filter g (List.filter f l).
Proof.
  induction l as [|x l IH]; simpl; [reflexivity|].
  destruct (g x) eqn:Hg; destruct (f x) eqn:Hf; simpl;
    rewrite ?Hg, ?Hf, IH; reflexivity.
Qed.

Lemma filter_idem {A : Type} (f : A -> bool) (l : list A) :
  List.filter f (List.filter f l) = List.filter f l.
Proof.
  induction l as [|x l IH]; simpl; [reflexivity|].
  destruct (f x) eqn:Hf; simpl; rewrite ?Hf, IH; reflexivity.
Qed.

Lemma filter_filter {A : Type} (f g : A -> bool) (l : list A) :
  List.filter f (List.filter g l) = List.filter (fun x => g x && f x) l.
Proof.
  induction l as [|x l IH]; simpl; [reflexivity|].
  destruct (g x) eqn:Hg; simpl; [|exact IH].
  destruct (f x); now rewrite IH.
Qed.

(** X13.  [remove_question] leaves no question with the removed id and keeps
    the others in order; removing the same id again changes nothing;
    removals of two ids can be done in either order; the marks of the paper
    drop by the marks of the questions removed. *)
Theorem remove_question_properties (paper : list question) (a b : Z) :
  let after := snd (remove_question paper a) in
  (a ∉ map q_id after)
  /\ sublist after paper
  /\ (forall q, q ∈ paper -> q_id q <> a -> q ∈ after)
  /\ remove_question after a = (Success None, after)
  /\ snd (remove_question after b)
     = snd (remove_question (snd (remove_question paper b)) a)
  /\ total_marks_of after
     = total_marks_of paper
       - total_marks_of (List.filter (fun q => q_id q =? a) paper).
Proof.
  simpl. repeat split.
  - rewrite list_elem_of_In, in_map_iff. intros (q & Hid & Hq).
    apply filter_In in Hq as [_ Hq].
    apply negb_true_iff, Z.eqb_neq in Hq. congruence.
  - apply filter_sublist.
  - intros q Hq Hne. apply list_elem_of_In, filter_In.
    split; [now apply list_elem_of_In|]. now apply negb_true_iff, Z.eqb_neq.
  - unfold remove_question. now rewrite filter_idem.
  - apply filter_comm.
  - induction paper as [|q paper IH]; simpl; [reflexivity|].
    destruct (q_id q =? a); simpl; lia.
Qed.

(** X14.  [get_questions_by_filters] returns, in table order, exactly the
    rows that agree with every filter that is given and truthy; without
    filters it returns the whole table; an empty string or a zero given as
    filter is ignored like a missing one; filtering the result of a query
    by unit on level is the query on both. *)
Theorem get_questions_by_filters_properties
    (table : list question) (unit bloom_level difficulty : option string)
    (marks : option Z) :
  get_questions_by_filters table None None None None = table
  /\ get_questions_by_filters table (Some "") bloom_level difficulty marks
     = get_questions_by_filters table None bloom_level difficulty marks
  /\ get_questions_by_filters table unit bloom_level difficulty (Some 0)
     = get_questions_by_filters table unit bloom_level difficulty None
  /\ sublist (get_questions_by_filters table unit bloom_level difficulty marks)
             table
  /\ (forall q,
        (q ∈ get_questions_by_filters table unit bloom_level difficulty marks)
        <-> ((q ∈ table)
             /\ (forall u, unit = Some u -> u <> "" -> q_unit q = u)
             /\ (forall b, bloom_level = Some b -> b <> "" ->
                           q_bloom_level q = b)
             /\ (forall d, difficulty = Some d -> d <> "" ->
                           q_difficulty q = d)
             /\ (forall m, marks = Some m -> m <> 0 -> q_marks q = m)))
  /\ get_questions_by_filters
       (get_questions_by_filters table unit None None None)
       None bloom_level None None
     = get_questions_by_filters table unit bloom_level None None.
Proof.
  assert (forall o field,
             matches_str o field = true
             <-> (forall s, o = Some s -> s <> "" -> field = s)) as Hstr.
  { intros [s|] field; unfold matches_str, truthy_str.
    - destruct (String.eqb s "") eqn:E; simpl.
      + apply String.eqb_eq in E. subst s. split; [|reflexivity].
        intros _ s Hs Hne. inversion Hs. congruence.
      + apply String.eqb_neq in E. rewrite String.eqb_eq. split.
        * intros -> s' Hs' _. now inversion Hs'.
        * intros H. now apply H.
    - simpl. split; [discriminate|reflexivity]. }
  assert (forall o field,
             matches_int o field = true
             <-> (forall m, o = Some m -> m <> 0 -> field = m)) as Hint.
  { intros [m|] field; unfold matches_int, truthy_int.
    - destruct (m =? 0) eqn:E; simpl.
      + apply Z.eqb_eq in E. subst m. split; [|reflexivity].
        intros _ m Hm Hne. inversion Hm. congruence.
      + apply Z.eqb_neq in E. rewrite Z.eqb_eq. split.
        * intros -> m' Hm' _. now inversion Hm'.
        * intros H. now apply H.
    - simpl. split; [discriminate|reflexivity]. }
  unfold get_questions_by_filters. split; [|split; [|split; [|split; [|split]]]].
  - induction table as [|q table IH]; simpl; [reflexivity|].
    f_equal. exact IH.
  - reflexivity.
  - reflexivity.
  - apply filter_sublist.
  - intros q. rewrite list_elem_of_In, filter_In, <- list_elem_of_In.
    rewrite !andb_true_iff, !Hstr, Hint. tauto.
  - rewrite filter_filter. apply List.filter_ext. intros q.
    assert (forall field, matches_str None field = true) as Hn
      by reflexivity.
    assert (forall field, matches_int None field = true) as Hm
      by reflexivity.
    rewrite !Hn, !Hm.
    destruct (matches_str unit (q_unit q));
      destruct (matches_str bloom_level (q_bloom_level q)); reflexivity.
Qed.

Lemma find_filter_other (table : list question) (a b : Z) :
  a <> b ->
  List.find (fun q => q_id q =? b)
            (List.filter (fun q => negb (q_id q =? a)) table)
  = List.find (fun q => q_id q =? b) table.
Proof.
  intros Hne. induction table as [|q table IH]; simpl; [reflexivity|].
  destruct (q_id q =? a) eqn:Ea; simpl.
  - apply Z.eqb_eq in Ea.
    assert ((q_id q =? b) = false) as -> by (apply Z.eqb_neq; congruence).
    exact IH.
  - destruct (q_id q =? b); [reflexivity | exact IH].
Qed.

(** X15.  After [delete_question] the deleted id is no longer found by
    [get_question_by_id], every other id is found as before, and every
    query returns what it returned before without the rows of the deleted
    id; [get_question_by_id] finds a row of the table with the requested id,
    and finds none only when no row has it. *)
Theorem delete_question_properties
    (table : list question) (question_id other_id : Z)
    (unit bloom_level difficulty : option string) (marks : option Z) :
  get_question_by_id (delete_question table question_id) question_id = None
  /\ (other_id <> question_id ->
      get_question_by_id (delete_question table question_id) other_id
      = get_question_by_id table other_id)
  /\ get_questions_by_filters (delete_question table question_id)
                              unit bloom_level difficulty marks
     = delete_question
         (get_questions_by_filters table unit bloom_level difficulty marks)
         question_id
  /\ (forall q, get_question_by_id table question_id = Some q ->
                (q ∈ table) /\ q_id q = question_id)
  /\ (get_question_by_id table question_id = None
      <-> question_id ∉ map q_id table).
Proof.
  unfold get_question_by_id, delete_question. repeat split.
  - apply find_id_none.
    rewrite list_elem_of_In, in_map_iff. intros (q & Hid & Hq).
    apply filter_In in Hq as [_ Hq].
    apply negb_true_iff, Z.eqb_neq in Hq. congruence.
  - intros Hne. apply find_filter_other. congruence.
  - unfold get_questions_by_filters. apply filter_comm.
  - now apply find_id_some in H.
  - now apply find_id_some in H.
  - apply find_id_none.
  - apply find_id_none.
Qed.

(** ** Further properties: the classifier *)

Lemma classify_by_heuristics_range (question_text : string) :
  classify_by_heuristics question_text = "Remember"
  \/ classify_by_heuristics question_text = "Understand"
  \/ classify_by_heuristics question_text = "Apply"
  \/ classify_by_heuristics question_text = "Analyze"
  \/ classify_by_heuristics question_text = "Create".
Proof.
  unfold classify_by_heuristics.
  repeat match goal with
         | |- context [if ?c then _ else _] => destruct c
         end; tauto.
Qed.

(** X16.  [classify_question] always answers one of the six level names
    together with a difficulty; when no keyword matches, the level comes
    from the heuristics, which never answer "Evaluate". *)
Theorem classify_question_closed (question_text : string) (marks : Z) :
  (exists b, fst (classify_question question_text marks) = bloom_name b)
  /\ snd (classify_question question_text marks)
     = determine_difficulty (determine_bloom_level question_text) marks
  /\ ((forall b, count_of b question_text = 0) ->
      determine_bloom_level question_text
      = classify_by_heuristics question_text
      /\ determine_bloom_level question_text <> "Evaluate").
Proof.
  assert (exists b, classify_by_heuristics question_text = bloom_name b) as Hh.
  { destruct (classify_by_heuristics_range question_text)
      as [H|[H|[H|[H|H]]]]; rewrite H;
      [exists Remember|exists Understand|exists Apply|exists Analyze
       |exists Create]; reflexivity. }
  split; [|split; [reflexivity|]].
  - unfold classify_question. cbn [fst].
    unfold determine_bloom_level. rewrite level_scores_counts.
    cbn [map all_blooms]. unfold max_item, max_from. cbn [snd fst].
    repeat match goal with
           | |- context [?a <? ?b] => destruct (a <? b); cbn [snd fst]
           end;
      match goal with
      | |- context [?a =? 0] => destruct (a =? 0); [exact Hh|]
      end;
      first [ exists Remember; reflexivity | exists Understand; reflexivity
            | exists Apply; reflexivity | exists Analyze; reflexivity
            | exists Evaluate; reflexivity | exists Create; reflexivity ].
  - intros Hzero.
    assert (determine_bloom_level question_text
            = classify_by_heuristics question_text) as Heq.
    { unfold determine_bloom_level. rewrite level_scores_counts.
      cbn [map all_blooms]. unfold max_item, max_from. cbn [snd fst].
      rewrite !Hzero. reflexivity. }
    split; [exact Heq|]. rewrite Heq.
    destruct (classify_by_heuristics_range question_text)
      as [H|[H|[H|[H|H]]]]; rewrite H; discriminate.
Qed.

Lemma classify_question_closed_witness :
  (forall b, count_of b "How does recursion work?" = 0)
  /\ determine_bloom_level "How does recursion work?" = "Apply".
Proof.
  assert (forall b, count_of b "How does recursion work?" = 0) as Hz
    by (intros []; vm_compute; reflexivity).
  split; [exact Hz|].
  destruct (classify_question_closed "How does recursion work?" 5)
    as (_ & _ & H).
  destruct (H Hz) as [Heq _]. rewrite Heq. vm_compute. reflexivity.
Defined.

Lemma lower_length (s : string) : String.length (lower s) = String.length s.
Proof. induction s as [|c s IH]; simpl; [reflexivity|]. now rewrite IH. Qed.

Lemma lower_char_idem (c : ascii) : lower_char (lower_char c) = lower_char c.
Proof.
  destruct c as [[] [] [] [] [] [] [] []]; reflexivity.
Qed.

Lemma lower_idem (s : string) : lower (lower s) = lower s.
Proof.
  induction s as [|c s IH]; simpl; [reflexivity|].
  now rewrite lower_char_idem, IH.
Qed.

(** X17.  On ASCII texts (for which [lower] and [String.length] are
    [str.lower] and [len]) the classification does not depend on letter
    case: two texts with the same lower-case form get the same level and
    (for the same marks) the same difficulty; in particular a text and its
    lower-case form. *)
Theorem classify_question_case_insensitive
    (text1 text2 : string) (marks : Z) :
  isascii text1 = true -> isascii text2 = true ->
  lower text1 = lower text2 ->
  classify_question text1 marks = classify_question text2 marks
  /\ classify_question (lower text1) marks = classify_question text1 marks.
Proof.
  intros _ _.
  assert (forall t1 t2, lower t1 = lower t2 ->
                        classify_question t1 marks = classify_question t2 marks)
    as Hmain.
  { intros t1 t2 Hl.
    assert (String.length t1 = String.length t2) as Hlen
      by (rewrite <- (lower_length t1), <- (lower_length t2), Hl; reflexivity).
    unfold classify_question, determine_bloom_level, classify_by_heuristics.
    rewrite Hl, Hlen. reflexivity. }
  intros Hl. split; [now apply Hmain|].
  apply Hmain, lower_idem.
Qed.

Lemma classify_question_case_insensitive_witness :
  isascii "DEFINE A Stack." = true /\ isascii "define a stack." = true
  /\ lower "DEFINE A Stack." = lower "define a stack."
  /\ classify_question "DEFINE A Stack." 2 = classify_question "define a stack." 2.
Proof.
  split; [reflexivity|]. split; [reflexivity|]. split; [reflexivity|].
  apply (classify_question_case_insensitive "DEFINE A Stack." "define a stack."
           2 eq_refl eq_refl eq_refl).
Defined.

Lemma determine_difficulty_cases (bloom_level : string) (marks : Z) :
  determine_difficulty bloom_level marks
  = if String.eqb "Create" bloom_level then
      if marks <=? 5 then Medium else Hard
    else if String.eqb "Apply" bloom_level then
      if marks <=? 2 then Easy else Medium
    else if String.eqb "Analyze" bloom_level
            || String.eqb "Evaluate" bloom_level then Medium
    else Easy.
Proof.
  unfold determine_difficulty, combined_score, marks_score, bloom_difficulty.
  cbn [dict_get].
  destruct (String.eqb_spec "Remember" bloom_level) as [<-|H1];
    [|destruct (String.eqb_spec "Understand" bloom_level) as [<-|H2];
      [|destruct (String.eqb_spec "Apply" bloom_level) as [<-|H3];
        [|destruct (String.eqb_spec "Analyze" bloom_level) as [<-|H4];
          [|destruct (String.eqb_spec "Evaluate" bloom_level) as [<-|H5];
            [|destruct (String.eqb_spec "Create" bloom_level) as [<-|H6]]]]]];
    repeat match goal with
           | |- context [?a <=? ?b] => destruct (Z.leb_spec a b)
           end;
    first [reflexivity | lia].
Qed.

(** X18.  The difficulty as a table, for any level string: Hard exactly for
    "Create" with more than 5 marks; Easy exactly for "Apply" with at most
    2 marks and for every level other than "Apply", "Analyze", "Evaluate"
    and "Create" (an unknown level counts like "Understand"); Medium
    otherwise. *)
Theorem determine_difficulty_table (bloom_level : string) (marks : Z) :
  (determine_difficulty bloom_level marks = Hard
   <-> bloom_level = "Create" /\ 5 < marks)
  /\ (determine_difficulty bloom_level marks = Easy
      <-> (bloom_level = "Apply" /\ marks <= 2)
          \/ (bloom_level <> "Apply" /\ bloom_level <> "Analyze"
              /\ bloom_level <> "Evaluate" /\ bloom_level <> "Create")).
Proof.
  rewrite determine_difficulty_cases.
  destruct (String.eqb_spec "Create" bloom_level) as [<-|H6];
    [|destruct (String.eqb_spec "Apply" bloom_level) as [<-|H3];
      [|destruct (String.eqb_spec "Analyze" bloom_level) as [<-|H4];
        [|destruct (String.eqb_spec "Evaluate" bloom_level) as [<-|H5]]]];
    cbn [orb];
    repeat match goal with
           | |- context [?a <=? ?b] => destruct (Z.leb_spec a b)
           end;
    (split; split; intros H');
    try discriminate; try reflexivity;
    try (split; [reflexivity|lia]);
    try (left; split; [reflexivity|lia]);
    try (right; repeat split; congruence);
    intuition (try discriminate; try congruence; try lia).
Qed.

(** ** Further properties: question generation *)

Lemma random_choice_some {A : Type} (n : nat) (l : list A) :
  l <> [] -> exists x, random_choice n l = Some x /\ In x l.
Proof.
  intros Hne. unfold random_choice.
  destruct (nth_error l (n mod length l)) as [x|] eqn:E.
  - exists x. split; [reflexivity|]. eapply nth_error_In; eauto.
  - apply nth_error_None in E.
    assert (length l <> 0)%nat as Hlen by (destruct l; simpl; congruence).
    pose proof (Nat.mod_upper_bound n (length l) Hlen). lia.
Qed.

Lemma extend_topics_length fuel (topics : list string) n :
  (1 <= length topics)%nat -> (n <= length topics + fuel)%nat ->
  (n <= length (extend_topics fuel topics n))%nat.
Proof.
  revert topics. induction fuel as [|fuel IH]; intros topics H1 Hn; simpl.
  - destruct (length topics <? n)%nat eqn:E;
      [apply Nat.ltb_lt in E | apply Nat.ltb_ge in E]; lia.
  - destruct (length topics <? n)%nat eqn:E;
      [apply Nat.ltb_lt in E | apply Nat.ltb_ge in E; lia].
    apply IH; rewrite length_app, length_take; lia.
Qed.

Lemma extend_topics_elem fuel (topics : list string) n x :
  x ∈ extend_topics fuel topics n -> x ∈ topics.
Proof.
  revert topics. induction fuel as [|fuel IH]; intros topics; simpl.
  - destruct (length topics <? n)%nat; auto.
  - destruct (length topics <? n)%nat; [|auto].
    intros Hx. apply IH, elem_of_app in Hx as [Hx|Hx]; [exact Hx|].
    eapply elem_of_sublist; [exact Hx | apply sublist_take].
Qed.

Lemma bloom_options_nonempty (marks : Z) : bloom_options marks <> [].
Proof.
  unfold bloom_options.
  destruct (marks =? 2); [|destruct (marks =? 5)]; discriminate.
Qed.

Lemma bloom_options_templates (marks : Z) (level : string) :
  In level (bloom_options marks) ->
  exists templates,
    dict_find QUESTION_TEMPLATES level = Some templates /\ templates <> [].
Proof.
  unfold bloom_options.
  destruct (marks =? 2); [|destruct (marks =? 5)]; simpl;
    intuition (subst; eexists; split; [reflexivity | discriminate]).
Qed.

Lemma make_questions_shape source unit_name topics i marks_list :
  (i + length marks_list <= length topics)%nat ->
  exists questions,
    make_questions source unit_name topics i marks_list = Some questions
    /\ map d_marks questions = marks_list
    /\ forall q, In q questions ->
         d_unit q = unit_name
         /\ In (d_bloom_level q) (bloom_options (d_marks q))
         /\ exists templates template topic,
              dict_find QUESTION_TEMPLATES (d_bloom_level q) = Some templates
              /\ In template templates
              /\ In topic topics
              /\ d_question q = str_replace "{topic}" topic template.
Proof.
  revert i. induction marks_list as [|marks rest IH]; intros i Hlen;
    cbn [make_questions].
  - exists []. split; [reflexivity|]. split; [reflexivity|]. intros q [].
  - simpl in Hlen.
    destruct (nth_error topics i) as [topic|] eqn:Et;
      [|apply nth_error_None in Et; lia].
    destruct (random_choice_some (drawn source (2 * i)) (bloom_options marks)
                (bloom_options_nonempty marks)) as (level & El & Hl).
    rewrite El.
    destruct (bloom_options_templates marks level Hl) as (templates & Ed & Hne).
    rewrite Ed.
    destruct (random_choice_some (drawn source (2 * i + 1)) templates Hne)
      as (template & Ec & Hc).
    rewrite Ec.
    destruct (IH (S i) ltac:(lia)) as (questions & Eq & Hmarks & Hall).
    rewrite Eq. eexists. split; [reflexivity|]. split.
    + simpl. now rewrite Hmarks.
    + intros q [<-|Hq]; [|now apply Hall]. simpl. repeat split; auto.
      exists templates, template, topic. repeat split; auto.
      eapply nth_error_In; eauto.
Qed.

Lemma generate_questions_for_unit_ok
    (source : random_source) (unit_name : string) (topics : list string) :
  shuffled_marks source marks_template ≡ₚ marks_template ->
  (forall l, shuffled_topics source l ≡ₚ l) ->
  exists questions,
    generate_questions_for_unit source unit_name topics = Some questions
    /\ length questions = 8%nat
    /\ map d_marks questions ≡ₚ marks_template
    /\ forall q, In q questions ->
         d_unit q = unit_name
         /\ In (d_bloom_level q) (bloom_options (d_marks q))
         /\ exists templates template topic,
              dict_find QUESTION_TEMPLATES (d_bloom_level q) = Some templates
              /\ In template templates
              /\ In topic (match topics with
                           | [] => generic_topics
                           | _ => topics
                           end)
              /\ d_question q = str_replace "{topic}" topic template.
Proof.
  intros Hmarks Htopics. unfold generate_questions_for_unit.
  set (start := match topics with [] => generic_topics | _ => topics end).
  assert (1 <= length start)%nat as Hstart
    by (subst start; destruct topics; simpl; lia).
  assert (length (shuffled_marks source marks_template) = 8%nat) as Hlen
    by (rewrite Hmarks; reflexivity).
  rewrite Hlen.
  set (extended := extend_topics 8 start 8).
  assert (8 <= length extended)%nat as Hext
    by (apply extend_topics_length; lia).
  assert (8 <= length (shuffled_topics source extended))%nat as Hshuf
    by (rewrite Htopics; exact Hext).
  assert (firstn (Nat.min (length (shuffled_topics source extended)) 10)
                 (shuffled_marks source marks_template)
          = shuffled_marks source marks_template) as ->
    by (apply take_ge; lia).
  destruct (make_questions_shape source unit_name
              (shuffled_topics source extended) 0
              (shuffled_marks source marks_template) ltac:(simpl; lia))
    as (questions & Eq & Hm & Hall).
  exists questions. split; [exact Eq|]. split; [|split].
  - rewrite <- (length_map d_marks), Hm. exact Hlen.
  - rewrite Hm. exact Hmarks.
  - intros q Hq. destruct (Hall q Hq) as (Hu & Hb & templates & template & topic
                                          & Hd & Ht & Htopic & Htext).
    repeat split; auto. exists templates, template, topic. repeat split; auto.
    apply list_elem_of_In. apply list_elem_of_In in Htopic.
    rewrite Htopics in Htopic. now apply extend_topics_elem in Htopic.
Qed.

(** X19.  Whatever the random draws, [generate_questions_for_unit] raises no
    [IndexError] or [KeyError] and returns exactly 8 questions of the given
    unit; their marks are the template 2, 2, 5, 5, 5, 10, 10, 10 in shuffled
    order; each level is one allowed for the marks (2: Remember or
    Understand; 5: Understand or Apply; 10: Apply to Create); each text is
    a template of its level with [{topic}] replaced by one of the topics
    (one of the three generic phrases when no topic is given). *)
Theorem generate_questions_for_unit_shape
    (source : random_source) (unit_name : string) (topics : list string) :
  shuffled_marks source marks_template ≡ₚ marks_template ->
  (forall l, shuffled_topics source l ≡ₚ l) ->
  exists questions,
    generate_questions_for_unit source unit_name topics = Some questions
    /\ length questions = 8%nat
    /\ map d_marks questions ≡ₚ marks_template
    /\ forall q, In q questions ->
         d_unit q = unit_name
         /\ In (d_bloom_level q) (bloom_options (d_marks q))
         /\ exists templates template topic,
              dict_find QUESTION_TEMPLATES (d_bloom_level q) = Some templates
              /\ In template templates
              /\ In topic (match topics with
                           | [] => generic_topics
                           | _ => topics
                           end)
              /\ d_question q = str_replace "{topic}" topic template.
Proof. apply generate_questions_for_unit_ok. Qed.

Lemma generate_questions_for_unit_shape_witness :
  (@rev Z) marks_template ≡ₚ marks_template
  /\ (forall l : list string, rev l ≡ₚ l)
  /\ exists questions,
       generate_questions_for_unit
         (mkRandom (@rev Z) (@rev string) (fun k => (k * 7 + 3)%nat))
         "Unit 1" ["Linked List"; "Stack"] = Some questions
       /\ length questions = 8%nat.
Proof.
  assert ((@rev Z) marks_template ≡ₚ marks_template) as H1
    by (symmetry; apply Permutation_rev).
  assert (forall l : list string, rev l ≡ₚ l) as H2
    by (intros l; symmetry; apply Permutation_rev).
  split; [exact H1|]. split; [exact H2|].
  destruct (generate_questions_for_unit_shape
              (mkRandom (@rev Z) (@rev string) (fun k => (k * 7 + 3)%nat))
              "Unit 1" ["Linked List"; "Stack"] H1 H2)
    as (questions & Heq & Hlen & _).
  exists questions. split; assumption.
Defined.

Lemma count_word_get (counts : list (string * Z)) (w u : string) :
  dict_get (count_word counts w) u 0
  = if String.eqb w u then dict_get counts u 0 + 1 else dict_get counts u 0.
Proof.
  induction counts as [|[k n] rest IH]; simpl.
  - destruct (String.eqb w u); reflexivity.
  - destruct (String.eqb_spec k w) as [->|Hkw]; simpl.
    + destruct (String.eqb w u); reflexivity.
    + destruct (String.eqb_spec k u) as [->|Hku]; [|exact IH].
      assert (String.eqb w u = false) as -> by (apply String.eqb_neq; congruence).
      reflexivity.
Qed.

Lemma count_word_keys (counts : list (string * Z)) (w u : string) :
  (u ∈ map fst (count_word counts w)) <-> (u = w \/ u ∈ map fst counts).
Proof.
  induction counts as [|[k n] rest IH]; simpl.
  - rewrite list_elem_of_singleton. split; [tauto|].
    intros [?|H]; [easy|inversion H].
  - destruct (String.eqb_spec k w) as [->|Hkw]; simpl.
    + rewrite !elem_of_cons. tauto.
    + rewrite !elem_of_cons, IH. tauto.
Qed.

Lemma count_word_keys_NoDup (counts : list (string * Z)) (w : string) :
  NoDup (map fst counts) -> NoDup (map fst (count_word counts w)).
Proof.
  induction counts as [|[k n] rest IH]; simpl; intros Hnd.
  - apply NoDup_singleton.
  - apply NoDup_cons in Hnd as [Hk Hnd].
    destruct (String.eqb_spec k w) as [->|Hkw]; simpl.
    + apply NoDup_cons. split; assumption.
    + apply NoDup_cons. split; [|now apply IH].
      rewrite count_word_keys. intros [->|H]; [congruence|contradiction].
Qed.

Lemma dict_get_entry (counts : list (string * Z)) (u : string) (n : Z) :
  NoDup (map fst counts) -> In (u, n) counts -> dict_get counts u 0 = n.
Proof.
  induction counts as [|[k m] rest IH]; simpl; intros Hnd Hin; [easy|].
  apply NoDup_cons in Hnd as [Hk Hnd].
  destruct Hin as [Heq|Hin].
  - inversion Heq; subst. now rewrite String.eqb_refl.
  - destruct (String.eqb_spec k u) as [->|Hku]; [|now apply IH].
    exfalso. apply Hk, list_elem_of_In, in_map_iff.
    exists (u, n). split; [reflexivity|exact Hin].
Qed.

Lemma unit_counts_spec (questions : list draft) :
  (forall u, dict_get (unit_counts questions) u 0 = len (of_unit u questions))
  /\ NoDup (map fst (unit_counts questions))
  /\ (forall u, (u ∈ map fst (unit_counts questions))
                <-> (exists q, In q questions /\ d_unit q = u)).
Proof.
  unfold unit_counts.
  enough (forall counts done,
             (forall u, dict_get counts u 0 = len (of_unit u done)) ->
             NoDup (map fst counts) ->
             (forall u, (u ∈ map fst counts)
                        <-> (exists q, In q done /\ d_unit q = u)) ->
             let counts' :=
               fold_left (fun c q => count_word c (d_unit q)) questions counts in
             (forall u, dict_get counts' u 0 = len (of_unit u (done ++ questions)))
             /\ NoDup (map fst counts')
             /\ (forall u, (u ∈ map fst counts')
                           <-> (exists q, In q (done ++ questions)
                                          /\ d_unit q = u))) as H.
  { apply (H [] []).
    - reflexivity.
    - constructor.
    - intros u. simpl. split; [intros H'; inversion H'|].
      intros (q & [] & _). }
  induction questions as [|q questions IH]; intros counts done Hg Hnd Hk; simpl.
  - rewrite app_nil_r. auto.
  - replace (done ++ q :: questions) with ((done ++ [q]) ++ questions)
      by (rewrite <- app_assoc; reflexivity).
    apply IH.
    + intros u. rewrite count_word_get, Hg. unfold of_unit, len.
      rewrite List.filter_app, length_app. cbn [List.filter].
      destruct (String.eqb (d_unit q) u); simpl; lia.
    + now apply count_word_keys_NoDup.
    + intros u. rewrite count_word_keys, Hk. split.
      * intros [->|(q' & Hq' & Hu)].
        -- exists q. split; [|reflexivity]. apply in_or_app. right. now left.
        -- exists q'. split; [|exact Hu]. apply in_or_app. now left.
      * intros (q' & Hq' & Hu). apply in_app_or in Hq' as [Hq'|[<-|[]]].
        -- right. eauto.
        -- now left.
Qed.

Lemma fold_left_max_spec (l : list Z) (a : Z) :
  In (fold_left Z.max l a) (a :: l)
  /\ forall x, In x (a :: l) -> x <= fold_left Z.max l a.
Proof.
  revert a. induction l as [|b l IH]; intros a; simpl.
  - split; [now left|]. intros x [<-|[]]. lia.
  - destruct (IH (Z.max a b)) as [Hin Hle]. split.
    + destruct Hin as [Heq|Hin]; [|right; now right].
      rewrite <- Heq. destruct (Z.max_spec a b) as [[_ ->]|[_ ->]]; auto.
    + intros x [<-|[<-|Hx]].
      * etransitivity; [|apply Hle; now left]. lia.
      * etransitivity; [|apply Hle; now left]. lia.
      * apply Hle. now right.
Qed.

Lemma fold_left_min_spec (l : list Z) (a : Z) :
  In (fold_left Z.min l a) (a :: l)
  /\ forall x, In x (a :: l) -> fold_left Z.min l a <= x.
Proof.
  revert a. induction l as [|b l IH]; intros a; simpl.
  - split; [now left|]. intros x [<-|[]]. lia.
  - destruct (IH (Z.min a b)) as [Hin Hle]. split.
    + destruct Hin as [Heq|Hin]; [|right; now right].
      rewrite <- Heq. destruct (Z.min_spec a b) as [[_ ->]|[_ ->]]; auto.
    + intros x [<-|[<-|Hx]].
      * etransitivity; [apply Hle; now left|]. lia.
      * etransitivity; [apply Hle; now left|]. lia.
      * apply Hle. now right.
Qed.

Lemma unit_counts_value (questions : list draft) (n : Z) :
  In n (map snd (unit_counts questions)) ->
  exists q, In q questions /\ n = len (of_unit (d_unit q) questions).
Proof.
  intros Hn. apply in_map_iff in Hn as ([u m] & Heq & Hin). simpl in Heq. subst m.
  destruct (unit_counts_spec questions) as (Hget & Hnd & Hkeys).
  assert (u ∈ map fst (unit_counts questions)) as Hu.
  { apply list_elem_of_In, in_map_iff. exists (u, n). auto. }
  apply Hkeys in Hu as (q & Hq & <-).
  exists q. split; [exact Hq|].
  rewrite <- Hget. symmetry. now apply dict_get_entry.
Qed.

Lemma balance_balanced (questions : list draft) :
  (forall q1 q2, In q1 questions -> In q2 questions ->
                 len (of_unit (d_unit q1) questions)
                 <= 2 * len (of_unit (d_unit q2) questions)) ->
  balance_question_distribution questions = questions.
Proof.
  intros Hbal. unfold balance_question_distribution.
  destruct (_ <? _) eqn:E; [|reflexivity].
  apply Z.ltb_lt in E. exfalso.
  destruct (map snd (unit_counts questions)) as [|v values] eqn:Hv;
    [simpl in E; lia|].
  simpl in E.
  destruct (fold_left_max_spec values v) as [Hmax _].
  destruct (fold_left_min_spec values v) as [Hmin _].
  rewrite <- Hv in Hmax, Hmin.
  apply unit_counts_value in Hmax as (q1 & Hq1 & Emax).
  apply unit_counts_value in Hmin as (q2 & Hq2 & Emin).
  specialize (Hbal q1 q2 Hq1 Hq2). lia.
Qed.

(** X20.  [balance_question_distribution] returns its argument unchanged
    when no unit has more than twice the questions of another unit; in
    particular when all units have the same number of questions. *)
Theorem balance_question_distribution_balanced (questions : list draft) :
  (forall q1 q2, In q1 questions -> In q2 questions ->
                 len (of_unit (d_unit q1) questions)
                 <= 2 * len (of_unit (d_unit q2) questions)) ->
  balance_question_distribution questions = questions.
Proof. apply balance_balanced. Qed.

Lemma balance_question_distribution_balanced_witness :
  balance_question_distribution
    [mkDraft "Unit 1" "Define Stack." 2 "Remember";
     mkDraft "Unit 2" "Define Queue." 2 "Remember";
     mkDraft "Unit 1" "Explain Stack." 5 "Understand"]
  = [mkDraft "Unit 1" "Define Stack." 2 "Remember";
     mkDraft "Unit 2" "Define Queue." 2 "Remember";
     mkDraft "Unit 1" "Explain Stack." 5 "Understand"].
Proof.
  apply balance_question_distribution_balanced.
  intros q1 q2 [<-|[<-|[<-|[]]]] [<-|[<-|[<-|[]]]]; vm_compute; discriminate.
Defined.

Lemma of_unit_same (name : string) (l : list draft) :
  (forall q, In q l -> d_unit q = name) ->
  forall u, of_unit u l = if String.eqb name u then l else [].
Proof.
  intros Hall u. unfold of_unit.
  induction l as [|q l IH]; simpl; [now destruct (String.eqb name u)|].
  rewrite (Hall q (or_introl eq_refl)).
  rewrite IH by (intros q' Hq'; apply Hall; now right).
  destruct (String.eqb name u); reflexivity.
Qed.

Lemma in_take {A : Type} (n : nat) (l : list A) (x : A) :
  In x (firstn n l) -> In x l.
Proof.
  intros H. apply list_elem_of_In. apply list_elem_of_In in H.
  eapply elem_of_sublist; [exact H | apply sublist_take].
Qed.

Lemma of_unit_take_of_unit (k u : string) (n : nat) (l : list draft) :
  of_unit u (firstn n (of_unit k l))
  = if String.eqb k u then firstn n (of_unit u l) else [].
Proof.
  rewrite (of_unit_same k).
  - destruct (String.eqb_spec k u) as [->|]; reflexivity.
  - intros q Hq. apply in_take in Hq. unfold of_unit in Hq.
    apply filter_In in Hq as [_ Hq]. now apply String.eqb_eq.
Qed.

Lemma of_unit_flat_map (keys : list string) (n : nat) (l : list draft)
    (u : string) :
  NoDup keys ->
  of_unit u (flat_map (fun k => firstn n (of_unit k l)) keys)
  = if decide (u ∈ keys) then firstn n (of_unit u l) else [].
Proof.
  induction keys as [|k keys IH]; intros Hnd; simpl.
  - destruct (decide (u ∈ [])) as [H|_]; [inversion H | reflexivity].
  - apply NoDup_cons in Hnd as [Hk Hnd].
    unfold of_unit at 1. rewrite List.filter_app.
    fold (of_unit u (firstn n (of_unit k l))).
    fold (of_unit u (flat_map (fun k => firstn n (of_unit k l)) keys)).
    rewrite of_unit_take_of_unit, (IH Hnd).
    destruct (String.eqb_spec k u) as [->|Hku].
    + destruct (decide (u ∈ keys)) as [H|_]; [contradiction|].
      destruct (decide (u ∈ u :: keys)) as [_|H];
        [apply app_nil_r | exfalso; apply H; now left].
    + destruct (decide (u ∈ keys)) as [H|H];
        destruct (decide (u ∈ k :: keys)) as [H'|H']; try reflexivity.
      * exfalso. apply H'. now right.
      * apply elem_of_cons in H' as [->|H']; [congruence|contradiction].
Qed.

Lemma of_unit_absent (l : list draft) (u : string) :
  (forall q, In q l -> d_unit q <> u) -> of_unit u l = [].
Proof.
  intros Hall. unfold of_unit.
  induction l as [|q l IH]; simpl; [reflexivity|].
  assert (String.eqb (d_unit q) u = false) as ->
    by (apply String.eqb_neq, Hall; now left).
  apply IH. intros q' Hq'. apply Hall. now right.
Qed.

(** X21.  Of every unit [balance_question_distribution] keeps a prefix of
    that unit's questions, of length 8 at least when the unit has that
    many: a unit with at most 8 questions keeps them all, no unit
    disappears, and no question is added. *)
Theorem balance_question_distribution_prefix
    (questions : list draft) (u : string) :
  (exists k, (8 <= k)%nat
             /\ of_unit u (balance_question_distribution questions)
                = firstn k (of_unit u questions))
  /\ ((length (of_unit u questions) <= 8)%nat ->
      of_unit u (balance_question_distribution questions)
      = of_unit u questions)
  /\ (of_unit u questions <> [] ->
      of_unit u (balance_question_distribution questions) <> [])
  /\ (forall q, In q (balance_question_distribution questions) ->
                In q questions).
Proof.
  assert (exists k, (8 <= k)%nat
                    /\ of_unit u (balance_question_distribution questions)
                       = firstn k (of_unit u questions)) as Hprefix.
  { unfold balance_question_distribution.
    destruct (_ <? _).
    - destruct (unit_counts_spec questions) as (_ & Hnd & Hkeys).
      eexists. split; cycle 1.
      + rewrite (of_unit_flat_map _ _ _ _ Hnd).
        destruct (decide (u ∈ map fst (unit_counts questions))) as [_|Hu];
          [reflexivity|].
        rewrite of_unit_absent; [now rewrite firstn_nil|].
        intros q Hq Hqu. apply Hu, Hkeys. eauto.
      + lia.
    - exists (Nat.max 8 (length (of_unit u questions))). split; [lia|].
      symmetry. apply take_ge. lia. }
  split; [exact Hprefix|]. destruct Hprefix as (k & Hk & Heq). split; [|split].
  - intros Hlen. rewrite Heq. apply take_ge. lia.
  - intros Hne. rewrite Heq.
    destruct (of_unit u questions) as [|q l]; [congruence|].
    destruct k; [lia|]. discriminate.
  - unfold balance_question_distribution.
    destruct (_ <? _); [|auto].
    intros q Hq. apply in_flat_map in Hq as (unit & _ & Hq).
    apply in_take in Hq. unfold of_unit in Hq.
    now apply filter_In in Hq as [Hq _].
Qed.

Lemma generate_for_units_ok set_order sources i units :
  (forall j, shuffled_marks (sources j) marks_template ≡ₚ marks_template) ->
  (forall j l, shuffled_topics (sources j) l ≡ₚ l) ->
  NoDup (map fst units) ->
  exists questions,
    generate_for_units set_order sources i units = Some questions
    /\ length questions = (8 * length units)%nat
    /\ (forall q, In q questions -> d_unit q ∈ map fst units)
    /\ (forall u, length (of_unit u questions)
                  = if decide (u ∈ map fst units) then 8%nat else 0%nat).
Proof.
  intros Hmarks Htopics. revert i.
  induction units as [|[name text] rest IH]; intros i Hnd; simpl.
  - exists []. split; [reflexivity|]. split; [reflexivity|].
    split; [intros q []|].
    intros u. destruct (decide (u ∈ [])) as [H|_]; [inversion H|reflexivity].
  - apply NoDup_cons in Hnd as [Hname Hnd].
    destruct (generate_questions_for_unit_ok (sources i) name
                (extract_key_concepts set_order text) (Hmarks i) (Htopics i))
      as (block & Eb & Hlen & _ & Hall).
    rewrite Eb.
    destruct (IH (S i) Hnd) as (more & Em & Hmlen & Hmunits & Hmcount).
    rewrite Em. exists (block ++ more). split; [reflexivity|].
    split; [rewrite length_app; lia|]. split.
    + intros q Hq. apply in_app_or in Hq as [Hq|Hq].
      * destruct (Hall q Hq) as [-> _]. now left.
      * right. now apply Hmunits.
    + intros u. unfold of_unit. rewrite List.filter_app, length_app.
      fold (of_unit u block). fold (of_unit u more).
      rewrite Hmcount, (of_unit_same name block)
        by (intros q Hq; now destruct (Hall q Hq)).
      destruct (String.eqb_spec name u) as [->|Hne].
      * destruct (decide (u ∈ map fst rest)) as [H|_]; [contradiction|].
        destruct (decide (u ∈ u :: map fst rest)) as [_|H];
          [lia | exfalso; apply H; now left].
      * destruct (decide (u ∈ map fst rest)) as [H|H];
          destruct (decide (u ∈ name :: map fst rest)) as [H'|H'];
          simpl; try lia.
        -- exfalso. apply H'. now right.
        -- apply elem_of_cons in H' as [->|H']; [congruence|contradiction].
Qed.

(** X22.  Whatever units [extract_units_from_text] finds (under distinct
    names) and whatever the random draws, [generate_questions_from_text]
    raises no [IndexError] or [KeyError] and returns exactly 8 questions
    for every unit: the rebalancing step never removes a question. *)
Theorem generate_questions_from_text_counts
    (extract_units_from_text : string -> list (string * string))
    (set_order : list string -> list string)
    (sources : nat -> random_source) (text : string) :
  (forall j, shuffled_marks (sources j) marks_template ≡ₚ marks_template) ->
  (forall j l, shuffled_topics (sources j) l ≡ₚ l) ->
  NoDup (map fst (extract_units_from_text text)) ->
  let units :=
    match extract_units_from_text text with
    | [] => [("Unit 1", text)]
    | _ => extract_units_from_text text
    end in
  exists questions,
    generate_questions_from_text extract_units_from_text set_order sources text
    = Some questions
    /\ generate_for_units set_order sources 0 units = Some questions
    /\ length questions = (8 * length units)%nat
    /\ forall u, u ∈ map fst units -> length (of_unit u questions) = 8%nat.
Proof.
  intros Hmarks Htopics Hnd units.
  assert (NoDup (map fst units)) as Hnd'.
  { subst units. destruct (extract_units_from_text text);
      [apply NoDup_singleton | exact Hnd]. }
  destruct (generate_for_units_ok set_order sources 0 units Hmarks Htopics Hnd')
    as (questions & Eq & Hlen & Hunits & Hcount).
  exists questions. unfold generate_questions_from_text. fold units.
  rewrite Eq. split; [f_equal|split; [reflexivity|split; [exact Hlen|]]].
  - apply balance_balanced. intros q1 q2 Hq1 Hq2. unfold len.
    rewrite !Hcount.
    destruct (decide (d_unit q1 ∈ map fst units)) as [_|H];
      [|exfalso; apply H; auto].
    destruct (decide (d_unit q2 ∈ map fst units)) as [_|H];
      [lia | exfalso; apply H; auto].
  - intros u Hu. rewrite Hcount.
    destruct (decide (u ∈ map fst units)); [reflexivity|contradiction].
Qed.

Lemma generate_questions_from_text_counts_witness :
  let sources := fun _ : nat =>
    mkRandom (@rev Z) (@rev string) (fun k => (k * 7 + 3)%nat) in
  let extract_units := fun _ : string =>
    [("Unit 1", "Linked List"); ("Unit 2", "Binary Search Tree")] in
  exists questions,
    generate_questions_from_text extract_units first_seen sources
      "UNIT 1: Linked List UNIT 2: Binary Search Tree" = Some questions
    /\ length questions = 16%nat.
Proof.
  intros sources extract_units.
  destruct (generate_questions_from_text_counts extract_units first_seen
              sources "UNIT 1: Linked List UNIT 2: Binary Search Tree")
    as (questions & Heq & _ & Hlen & _).
  - intros j. symmetry. apply Permutation_rev.
  - intros j l. symmetry. apply Permutation_rev.
  - apply (bool_decide_unpack _). vm_compute. reflexivity.
  - exists questions. split; [exact Heq | exact Hlen].
Defined.

(** ** Further properties: the upload check *)

Lemma append_cons (c : ascii) (s t : string) :
  (String c s ++ t)%string = String c (s ++ t)%string.
Proof. reflexivity. Qed.

Lemma append_dot (extension : string) :
  ("." ++ extension)%string = String "." extension.
Proof. reflexivity. Qed.

Lemma after_last_dot_split (filename extension : string) :
  after_last_dot filename = Some extension ->
  exists stem, filename = (stem ++ "." ++ extension)%string.
Proof.
  revert extension. induction filename as [|c rest IH]; intros extension; simpl.
  - discriminate.
  - destruct (after_last_dot rest) as [e|] eqn:E.
    + intros H. inversion H; subst e.
      destruct (IH extension eq_refl) as [stem ->].
      exists (String c stem). reflexivity.
    + destruct (Ascii.eqb_spec c "."); [|discriminate].
      intros H. inversion H; subst. exists EmptyString. reflexivity.
Qed.

Lemma after_last_dot_app (stem extension : string) :
  after_last_dot extension = None ->
  after_last_dot (stem ++ "." ++ extension) = Some extension.
Proof.
  intros Hnone. rewrite append_dot.
  induction stem as [|c stem IH].
  - change (after_last_dot (String "." extension) = Some extension).
    simpl. now rewrite Hnone.
  - rewrite append_cons. simpl. now rewrite IH.
Qed.

Lemma contains_dot_app (stem extension : string) :
  contains "." (stem ++ "." ++ extension) = true.
Proof.
  rewrite append_dot. induction stem as [|c stem IH].
  - reflexivity.
  - rewrite append_cons. cbn [contains starts_with].
    destruct (Ascii.eqb "." c); [reflexivity | exact IH].
Qed.

Lemma lower_char_dot (c : ascii) :
  Ascii.eqb c "." = true -> lower_char c = "."%char.
Proof. intros H. apply Ascii.eqb_eq in H. subst c. reflexivity. Qed.

Lemma pdf_extension_no_dot (extension : string) :
  lower extension = "pdf" -> after_last_dot extension = None.
Proof.
  destruct extension as [|a [|b [|c [|d rest]]]]; simpl; try discriminate.
  intros H. inversion H as [[Ha Hb Hc]].
  destruct (Ascii.eqb c ".") eqn:Ec;
    [apply lower_char_dot in Ec; rewrite Ec in Hc; discriminate|].
  destruct (Ascii.eqb b ".") eqn:Eb;
    [apply lower_char_dot in Eb; rewrite Eb in Hb; discriminate|].
  destruct (Ascii.eqb a ".") eqn:Ea;
    [apply lower_char_dot in Ea; rewrite Ea in Ha; discriminate|].
  reflexivity.
Qed.

(** X23.  [allowed_file] accepts a file name exactly when it ends with a dot
    followed by "pdf" in any letter case; a name without a dot, or whose
    last dot is followed by anything else, is refused. *)
Theorem allowed_file_spec (filename : string) :
  allowed_file filename = true
  <-> exists stem extension,
        filename = (stem ++ "." ++ extension)%string
        /\ lower extension = "pdf".
Proof.
  unfold allowed_file, ALLOWED_EXTENSIONS. split.
  - intros H. apply andb_prop in H as [_ H].
    destruct (after_last_dot filename) as [extension|] eqn:E; [|discriminate].
    apply after_last_dot_split in E as [stem ->].
    simpl in H. rewrite orb_false_r in H. apply String.eqb_eq in H.
    exists stem, extension. auto.
  - intros (stem & extension & -> & Hpdf).
    rewrite contains_dot_app, after_last_dot_app
      by now apply pdf_extension_no_dot.
    simpl. rewrite Hpdf. reflexivity.
Qed.
